(** * msgq: shared-memory queue, event pair and fake gate

    A shallow embedding of the C++ sources

      - [msgq_modern.h]   : [align_to_8], [PackedPointer], [Message], [Queue]
      - [msgq_modern.cc]  : [Queue::Impl] and the [Queue] methods
      - [event_modern.h]  : [Event], [EventState], [SocketEventHandle]
      - [impl_fake_modern.h], [impl_fake_modern.cc] : [FakeSubSocket],
        [FakePoller]
      - [ipc_modern.h], [ipc_modern.cc] : the choice of the backend and the
        factories of [Context], [SubSocket], [PubSocket], [Poller]
      - [impl_msgq_modern.h], [impl_msgq_modern.cc] : [MSGQMessage],
        [MSGQSubSocket::receive], [MSGQPoller]

    Unsigned machine integers are [Z] with their wrap-around written out.
    Exceptions and undefined behaviour are explicit results.  The shared
    memory file system is a finite map from paths to file contents; a file is
    the [Header] followed by the data bytes. *)

From Stdlib Require Import ZArith Lia List.
From Stdlib.Strings Require Import Byte.
From stdpp Require Import base option list gmap strings pretty.

Local Open Scope Z_scope.

(** ** Machine integers *)

Module Machine.

Definition u32 (x : Z) : Z := x mod 2 ^ 32.
Definition u64 (x : Z) : Z := x mod 2 ^ 64.

(** [static_cast<int>] of an unsigned value (two's complement). *)
Definition to_int (x : Z) : Z :=
  let y := u32 x in if y <? 2 ^ 31 then y else y - 2 ^ 32.

(** Conversion of an [int] to [size_t], as done by the usual arithmetic
    conversions when an [int] meets a [size_t]. *)
Definition int_to_size_t (x : Z) : Z := u64 x.

End Machine.

Import Machine.

(** ** C strings *)

Module CString.

(** [std::string::c_str()] read as a C string, which is what [open],
    [unlink], [setenv] and [getenv] work on: the characters before the
    first NUL. *)
Fixpoint c_str (s : string) : string :=
  match s with
  | EmptyString => EmptyString
  | String a s' =>
      if Ascii.eqb a Ascii.zero then EmptyString else String a (c_str s')
  end.

End CString.

(** ** Compile-time constants and utilities (msgq_modern.h) *)

Definition DEFAULT_SEGMENT_SIZE : Z := 10 * 1024 * 1024.
Definition NUM_READERS : Z := 15.
Definition DEFAULT_TIMEOUT_MS : Z := 100.

(** [(n + 7) & ~7ULL] on [size_t]. *)
Definition align_to_8 (n : Z) : Z :=
  Z.land (u64 (n + 7)) (u64 (Z.lnot 7)).

Module PackedPointer.

(** The class wraps one [uint64_t value_]. *)
Abbreviation t := Z.

Definition default : t := 0.

Definition of_raw (raw : Z) : t := raw.

(** [(static_cast<uint64_t>(cycle) << 32) | offset], both arguments
    [uint32_t]. *)
Definition make (cycle offset : Z) : t :=
  Z.lor (u64 (Z.shiftl (u32 cycle) 32)) (u32 offset).

Definition cycle (p : t) : Z := u32 (Z.shiftr p 32).

Definition offset (p : t) : Z := u32 (Z.land p 4294967295).

Definition raw (p : t) : Z := p.

Definition eqb (p q : t) : bool := p =? q.

Definition neqb (p q : t) : bool := negb (p =? q).

End PackedPointer.

(** ** Results of calls: normal return, exception, undefined behaviour *)

(** One constructor per exception thrown in the modelled sources. *)
Inductive error : Type :=
| FailedToOpen            (* "Failed to open shared memory: ..." *)
| FailedToTruncate        (* "Failed to truncate shared memory" *)
| FailedToMmap            (* "Failed to mmap shared memory" *)
| NotPublisher            (* "Not initialized as publisher" *)
| MessageTooLarge         (* "Message too large for queue" *)
| NotSubscriber           (* "Not initialized as subscriber" *)
| QueueNotInitialized     (* "Queue not initialized" *)
| MaxSubscribers          (* "Maximum number of subscribers reached" *)
(* event_modern.h *)
| InvalidEventFd          (* "Event does not have valid file descriptor" *)
| FailedToSetEvent        (* "Failed to set event: ..." *)
| FailedToClearEvent      (* "Failed to clear event: ..." *)
| EventTimedOut           (* "Event timed out (pid: ...)" *)
| EventPollFailed         (* "Event poll failed: ..." *)
| NoEventsToWaitFor       (* std::invalid_argument "No events to wait for" *)
| AllEventsInvalid        (* "All events are invalid" *)
| EventPollTimedOut       (* "Event poll timed out (pid: ...)" *)
| NoEventsReady           (* "No events ready after poll returned" *)
(* impl_fake_modern.cc *)
| ContextNull             (* std::invalid_argument "Context cannot be null" *)
| EndpointEmpty           (* std::invalid_argument "Endpoint cannot be empty" *)
| FailedToMmapEventState  (* "Failed to mmap event state for endpoint: ..." *)
| FailedToConnect.        (* "Failed to connect TSubSocket to endpoint: ..." *)

(** A call started in a state of type [S] either returns a value in a final
    state, or throws in the state reached when the exception leaves the call,
    or has no defined behaviour (an access outside the mapped object, a
    division by zero), or never returns (a wait without deadline on
    something that never happens). *)
Inductive result (S A : Type) : Type :=
| Ok (a : A) (s : S)
| Throw (e : error) (s : S)
| Undefined
| Blocked.

Arguments Ok {S A} a s.
Arguments Throw {S A} e s.
Arguments Undefined {S A}.
Arguments Blocked {S A}.

Definition M (S A : Type) : Type := S -> result S A.

Module StateErr.

Definition ret {S A} (a : A) : M S A := fun s => Ok a s.

Definition bind {S A B} (m : M S A) (k : A -> M S B) : M S B :=
  fun s =>
    match m s with
    | Ok a s' => k a s'
    | Throw e s' => Throw e s'
    | Undefined => Undefined
    | Blocked => Blocked
    end.

Definition throw {S A} (e : error) : M S A := fun s => Throw e s.

Definition undefined {S A} : M S A := fun _ => Undefined.

Definition blocked {S A} : M S A := fun _ => Blocked.

Definition get {S} : M S S := fun s => Ok s s.

Definition gets {S A} (f : S -> A) : M S A := fun s => Ok (f s) s.

Definition put {S} (s : S) : M S unit := fun _ => Ok tt s.

Definition modify {S} (f : S -> S) : M S unit := fun s => Ok tt (f s).

(** A partial primitive: [None] is undefined behaviour. *)
Definition defined {S A} (o : option A) : M S A :=
  match o with
  | Some a => ret a
  | None => undefined
  end.

(** [if (c) throw e;] *)
Definition throw_if {S} (c : bool) (e : error) : M S unit :=
  if c then throw e else ret tt.

End StateErr.

Import StateErr.

Declare Scope cxx_scope.
Delimit Scope cxx_scope with cxx.
Notation "x <- c ;; k" := (bind c (fun x => k))
  (at level 100, c at next level, right associativity) : cxx_scope.
Notation "c ;;; k" := (bind c (fun _ => k))
  (at level 100, right associativity) : cxx_scope.
Local Open Scope cxx_scope.

(** ** The shared segment (msgq_modern.cc, [Queue::Impl::Header]) *)

Record Header : Type := mkHeader {
  write_index : Z;            (* std::atomic<uint64_t> *)
  read_index : list Z;        (* std::atomic<uint64_t> [NUM_READERS] *)
  num_readers : Z;            (* uint32_t *)
  reader_uid : Z;             (* uint32_t *)
  segment_size : Z            (* uint64_t *)
}.

(** [sizeof(Header)]: 8 + 15 * 8 + 4 + 4 + 8. *)
Definition sizeof_Header : Z := 144.

(** The header of a file that [ftruncate] has just extended from nothing:
    all bytes are zero. *)
Definition zero_Header : Header :=
  {| write_index := 0;
     read_index := replicate (Z.to_nat NUM_READERS) 0;
     num_readers := 0;
     reader_uid := 0;
     segment_size := 0 |}.

(** Contents of one file under /dev/shm: the header and the data bytes that
    follow it.  A file that exists with length zero (created by [open], not
    yet sized) is represented by the zero header and no data: the model never
    observes a file length below [sizeof(Header)], and growing such a file
    zero-fills it. *)
Record ShmFile : Type := mkShmFile {
  file_header : Header;
  file_data : list byte
}.

Definition empty_file : ShmFile :=
  {| file_header := zero_Header; file_data := [] |}.

Definition set_write_index (v : Z) (h : Header) : Header :=
  {| write_index := v;
     read_index := read_index h;
     num_readers := num_readers h;
     reader_uid := reader_uid h;
     segment_size := segment_size h |}.

Definition set_read_index (l : list Z) (h : Header) : Header :=
  {| write_index := write_index h;
     read_index := l;
     num_readers := num_readers h;
     reader_uid := reader_uid h;
     segment_size := segment_size h |}.

Definition set_num_readers (n : Z) (h : Header) : Header :=
  {| write_index := write_index h;
     read_index := read_index h;
     num_readers := n;
     reader_uid := reader_uid h;
     segment_size := segment_size h |}.

Definition set_header (h : Header) (f : ShmFile) : ShmFile :=
  {| file_header := h; file_data := file_data f |}.

Definition set_data (d : list byte) (f : ShmFile) : ShmFile :=
  {| file_header := file_header f; file_data := d |}.

(** [header_->read_index[i].load(...)]: the array has [NUM_READERS] elements,
    a subscript outside it has no defined behaviour. *)
Definition load_read_index (i : Z) (h : Header) : option Z :=
  if (0 <=? i) && (i <? NUM_READERS) then read_index h !! Z.to_nat i else None.

(** [header_->read_index[i].store(v, ...)]. *)
Definition store_read_index (i v : Z) (h : Header) : option Header :=
  if (0 <=? i) && (i <? NUM_READERS) && (Z.to_nat i <? length (read_index h))%nat
  then Some (set_read_index (<[Z.to_nat i := v]> (read_index h)) h)
  else None.

(** [memcpy(data_start_ + dst, src + from, n)] into the data region [mem].
    Reading past the end of the source or writing past the end of the data
    region has no defined behaviour. *)
Definition memcpy (mem : list byte) (dst : Z) (src : list byte) (from n : Z)
  : option (list byte) :=
  if (0 <=? dst) && (0 <=? from) && (0 <=? n)
     && (from + n <=? Z.of_nat (length src))
     && (dst + n <=? Z.of_nat (length mem))
  then Some (take (Z.to_nat dst) mem
             ++ take (Z.to_nat n) (drop (Z.to_nat from) src)
             ++ drop (Z.to_nat (dst + n)) mem)
  else None.

(** [class Message]: a [std::vector<char>]. *)
Definition Message : Type := list byte.

Definition Message_default : Message := [].

(** ** The operating system under [init_shared_memory] *)

(** /dev/shm: the files that exist, by path. *)
Abbreviation Shm := (gmap string ShmFile).

(** Which of the three system calls of [init_shared_memory] the operating
    system refuses, for reasons outside the program (permissions, no space,
    no address space). *)
Record os_env : Type := mkOsEnv {
  open_fails : bool;
  ftruncate_fails : bool;
  mmap_fails : bool
}.

Definition os_ok : os_env :=
  {| open_fails := false; ftruncate_fails := false; mmap_fails := false |}.

(** [open(path, O_CREAT | O_RDWR, 0666)]: an absent file is created empty, an
    existing one is opened as it is (no [O_TRUNC]). *)
Definition os_open_creat (path : string) (fs : Shm) : Shm :=
  match fs !! path with
  | Some _ => fs
  | None => <[path := empty_file]> fs
  end.

(** Resize a byte sequence: cut it, or extend it with zero bytes. *)
Definition resize_bytes (n : nat) (l : list byte) : list byte :=
  take n l ++ replicate (n - length l)%nat x00.

(** [ftruncate(fd, total)] for [sizeof(Header) <= total]: the header bytes are
    kept and the data region becomes [total - sizeof(Header)] bytes. *)
Definition os_ftruncate (path : string) (total : Z) (fs : Shm) : Shm :=
  match fs !! path with
  | Some f =>
      <[path := set_data (resize_bytes (Z.to_nat (total - sizeof_Header))
                                       (file_data f)) f]> fs
  | None => fs
  end.

(** ** [class Queue::Impl] (msgq_modern.cc) *)

Record Impl : Type := mkImpl {
  name_ : string;
  size_ : Z;                  (* size_t *)
  reader_id_ : Z;             (* int, initially -1 *)
  is_publisher_ : bool        (* initially false *)
}.

Definition set_reader_id (r : Z) (i : Impl) : Impl :=
  {| name_ := name_ i; size_ := size_ i; reader_id_ := r;
     is_publisher_ := is_publisher_ i |}.

Definition set_is_publisher (b : bool) (i : Impl) : Impl :=
  {| name_ := name_ i; size_ := size_ i; reader_id_ := reader_id_ i;
     is_publisher_ := b |}.

Module Impl.

(** [std::string shm_path = "/dev/shm/" + std::string(name_)], as the C
    string [shm_path.c_str()] that [open] receives. *)
Definition shm_path (name : string) : string :=
  CString.c_str ("/dev/shm/" +:+ name).

(** [void init_shared_memory()].  The state is the file system.  The three
    guards ([fd_], [mmap_]) and the two pointers it sets up denote the file
    at [shm_path]; the methods below run on that file's contents.

    [ftruncate] takes a signed [off_t]: a [total_size] of [2^63] or more is
    negative and refused.  When [sizeof(Header) + size_] wraps around
    [2^64], [total_size] is below [sizeof(Header)]: the code still calls
    [ftruncate] and [mmap] with it, so that [mmap] is refused for a length
    of 0 and the constructor throws, or the file and the mapping end inside
    the header and the constructor returns an object whose header and data
    pointers lead outside the file.  A file of this model always holds a
    whole header, so the model gives no meaning to that case
    ([undefined]). *)
Definition init_shared_memory (env : os_env) (name : string) (size : Z)
  : M Shm unit :=
  let shm_path := shm_path name in
  throw_if (open_fails env) FailedToOpen ;;;
  modify (os_open_creat shm_path) ;;;
  let total_size := u64 (sizeof_Header + size) in
  throw_if (ftruncate_fails env || (2 ^ 63 <=? total_size)) FailedToTruncate ;;;
  (if total_size <? sizeof_Header then undefined else ret tt) ;;;
  modify (os_ftruncate shm_path total_size) ;;;
  throw_if (mmap_fails env) FailedToMmap ;;;
  ret tt.

(** [Impl(std::string_view name, size_t size)] *)
Definition new (env : os_env) (name : string) (size : Z) : M Shm Impl :=
  let size_ := align_to_8 size in
  init_shared_memory env name size_ ;;;
  ret {| name_ := name; size_ := size_; reader_id_ := -1;
         is_publisher_ := false |}.

(** [memcpy] into the mapped data region of this handle: the mapping covers
    [size_] data bytes, of which those past the end of the file cannot be
    touched. *)
Definition memcpy_data (i : Impl) (dst : Z) (src : list byte) (from n : Z)
  : M ShmFile unit :=
  f <- get ;;
  (if dst + n <=? size_ i then ret tt else undefined) ;;;
  d <- defined (memcpy (file_data f) dst src from n) ;;
  put (set_data d f).

(** [void send_message(gsl::span<const char> data)] *)
Definition send_message (i : Impl) (data : list byte) : M ShmFile unit :=
  let data_size := Z.of_nat (length data) in
  throw_if (negb (is_publisher_ i)) NotPublisher ;;;
  throw_if (size_ i <? data_size) MessageTooLarge ;;;
  write_ptr <- gets (fun f => PackedPointer.of_raw (write_index (file_header f))) ;;
  let offset := PackedPointer.offset write_ptr in
  (if size_ i <? u64 (offset + data_size)
   then
     (* wrap around *)
     memcpy_data i offset data 0 (u64 (size_ i - offset)) ;;;
     memcpy_data i 0 data (u64 (size_ i - offset))
                 (u64 (data_size - u64 (size_ i - offset)))
   else
     memcpy_data i offset data 0 data_size) ;;;
  (* [% size_]: the remainder by zero is undefined *)
  (if size_ i =? 0 then undefined else ret tt) ;;;
  let new_ptr :=
    PackedPointer.make (PackedPointer.cycle write_ptr + 1)
                       (u64 (offset + data_size) mod size_ i) in
  modify (fun f =>
    set_header (set_write_index (PackedPointer.raw new_ptr) (file_header f)) f).

(** [Message receive_message(int timeout_ms, bool conflate)] *)
Definition receive_message (i : Impl) (timeout_ms : Z) (conflate : bool)
  : M ShmFile Message :=
  throw_if (reader_id_ i <? 0) NotSubscriber ;;;
  f <- get ;;
  r <- defined (load_read_index (reader_id_ i) (file_header f)) ;;
  let read_ptr := PackedPointer.of_raw r in
  let write_ptr := PackedPointer.of_raw (write_index (file_header f)) in
  if PackedPointer.eqb read_ptr write_ptr
  then ret Message_default      (* no new data *)
  else
    let result := Message_default in
    h <- defined (store_read_index (reader_id_ i) (PackedPointer.raw write_ptr)
                                   (file_header f)) ;;
    put (set_header h f) ;;;
    ret result.

End Impl.

(** ** [class Queue] (msgq_modern.cc) *)

(** A [Queue] object and the segment its [Impl] maps.  [impl_] is the
    [std::unique_ptr<Impl>]: [None] for a moved-from queue. *)
Record QueueState : Type := mkQueueState {
  impl_ : option Impl;
  segment : ShmFile
}.

Definition set_impl (i : option Impl) (s : QueueState) : QueueState :=
  {| impl_ := i; segment := segment s |}.

Definition set_segment (f : ShmFile) (s : QueueState) : QueueState :=
  {| impl_ := impl_ s; segment := f |}.

Module Queue.

(** Run a method of [Impl] on the mapped segment. *)
Definition on_segment {A} (m : M ShmFile A) : M QueueState A :=
  fun s =>
    match m (segment s) with
    | Ok a f => Ok a (set_segment f s)
    | Throw e f => Throw e (set_segment f s)
    | Undefined => Undefined
    | Blocked => Blocked
    end.

(** [static Queue create(std::string_view name, size_t size)]: the state is
    the file system, the result the [impl_] of the new queue. *)
Definition create (env : os_env) (name : string) (size : Z)
  : M Shm (option Impl) :=
  impl <- Impl.new env name size ;;
  ret (Some impl).

(** [void send(gsl::span<const char> data)]; [send(const Message&)] passes
    [msg.data()] to the same method. *)
Definition send (data : list byte) : M QueueState unit :=
  s <- get ;;
  match impl_ s with
  | None => throw QueueNotInitialized
  | Some impl => on_segment (Impl.send_message impl data)
  end.

(** [Message recv(int timeout_ms, bool conflate)] *)
Definition recv (timeout_ms : Z) (conflate : bool) : M QueueState Message :=
  s <- get ;;
  match impl_ s with
  | None => throw QueueNotInitialized
  | Some impl => on_segment (Impl.receive_message impl timeout_ms conflate)
  end.

(** The subscript of [read_index] in [msg_ready]: [impl_->reader_id_]. *)
Definition msg_ready_subscript (impl : Impl) : Z := reader_id_ impl.

(** [bool msg_ready() const] *)
Definition msg_ready : M QueueState bool :=
  s <- get ;;
  match impl_ s with
  | None => ret false
  | Some impl =>
      let h := file_header (segment s) in
      read_ptr <- defined (load_read_index (msg_ready_subscript impl) h) ;;
      let write_ptr := write_index h in
      ret (PackedPointer.neqb (PackedPointer.of_raw read_ptr)
                              (PackedPointer.of_raw write_ptr))
  end.

(** [void init_publisher()] *)
Definition init_publisher : M QueueState unit :=
  s <- get ;;
  match impl_ s with
  | None => throw QueueNotInitialized
  | Some impl => put (set_impl (Some (set_is_publisher true impl)) s)
  end.

(** [void init_subscriber(bool conflate)].  The local [reader_uid], computed
    from [getpid()], is never used and is left out.
    [reader_id_ = num_readers++] converts the old [uint32_t] count to [int];
    the comparison with [NUM_READERS] (a [size_t]) converts it back to
    unsigned. *)
Definition init_subscriber (conflate : bool) : M QueueState unit :=
  s <- get ;;
  match impl_ s with
  | None => throw QueueNotInitialized
  | Some impl =>
      let h := file_header (segment s) in
      let impl' := set_reader_id (to_int (num_readers h)) impl in
      let h' := set_num_readers (u32 (num_readers h + 1)) h in
      put {| impl_ := Some impl'; segment := set_header h' (segment s) |} ;;;
      throw_if (NUM_READERS <=? int_to_size_t (reader_id_ impl')) MaxSubscribers
  end.

(** The loop of [all_readers_updated] from index [i], with [n] iterations
    left. *)
Fixpoint all_readers_updated_from (h : Header) (write_ptr : Z) (n : nat) (i : Z)
  : option bool :=
  match n with
  | O => Some true
  | S n' =>
      match load_read_index i h with
      | None => None
      | Some read_ptr =>
          if negb (read_ptr =? write_ptr) then Some false
          else all_readers_updated_from h write_ptr n' (i + 1)
      end
  end.

(** [bool all_readers_updated() const] *)
Definition all_readers_updated : M QueueState bool :=
  s <- get ;;
  match impl_ s with
  | None => ret false
  | Some _ =>
      let h := file_header (segment s) in
      let write_ptr := write_index h in
      defined (all_readers_updated_from h write_ptr
                 (Z.to_nat (num_readers h)) 0)
  end.

(** [size_t num_readers() const] *)
Definition num_readers : M QueueState Z :=
  s <- get ;;
  match impl_ s with
  | None => ret 0
  | Some _ => ret (num_readers (file_header (segment s)))
  end.

(** [std::string_view name() const] *)
Definition name : M QueueState string :=
  s <- get ;;
  match impl_ s with
  | None => ret ""%string
  | Some impl => ret (name_ impl)
  end.

End Queue.

(** ** Event descriptors and [ppoll] *)

(** The eventfd objects of the system: the 64-bit counter of each open
    descriptor.  They are the ones [SocketEventHandle] creates, with
    [EFD_NONBLOCK]. *)
Abbreviation Fds := (gmap Z Z).

(** What the other processes do while a call of this process is blocked in
    [ppoll]: nothing at all, deliver one of the signals left unmasked
    (ALRM, INT, TERM, QUIT), or change the descriptors to [fds]. *)
Inductive wait_env : Type :=
| Quiet
| Signal
| Others (fds : Fds).

Module Poll.

Record pollfd : Type := mkPollfd { fd : Z; events : Z; revents : Z }.

Definition POLLIN : Z := 1.
Definition POLLNVAL : Z := 32.

(** The largest value an eventfd counter holds. *)
Definition EVENTFD_MAX : Z := 2 ^ 64 - 2.

(** [write(fd, &val, 8)] with [val = 1]; [None] is the return value -1. *)
Definition write_one (d : Z) (w : Fds) : option Fds :=
  match w !! d with
  | Some c => if c + 1 <=? EVENTFD_MAX then Some (<[d := c + 1]> w) else None
  | None => None
  end.

(** [read(fd, &val, 8)]: the counter is returned and reset; a zero counter
    gives -1 (EAGAIN), as does a descriptor that is not open. *)
Definition read_counter (d : Z) (w : Fds) : option (Z * Fds) :=
  match w !! d with
  | Some c => if 0 <? c then Some (c, <[d := 0]> w) else None
  | None => None
  end.

(** The [revents] the kernel reports for one entry: negative descriptors
    are ignored, a descriptor that is not open gives POLLNVAL, an eventfd
    is readable when its counter is positive. *)
Definition revents_of (w : Fds) (p : pollfd) : Z :=
  if fd p <? 0 then 0
  else match w !! fd p with
       | Some c => if 0 <? c then Z.land (events p) POLLIN else 0
       | None => POLLNVAL
       end.

Definition scan (w : Fds) (ps : list pollfd) : list pollfd :=
  map (fun p => {| fd := fd p; events := events p; revents := revents_of w p |}) ps.

Definition count_ready (ps : list pollfd) : Z :=
  Z.of_nat (length (filter (fun p => revents p ≠ 0) ps)).

(** [ppoll(fds, nfds, timeout, sigmask)]: the return value and the array
    with [revents] filled in.  [timeout = None] is the null pointer (no
    deadline), [Some t] a deadline of [t] seconds. *)
Definition ppoll (ps : list pollfd) (timeout : option Z) (env : wait_env)
  : M Fds (Z * list pollfd) :=
  w <- get ;;
  let now := scan w ps in
  if 0 <? count_ready now then ret (count_ready now, now)
  else if bool_decide (timeout = Some 0) then ret (0, now)
  else
    match env with
    | Quiet =>
        match timeout with
        | None => blocked
        | Some _ => ret (0, now)
        end
    | Signal => ret (-1, ps)
    | Others w' =>
        put w' ;;;
        let later := scan w' ps in
        if 0 <? count_ready later then ret (count_ready later, later)
        else match timeout with
             | None => blocked
             | Some _ => ret (0, later)
             end
    end.

End Poll.

(** ** [class Event] (event_modern.h) *)

Module Event.

(** The class wraps one [int event_fd_], -1 by default. *)
Abbreviation t := Z.

Definition default : t := -1.

Definition validate (e : t) : M Fds unit :=
  throw_if (e <? 0) InvalidEventFd.

(** [void set() const] *)
Definition set (e : t) : M Fds unit :=
  validate e ;;;
  w <- get ;;
  match Poll.write_one e w with
  | Some w' => put w'
  | None => throw FailedToSetEvent
  end.

(** [int clear() const] *)
Definition clear (e : t) : M Fds Z :=
  validate e ;;;
  w <- get ;;
  match Poll.read_counter e w with
  | Some (val, w') => put w' ;;; ret (to_int val)
  | None => throw FailedToClearEvent
  end.

(** [void wait(int timeout_sec = -1) const] *)
Definition wait (e : t) (timeout_sec : Z) (env : wait_env) : M Fds unit :=
  validate e ;;;
  let fds := [ {| Poll.fd := e; Poll.events := Poll.POLLIN; Poll.revents := 0 |} ] in
  r <- Poll.ppoll fds (if timeout_sec <? 0 then None else Some timeout_sec) env ;;
  let event_count := fst r in
  if event_count =? 0 then throw EventTimedOut
  else if event_count <? 0 then throw EventPollFailed
  else ret tt.

(** [bool peek() const noexcept]: [poll] with a zero timeout. *)
Definition peek (e : t) : M Fds bool :=
  if e <? 0 then ret false
  else
    let fds := [ {| Poll.fd := e; Poll.events := Poll.POLLIN; Poll.revents := 0 |} ] in
    r <- Poll.ppoll fds (Some 0) Quiet ;;
    ret (negb (fst r =? 0)).

Definition is_valid (e : t) : bool := 0 <=? e.

Definition fd (e : t) : Z := e.

(** The last loop of [wait_for_one]: the first [i], counted from [i0], with
    [fds[i].revents & POLLIN]. *)
Fixpoint first_pollin (fds : list Poll.pollfd) (i0 : Z) : option Z :=
  match fds with
  | [] => None
  | p :: fds' =>
      if negb (Z.land (Poll.revents p) Poll.POLLIN =? 0) then Some i0
      else first_pollin fds' (i0 + 1)
  end.

(** [static int wait_for_one(const std::vector<Event>& events,
                             int timeout_sec = -1)] *)
Definition wait_for_one (events : list t) (timeout_sec : Z) (env : wait_env)
  : M Fds Z :=
  throw_if (bool_decide (events = [])) NoEventsToWaitFor ;;;
  let fds :=
    map (fun event => {| Poll.fd := fd event; Poll.events := Poll.POLLIN;
                         Poll.revents := 0 |})
        (filter (fun event => is_valid event = true) events) in
  throw_if (bool_decide (fds = [])) AllEventsInvalid ;;;
  r <- Poll.ppoll fds (if timeout_sec <? 0 then None else Some timeout_sec) env ;;
  let event_count := fst r in
  let fds := snd r in
  if event_count =? 0 then throw EventPollTimedOut
  else if event_count <? 0 then throw EventPollFailed
  else
    match first_pollin fds 0 with
    | Some i => ret (to_int i)
    | None => throw NoEventsReady
    end.

End Event.

(** [enum class EventPurpose] *)
Inductive EventPurpose : Type := RECV_CALLED | RECV_READY.

(** [struct EventState]: [fds[RECV_CALLED]], [fds[RECV_READY]], [enabled]. *)
Record EventState : Type := mkEventState {
  fds_called : Z;
  fds_ready : Z;
  enabled : bool
}.

Definition EventState_default : EventState :=
  {| fds_called := -1; fds_ready := -1; enabled := false |}.

Definition EventState_fds (st : EventState) (p : EventPurpose) : Z :=
  match p with
  | RECV_CALLED => fds_called st
  | RECV_READY => fds_ready st
  end.

(** An event is signaled when its descriptor is open with a positive
    counter. *)
Definition signaled (w : Fds) (e : Z) : bool :=
  match w !! e with
  | Some c => 0 <? c
  | None => false
  end.

(** ** [class FakeSubSocket<TSubSocket>] (impl_fake_modern.h, .cc) *)

(** impl_fake_modern.h takes [Event] and [EventState] from msgq/event.h,
    which is not among these sources.  The events of the fake socket are
    taken to be those of event_modern.h above, the one [Event] class of the
    sources: its [set], [wait] and [clear] are the operations that the
    specification gives to an event pair (a counter that [set] increments,
    [clear] reads and resets, failing when nothing is set, and [wait] blocks
    on until the descriptor is readable). *)

(** The calls a method body makes, in program order.  Each call runs to
    completion before the next one starts; a call that throws ends the
    method. *)
Inductive call : Type :=
| CallSet (e : Event.t)                 (* e->set() *)
| CallWait (e : Event.t)                (* e->wait(), no deadline *)
| CallClear (e : Event.t)               (* e->clear() *)
| CallBaseReceive (non_blocking : bool). (* TSubSocket::receive(non_blocking) *)

Section FakeSubSocket.

(** The base class [TSubSocket]: its state and the two virtual methods that
    the fake socket forwards to. *)
Context {U : Type}.
Variable TSubSocket_connect : string -> string -> bool -> bool -> M U Z.
Variable TSubSocket_receive : bool -> M U (option Message).

Record FakeSubSocket : Type := mkFakeSubSocket {
  recv_called : option Event.t;   (* std::shared_ptr<Event> *)
  recv_ready : option Event.t;    (* std::shared_ptr<Event> *)
  state_guard : bool;             (* std::shared_ptr<EventStateGuard>: set or null *)
  state : option EventState;      (* std::shared_ptr<EventState> *)
  base : U                        (* the TSubSocket subobject *)
}.

(** [FakeSubSocket() : TSubSocket() {}] *)
Definition FakeSubSocket_new (u : U) : FakeSubSocket :=
  {| recv_called := None; recv_ready := None; state_guard := false;
     state := None; base := u |}.

Definition on_base {A} (m : M U A) : M FakeSubSocket A :=
  fun s =>
    match m (base s) with
    | Ok a u => Ok a {| recv_called := recv_called s; recv_ready := recv_ready s;
                        state_guard := state_guard s; state := state s; base := u |}
    | Throw e u => Throw e {| recv_called := recv_called s; recv_ready := recv_ready s;
                              state_guard := state_guard s; state := state s; base := u |}
    | Undefined => Undefined
    | Blocked => Blocked
    end.

(** [int connect(Context*, endpoint, address, conflate, check_endpoint)].
    [context] tells whether the pointer is non-null.  [mem] is what
    [event_state_shm_mmap] stores through its out-parameter: the mapped
    [EventState], or nothing.  The socket keeps a copy of the mapped
    structure in [state], not a reference to it. *)
Definition connect (context : bool) (endpoint address : string)
           (conflate check_endpoint : bool) (mem : option EventState)
  : M FakeSubSocket Z :=
  throw_if (negb context) ContextNull ;;;
  throw_if (bool_decide (endpoint = ""%string)) EndpointEmpty ;;;
  match mem with
  | None => throw FailedToMmapEventState
  | Some event_state =>
      let guard := true in
      let recv_called := Some (EventState_fds event_state RECV_CALLED) in
      let recv_ready := Some (EventState_fds event_state RECV_READY) in
      r <- on_base (TSubSocket_connect endpoint address conflate check_endpoint) ;;
      throw_if (negb (r =? 0)) FailedToConnect ;;;
      modify (fun this =>
        {| state_guard := guard; recv_called := recv_called;
           recv_ready := recv_ready; state := Some event_state;
           base := base this |}) ;;;
      ret 0
  end.

(** [Message* receive(bool non_blocking)]: the calls of the body. *)
Definition receive (this : FakeSubSocket) (non_blocking : bool) : list call :=
  (match state this with
   | Some st =>
       if enabled st then
         (match recv_called this with
          | Some e => [CallSet e]
          | None => []
          end)
         ++
         (match recv_ready this with
          | Some e => [CallWait e; CallClear e]
          | None => []
          end)
       else []
   | None => []
   end)
  ++ [CallBaseReceive non_blocking].

(** *** Running calls *)

Definition on_fds {A} (m : M Fds A) : M (Fds * U) A :=
  fun s =>
    match m (fst s) with
    | Ok a w => Ok a (w, snd s)
    | Throw e w => Throw e (w, snd s)
    | Undefined => Undefined
    | Blocked => Blocked
    end.

Definition on_socket {A} (m : M U A) : M (Fds * U) A :=
  fun s =>
    match m (snd s) with
    | Ok a u => Ok a (fst s, u)
    | Throw e u => Throw e (fst s, u)
    | Undefined => Undefined
    | Blocked => Blocked
    end.

(** One call, on the event descriptors and the base socket.  The value is
    the message of a base receive, and nothing for the event calls. *)
Definition exec_call (c : call) (env : wait_env) : M (Fds * U) (option Message) :=
  match c with
  | CallSet e => on_fds (Event.set e) ;;; ret None
  | CallWait e => on_fds (Event.wait e (-1) env) ;;; ret None
  | CallClear e => on_fds (Event.clear e) ;;; ret None
  | CallBaseReceive nb => on_socket (TSubSocket_receive nb)
  end.

(** A method body run alone; [env] says what the rest of the system does
    while a wait blocks.  The method returns the value of its last call. *)
Fixpoint run_calls (cs : list call) (env : wait_env) (last : option Message)
  : M (Fds * U) (option Message) :=
  match cs with
  | [] => ret last
  | c :: cs' => m <- exec_call c env ;; run_calls cs' env m
  end.

(** *** The subscriber together with the driver *)

(** Modelled from the spec: the driver process of the fake gate, which is
    not part of these sources.  "The driver process calls
    [recv_called.wait()] then [recv_ready.set()] to release the
    subscriber"; one such pair is a driver cycle. *)
Definition driver_cycle (st : EventState) : list call :=
  [CallWait (EventState_fds st RECV_CALLED); CallSet (EventState_fds st RECV_READY)].

(** The subscriber process, calling [receive] again and again, and the
    driver process, interleaved call by call on the shared eventfd objects.
    [returned] counts the receive calls that have returned, [cycles] the
    driver cycles that are complete. *)
Record System : Type := mkSystem {
  sys_fds : Fds;
  sys_base : U;
  sub_calls : list call;      (* what is left of the receive in progress *)
  drv_calls : list call;      (* what is left of the driver cycle in progress *)
  returned : nat;
  cycles : nat
}.

(** Inside the system the other process is a process of its own: while a
    wait blocks, the waiting process sees at most a signal. *)
Definition local_env (env : wait_env) : Prop :=
  match env with
  | Others _ => False
  | _ => True
  end.

Definition completes (k : list call) : nat :=
  match k with
  | [] => 1%nat
  | _ => 0%nat
  end.

Inductive step (this : FakeSubSocket) (es : EventState) : System -> System -> Prop :=
| sub_begin st non_blocking :
    sub_calls st = [] ->
    step this es st
         {| sys_fds := sys_fds st; sys_base := sys_base st;
            sub_calls := receive this non_blocking; drv_calls := drv_calls st;
            returned := returned st; cycles := cycles st |}
| sub_call_ok st c k env m w u :
    sub_calls st = c :: k ->
    local_env env ->
    exec_call c env (sys_fds st, sys_base st) = Ok m (w, u) ->
    step this es st
         {| sys_fds := w; sys_base := u;
            sub_calls := k; drv_calls := drv_calls st;
            returned := (returned st + completes k)%nat; cycles := cycles st |}
| sub_call_throw st c k env e w u :
    sub_calls st = c :: k ->
    local_env env ->
    exec_call c env (sys_fds st, sys_base st) = Throw e (w, u) ->
    step this es st
         {| sys_fds := w; sys_base := u;
            sub_calls := []; drv_calls := drv_calls st;
            returned := returned st; cycles := cycles st |}
| drv_begin st :
    drv_calls st = [] ->
    step this es st
         {| sys_fds := sys_fds st; sys_base := sys_base st;
            sub_calls := sub_calls st; drv_calls := driver_cycle es;
            returned := returned st; cycles := cycles st |}
| drv_call_ok st c k env m w u :
    drv_calls st = c :: k ->
    local_env env ->
    exec_call c env (sys_fds st, sys_base st) = Ok m (w, u) ->
    step this es st
         {| sys_fds := w; sys_base := u;
            sub_calls := sub_calls st; drv_calls := k;
            returned := returned st; cycles := (cycles st + completes k)%nat |}
| drv_call_throw st c k env e w u :
    drv_calls st = c :: k ->
    local_env env ->
    exec_call c env (sys_fds st, sys_base st) = Throw e (w, u) ->
    step this es st
         {| sys_fds := w; sys_base := u;
            sub_calls := sub_calls st; drv_calls := [];
            returned := returned st; cycles := cycles st |}.

(** Both processes idle, nothing counted yet. *)
Definition idle (w : Fds) (u : U) : System :=
  {| sys_fds := w; sys_base := u; sub_calls := []; drv_calls := [];
     returned := 0; cycles := 0 |}.

(** The receive in progress has passed the gate when the base receive is
    all that is left of it. *)
Definition gate_passed (k : list call) : nat :=
  match k with
  | [CallBaseReceive _] => 1%nat
  | _ => 0%nat
  end.

(** The receive in progress is past its wait when the clear and the base
    receive, or the base receive alone, are what is left of it. *)
Definition wait_passed (k : list call) : nat :=
  match k with
  | [CallClear _; CallBaseReceive _] => 1%nat
  | [CallBaseReceive _] => 1%nat
  | _ => 0%nat
  end.

(** Whether a set of [rr] is waiting to be consumed by a clear. *)
Definition ready_pending (w : Fds) (rr : Z) : nat :=
  if signaled w rr then 1%nat else 0%nat.

(** The invariant of the gate: both processes are somewhere inside their
    bodies, and every receive that has returned or has passed the gate, and
    a pending set of [recv_ready], is paid for by a complete driver cycle of
    its own. *)
Definition gate_inv (this : FakeSubSocket) (es : EventState) (st : System) : Prop :=
  (exists non_blocking, sub_calls st `suffix_of` receive this non_blocking) /\
  drv_calls st `suffix_of` driver_cycle es /\
  (returned st + gate_passed (sub_calls st)
   + ready_pending (sys_fds st) (fds_ready es) <= cycles st)%nat.

End FakeSubSocket.

(** ** Programs that use queues (src/msgq_examples.cc) *)

Module Examples.

(** The segment a queue maps: the file at the path of its name. *)
Definition mapped (q : option Impl) (fs : Shm) : option ShmFile :=
  match q with
  | Some impl => fs !! Impl.shm_path (name_ impl)
  | None => Some empty_file
  end.

Definition write_back (q : option Impl) (f : ShmFile) (fs : Shm) : Shm :=
  match q with
  | Some impl => <[Impl.shm_path (name_ impl) := f]> fs
  | None => fs
  end.

(** A method call [q.m(...)] in a program whose state is the file system;
    the value comes with the queue object as the call leaves it. *)
Definition on_queue {A} (q : option Impl) (m : M QueueState A)
  : M Shm (A * option Impl) :=
  fun fs =>
    match mapped q fs with
    | None => Undefined
    | Some f =>
        match m {| impl_ := q; segment := f |} with
        | Ok a s => Ok (a, impl_ s) (write_back q (segment s) fs)
        | Throw e s => Throw e (write_back q (segment s) fs)
        | Undefined => Undefined
        | Blocked => Blocked
        end
    end.

(** [example_basic], with the queue name, the segment size and the message
    as parameters: a publisher and a subscriber on one queue, one send and
    one recv.  The value is what [recv] returned. *)
Definition example_basic (name : string) (size : Z) (msg_data : list byte)
  : M Shm Message :=
  pub_queue <- Queue.create os_ok name size ;;
  p <- on_queue pub_queue Queue.init_publisher ;;
  let pub_queue := snd p in
  sub_queue <- Queue.create os_ok name size ;;
  s <- on_queue sub_queue (Queue.init_subscriber false) ;;
  let sub_queue := snd s in
  p <- on_queue pub_queue (Queue.send msg_data) ;;
  r <- on_queue sub_queue (Queue.recv 1000 false) ;;
  let received := fst r in
  ret received.

(** A publisher that sends one message and returns the queue object. *)
Definition publish_one (name : string) (size : Z) (msg_data : list byte)
  : M Shm (option Impl) :=
  pub_queue <- Queue.create os_ok name size ;;
  p <- on_queue pub_queue Queue.init_publisher ;;
  p <- on_queue (snd p) (Queue.send msg_data) ;;
  ret (snd p).

(** A subscriber that joins the queue and returns the queue object. *)
Definition subscribe (name : string) (size : Z) : M Shm (option Impl) :=
  sub_queue <- Queue.create os_ok name size ;;
  s <- on_queue sub_queue (Queue.init_subscriber false) ;;
  ret (snd s).

(** A subscriber that joins after a publisher has sent one message. *)
Definition late_join (name : string) (size : Z) (msg_data : list byte)
  : M Shm (option Impl) :=
  publish_one name size msg_data ;;;
  subscribe name size.

(** The file of a segment of [n] data bytes that has just been created. *)
Definition fresh_segment (n : nat) : ShmFile :=
  {| file_header := zero_Header; file_data := replicate n x00 |}.

(** The [Impl] of a queue that has just been created. *)
Definition fresh_impl (name : string) (size : Z) : Impl :=
  {| name_ := name; size_ := size; reader_id_ := -1; is_publisher_ := false |}.

(** The file of a segment of 64 bytes after [n] subscribers have joined and
    the publisher has sent the message "A" from the cursor (0, 0). *)
Definition segment_after_A (n : Z) : ShmFile :=
  {| file_header :=
       set_write_index (PackedPointer.make 1 1) (set_num_readers n zero_Header);
     file_data := "A"%byte :: replicate 63 x00 |}.

(** [n] subscribers join one after the other. *)
Fixpoint subscribe_many (n : nat) (name : string) (size : Z) : M Shm unit :=
  match n with
  | O => ret tt
  | S n' => subscribe name size ;;; subscribe_many n' name size
  end.

End Examples.

(** ** One subscriber and one driver at the gate *)

Module GateExample.

(** A base socket without state that never has a message. *)
Definition base_connect (endpoint address : string) (conflate check : bool)
  : M unit Z := ret 0.
Definition base_receive (non_blocking : bool) : M unit (option Message) :=
  ret None.

Definition es : EventState := {| fds_called := 3; fds_ready := 4; enabled := true |}.

Definition this : @FakeSubSocket unit :=
  {| recv_called := Some 3; recv_ready := Some 4; state_guard := true;
     state := Some es; base := tt |}.

(** The two eventfd objects: both counters zero, then [recv_called] set,
    then [recv_ready] set as well. *)
Definition w0 : Fds := {[ 3 := 0; 4 := 0 ]}.
Definition w1 : Fds := {[ 3 := 1; 4 := 0 ]}.
Definition w2 : Fds := {[ 3 := 1; 4 := 1 ]}.

Definition sys (w : Fds) (sub drv : list call) (r c : nat) : @System unit :=
  {| sys_fds := w; sys_base := tt; sub_calls := sub; drv_calls := drv;
     returned := r; cycles := c |}.

(** [recv_ready] left signaled by an earlier run. *)
Definition w_ready : Fds := {[ 3 := 0; 4 := 1 ]}.

(** An event state that names one descriptor twice, and the socket that
    [connect] makes of it. *)
Definition es_same : EventState :=
  {| fds_called := 5; fds_ready := 5; enabled := true |}.

Definition this_same : @FakeSubSocket unit :=
  {| recv_called := Some 5; recv_ready := Some 5; state_guard := true;
     state := Some es_same; base := tt |}.

End GateExample.

(** ** What the specification says, for comparison with the code *)

Module Spec.

Definition frame_header_size : Z := 8.

(** "[PackedCursor] advances by exactly ([frame_header_size + payload_size],
    rounded up to 8 bytes), wrapping offset at [segment_size] and
    incrementing cycle on wrap": the cursor after a send of [n] bytes. *)
Definition cursor_after_send (p : PackedPointer.t) (n seg_size : Z)
  : PackedPointer.t :=
  let need := align_to_8 (frame_header_size + n) in
  let o := PackedPointer.offset p + need in
  if o <? seg_size
  then PackedPointer.make (PackedPointer.cycle p) o
  else PackedPointer.make (PackedPointer.cycle p + 1) (o - seg_size).

(** "Preconditions: [bytes.len <= segment_size - frame_header_size]": the
    payloads the send refuses. *)
Definition too_large (n seg_size : Z) : bool :=
  seg_size - frame_header_size <? n.

(** "true iff every occupied reader slot's cursor equals [write_cursor]",
    where a slot is occupied when it has been handed out and its owner is
    alive ("treats a slot with a dead owner as updated"). *)
Definition all_readers_updated (owner_alive : Z -> bool) (h : Header) : Prop :=
  forall i, 0 <= i < num_readers h -> owner_alive i = true ->
            load_read_index i h = Some (write_index h).

(** "[wait_for_any] returns the lowest index of simultaneously-signaled
    events": the first position in the caller's list, counted from [i0],
    of an event that is signaled. *)
Fixpoint lowest_signaled (w : Fds) (events : list Event.t) (i0 : Z) : option Z :=
  match events with
  | [] => None
  | e :: events' =>
      if Event.is_valid e && signaled w e then Some i0
      else lowest_signaled w events' (i0 + 1)
  end.

End Spec.

(** ** A publisher at work *)

Module Publisher.

(** The publisher loop of [example_multithreaded]: one [send] for each
    message, in order; a send that throws ends the loop. *)
Fixpoint send_all (i : Impl) (msgs : list (list byte)) : M ShmFile unit :=
  match msgs with
  | [] => ret tt
  | m :: msgs' => Impl.send_message i m ;;; send_all i msgs'
  end.

(** [n] bytes read from the data region starting at [offset], going on at
    offset 0 when the end of the region is reached. *)
Definition read_ring (d : list byte) (offset n : nat) : list byte :=
  take n (drop offset d ++ d).

End Publisher.

(** ** The process and the choice of the backend (ipc_modern.h,
    ipc_modern.cc) *)

(** The environment of the process: the variables that are set, with their
    values. *)
Abbreviation Environ := (gmap string string).

(** What the configuration functions read and change: the environment, the
    lines written to [std::cerr], and the two thread-local statics of
    [SocketEventHandle]. *)
Record Process : Type := mkProcess {
  environ : Environ;
  cerr : list string;
  fake_events_enabled_ : bool;
  fake_prefix_ : string
}.

Module Ipc.

(** [enum class BackendType] *)
Inductive BackendType : Type := FAKE_ZMQ | FAKE_MSGQ | ZMQ | MSGQ.

(** [std::string::c_str()] *)
Abbreviation c_str := CString.c_str.

(** [std::getenv(name)]: a null pointer for a variable that is not set. *)
Definition getenv (name : string) (p : Process) : option string :=
  environ p !! name.

(** [::setenv(name, value, true)] *)
Definition setenv (name value : string) (p : Process) : Process :=
  {| environ := <[name := c_str value]> (environ p); cerr := cerr p;
     fake_events_enabled_ := fake_events_enabled_ p;
     fake_prefix_ := fake_prefix_ p |}.

(** [::unsetenv(name)] *)
Definition unsetenv (name : string) (p : Process) : Process :=
  {| environ := delete name (environ p); cerr := cerr p;
     fake_events_enabled_ := fake_events_enabled_ p;
     fake_prefix_ := fake_prefix_ p |}.

(** [std::cerr << line] *)
Definition write_cerr (line : string) (p : Process) : Process :=
  {| environ := environ p; cerr := cerr p ++ [line];
     fake_events_enabled_ := fake_events_enabled_ p;
     fake_prefix_ := fake_prefix_ p |}.

(** [is_platform_supports_msgq()]: false when compiled with [__APPLE__]
    defined, true otherwise. *)
Definition is_platform_supports_msgq (apple : bool) : bool :=
  if apple then false else true.

(** [bool messaging_use_zmq() noexcept] *)
Definition messaging_use_zmq (apple : bool) (p : Process) : bool * Process :=
  if bool_decide (is_Some (getenv "ZMQ" p)) then
    if bool_decide (is_Some (getenv "OPENPILOT_PREFIX" p)) then
      (true, write_cerr "WARNING: OPENPILOT_PREFIX not supported with ZMQ backend" p)
    else (true, p)
  else if negb (is_platform_supports_msgq apple) then
    if bool_decide (is_Some (getenv "OPENPILOT_PREFIX" p)) then
      (true, write_cerr "ERROR: OPENPILOT_PREFIX requires Linux with MSGQ support" p)
    else (true, p)
  else (false, p).

(** [bool messaging_use_fake() noexcept] *)
Definition messaging_use_fake (p : Process) : bool :=
  bool_decide (is_Some (getenv "CEREAL_FAKE" p)).

(** [BackendType determine_backend_type() noexcept] *)
Definition determine_backend_type (apple : bool) (p : Process)
  : BackendType * Process :=
  let use_fake := messaging_use_fake p in
  let r := messaging_use_zmq apple p in
  let use_zmq := fst r in
  (if use_fake then (if use_zmq then FAKE_ZMQ else FAKE_MSGQ)
   else (if use_zmq then ZMQ else MSGQ),
   snd r).

End Ipc.

(** ** Exceptions that carry their text *)

(** The factories of ipc_modern.cc build the text of what they throw from
    the text of what they caught, so the exceptions of ipc_modern.cc,
    impl_msgq_modern.cc and of [FakePoller] are values with their [what()].
    [other_exception] is any other class derived from [std::exception]. *)
Inductive exception : Type :=
| invalid_argument (what : string)
| runtime_error (what : string)
| other_exception (what : string).

Definition what (e : exception) : string :=
  match e with
  | invalid_argument w => w
  | runtime_error w => w
  | other_exception w => w
  end.

(** What a throw expression throws: an object of a class derived from
    [std::exception], or an object of any other type (an [int], a string, a
    class of a backend's own), here told apart by a description.  The
    handlers of these sources are [catch (const std::exception&)]: they do
    not catch the second kind. *)
Inductive thrown : Type :=
| std_exception (e : exception)
| not_std_exception (object : string).

Coercion std_exception : exception >-> thrown.

(** A call returns, or throws, or has no defined behaviour (a call through
    a null pointer, a read past the end of a buffer). *)
Inductive outcome (S A : Type) : Type :=
| Returns (a : A) (s : S)
| Raises (e : thrown) (s : S)
| Undef.

Arguments Returns {S A} a s.
Arguments Raises {S A} e s.
Arguments Undef {S A}.

Module Exn.

Definition X (S A : Type) : Type := S -> outcome S A.

Definition ret {S A} (a : A) : X S A := fun s => Returns a s.

Definition bind {S A B} (m : X S A) (k : A -> X S B) : X S B :=
  fun s =>
    match m s with
    | Returns a s' => k a s'
    | Raises e s' => Raises e s'
    | Undef => Undef
    end.

Definition raise {S A} (e : exception) : X S A := fun s => Raises e s.

Definition undef {S A} : X S A := fun _ => Undef.

Definition get {S} : X S S := fun s => Returns s s.

Definition modify {S} (f : S -> S) : X S unit := fun s => Returns tt (f s).

(** [try { body } catch (const std::exception& e) { handler }]: what is
    not derived from [std::exception] passes through. *)
Definition try_catch {S A} (body : X S A) (handler : exception -> X S A) : X S A :=
  fun s =>
    match body s with
    | Returns a s' => Returns a s'
    | Raises (std_exception e) s' => handler e s'
    | Raises (not_std_exception object) s' => Raises (not_std_exception object) s'
    | Undef => Undef
    end.

(** A function that throws nothing but objects derived from
    [std::exception]. *)
Definition throws_std_only {S A} (m : X S A) : Prop :=
  forall s object s', m s <> Raises (not_std_exception object) s'.

(** Two outcomes that differ at most in the exception thrown: the same
    value in the same state, or an exception in the same state, or both
    undefined. *)
Definition same_but_exception {S A} (r r' : outcome S A) : Prop :=
  match r, r' with
  | Returns a s, Returns a' s' => a = a' /\ s = s'
  | Raises _ s, Raises _ s' => s = s'
  | Undef, Undef => True
  | _, _ => False
  end.

(** A call that works on one component of a pair of states. *)
Definition on_fst {S T A} (m : X S A) : X (S * T) A :=
  fun s =>
    match m (fst s) with
    | Returns a s' => Returns a (s', snd s)
    | Raises e s' => Raises e (s', snd s)
    | Undef => Undef
    end.

Definition on_snd {S T A} (m : X T A) : X (S * T) A :=
  fun s =>
    match m (snd s) with
    | Returns a t' => Returns a (fst s, t')
    | Raises e t' => Raises e (fst s, t')
    | Undef => Undef
    end.

End Exn.

Notation "x <~ c ;; k" := (Exn.bind c (fun x => k))
  (at level 100, c at next level, right associativity) : cxx_scope.

(** ** [class SocketEventHandle] (event_modern.h) *)

Module SocketEventHandle.

(** [static void toggle_fake_events(bool enabled)] *)
Definition toggle_fake_events (enabled : bool) (p : Process) : Process :=
  let p1 := if enabled then Ipc.setenv "CEREAL_FAKE" "1" p
            else Ipc.unsetenv "CEREAL_FAKE" p in
  {| environ := environ p1; cerr := cerr p1;
     fake_events_enabled_ := enabled; fake_prefix_ := fake_prefix_ p1 |}.

(** [static void set_fake_prefix(const std::string& prefix)] *)
Definition set_fake_prefix (prefix : string) (p : Process) : Process :=
  let p1 := if bool_decide (prefix = ""%string)
            then Ipc.unsetenv "CEREAL_FAKE_PREFIX" p
            else Ipc.setenv "CEREAL_FAKE_PREFIX" prefix p in
  {| environ := environ p1; cerr := cerr p1;
     fake_events_enabled_ := fake_events_enabled_ p1; fake_prefix_ := prefix |}.

(** [static std::string fake_prefix()] *)
Definition fake_prefix (p : Process) : string :=
  match Ipc.getenv "CEREAL_FAKE_PREFIX" p with
  | Some prefix => prefix
  | None => ""%string
  end.

(** The directory that [map_event_state] creates and the path it opens
    in it: [op_prefix] is the value of OPENPILOT_PREFIX when it is set. *)
Definition event_state_dir (op_prefix : option string) (identifier : string)
  : string :=
  ("/dev/shm/"
   +:+ (match op_prefix with
        | Some op => op +:+ "/"
        | None => ""
        end)
   +:+ ("cereal_events" +:+ "/")
   +:+ (if bool_decide (identifier = ""%string) then "" else identifier +:+ "/"))%string.

Definition event_state_path (op_prefix : option string)
           (endpoint identifier : string) : string :=
  (event_state_dir op_prefix identifier +:+ endpoint)%string.

(** The files under /dev/shm that hold an [EventState], the directories
    made for them, and the event descriptors of the process.  A path names
    a mapped object; [unlink] removes the name and leaves the object to those
    who have it mapped.  Paths are what the system calls receive: C
    strings.  A directory is in [directories] when
    [std::filesystem::create_directories] has been asked for it: it exists
    then, and so does every directory above it. *)
Record World : Type := mkWorld {
  names : gmap string nat;
  directories : gset string;
  objects : list EventState;
  descriptors : Fds
}.

(** Every name leads to an object. *)
Definition World_wf (s : World) : Prop :=
  forall path mem, names s !! path = Some mem -> is_Some (objects s !! mem).

(** The bytes of a file that [ftruncate] has just extended from nothing are
    zero: both descriptors 0, the flag false.  The constructor of
    [EventState] does not run on mapped memory. *)
Definition zero_EventState : EventState :=
  {| fds_called := 0; fds_ready := 0; enabled := false |}.

(** The members: [shm_path_] and [state_], the mapped object or null.
    [mmap_] guards the same mapping and is valid exactly when [state_] is
    set. *)
Record t : Type := mk {
  shm_path_ : string;
  state_ : option nat
}.

Definition set_descriptors (f : Fds -> Fds) (s : World) : World :=
  {| names := names s; directories := directories s; objects := objects s;
     descriptors := f (descriptors s) |}.

Definition set_names (f : gmap string nat -> gmap string nat) (s : World) : World :=
  {| names := f (names s); directories := directories s; objects := objects s;
     descriptors := descriptors s |}.

(** [::close(fd)] *)
Definition close (fd : Z) : Exn.X World unit :=
  Exn.modify (set_descriptors (delete fd)).

(** [if (fd >= 0) ::close(fd);] *)
Definition close_if_valid (fd : Z) : Exn.X World unit :=
  if 0 <=? fd then close fd else Exn.ret tt.

(** [::unlink(path.c_str())] *)
Definition unlink (path : string) : Exn.X World unit :=
  Exn.modify (set_names (delete (CString.c_str path))).

(** [std::filesystem::create_directories(dir)] when it does not throw: the
    directory exists afterwards.  No call of this program removes a
    directory. *)
Definition create_directories (dir : string) : Exn.X World unit :=
  Exn.modify (fun s =>
    {| names := names s; directories := {[ CString.c_str dir ]} ∪ directories s;
       objects := objects s; descriptors := descriptors s |}).

(** A read or a write through [state_]. *)
Definition load (mem : nat) : Exn.X World EventState :=
  fun s =>
    match objects s !! mem with
    | Some es => Returns es s
    | None => Undef
    end.

Definition store (mem : nat) (es : EventState) : Exn.X World unit :=
  fun s =>
    match objects s !! mem with
    | Some _ => Returns tt {| names := names s; directories := directories s;
                              objects := <[mem := es]> (objects s);
                              descriptors := descriptors s |}
    | None => Undef
    end.

Section OperatingSystem.

(** What the operating system does, for reasons outside the program:
    [os] says which of [open], [ftruncate], [mmap] it refuses;
    [create_directories_error] is the text of the exception of
    [std::filesystem::create_directories], if it throws;
    [strerror_errno] is [strerror(errno)] after a refused call;
    [eventfd_pick] is the value of [::eventfd(0, ...)] given the descriptors
    that are open: a negative value when it fails. *)
Variable os : os_env.
Variable create_directories_error : option string.
Variable strerror_errno : string.
Variable eventfd_pick : Fds -> Z.

(** [::eventfd(0, EFD_NONBLOCK | EFD_CLOEXEC)]: a new descriptor with
    counter 0, or -1. *)
Definition eventfd : Exn.X World Z :=
  fun s =>
    let fd := eventfd_pick (descriptors s) in
    if fd <? 0 then Returns (-1) s
    else Returns fd (set_descriptors (insert fd 0) s).

(** [open(full_path.c_str(), O_RDWR | O_CREAT, 0664)] and
    [ftruncate(fd, sizeof(EventState))]: the object of an existing file, or
    a new object of zero bytes. *)
Definition open_creat (full_path : string) : Exn.X World nat :=
  fun s =>
    match names s !! CString.c_str full_path with
    | Some mem => Returns mem s
    | None =>
        Returns (length (objects s))
                {| names := <[CString.c_str full_path := length (objects s)]> (names s);
                   directories := directories s;
                   objects := objects s ++ [zero_EventState];
                   descriptors := descriptors s |}
    end.

(** [static void map_event_state(endpoint, identifier, shm_mem, shm_path)]:
    the two out-parameters are the value.  A [create_directories] that
    throws may have made some of the upper directories; the model records
    none of them. *)
Definition map_event_state (p : Process) (endpoint identifier : string)
  : Exn.X World (nat * string) :=
  let op_prefix := Ipc.getenv "OPENPILOT_PREFIX" p in
  let full_path := event_state_dir op_prefix identifier in
  match create_directories_error with
  | Some text =>
      Exn.raise (runtime_error ("Failed to create directories: " +:+ text))
  | None =>
      _ <~ create_directories full_path ;;
      let full_path := (full_path +:+ endpoint)%string in
      if open_fails os then
        Exn.raise (runtime_error
          ("Could not open shared memory file: " +:+ strerror_errno))
      else
        mem <~ open_creat full_path ;;
        if ftruncate_fails os then
          Exn.raise (runtime_error
            ("Could not truncate shared memory file: " +:+ strerror_errno))
        else if mmap_fails os then
          Exn.raise (runtime_error
            ("Could not map shared memory file: " +:+ strerror_errno))
        else Exn.ret (mem, full_path)
  end.

(** [SocketEventHandle(endpoint, identifier, override)].  When the
    constructor throws, the two [EventfdGuard]s close what they hold, the
    second before the first. *)
Definition new (p : Process) (endpoint identifier : string) (override : bool)
  : Exn.X World t :=
  r <~ map_event_state p endpoint identifier ;;
  _ <~ (if override then
          fd0 <~ eventfd ;;
          fd1 <~ eventfd ;;
          if negb (0 <=? fd0) || negb (0 <=? fd1) then
            _ <~ close_if_valid fd1 ;;
            _ <~ close_if_valid fd0 ;;
            Exn.raise (runtime_error "Failed to create eventfds")
          else
            es <~ load (fst r) ;;
            store (fst r) {| fds_called := fd0; fds_ready := fd1;
                             enabled := enabled es |}
        else Exn.ret tt) ;;
  Exn.ret {| shm_path_ := snd r; state_ := Some (fst r) |}.

End OperatingSystem.

(** [~SocketEventHandle()] *)
Definition destroy (this : t) : Exn.X World unit :=
  match state_ this with
  | None => Exn.ret tt
  | Some mem =>
      es <~ load mem ;;
      _ <~ close_if_valid (fds_called es) ;;
      _ <~ close_if_valid (fds_ready es) ;;
      if bool_decide (shm_path_ this = ""%string) then Exn.ret tt
      else unlink (shm_path_ this)
  end.

(** [bool is_enabled() const] *)
Definition is_enabled (this : t) : Exn.X World bool :=
  match state_ this with
  | None => Exn.raise (runtime_error "SocketEventHandle not initialized")
  | Some mem => es <~ load mem ;; Exn.ret (enabled es)
  end.

(** [void set_enabled(bool enabled)] *)
Definition set_enabled (this : t) (enabled : bool) : Exn.X World unit :=
  match state_ this with
  | None => Exn.raise (runtime_error "SocketEventHandle not initialized")
  | Some mem =>
      es <~ load mem ;;
      store mem {| fds_called := fds_called es; fds_ready := fds_ready es;
                   enabled := enabled |}
  end.

(** [Event recv_called() const] *)
Definition recv_called (this : t) : Exn.X World Event.t :=
  match state_ this with
  | None => Exn.raise (runtime_error "SocketEventHandle not initialized")
  | Some mem =>
      es <~ load mem ;;
      let fd := EventState_fds es RECV_CALLED in
      if fd <? 0 then Exn.raise (runtime_error "recv_called event not initialized")
      else Exn.ret fd
  end.

(** [Event recv_ready() const] *)
Definition recv_ready (this : t) : Exn.X World Event.t :=
  match state_ this with
  | None => Exn.raise (runtime_error "SocketEventHandle not initialized")
  | Some mem =>
      es <~ load mem ;;
      let fd := EventState_fds es RECV_READY in
      if fd <? 0 then Exn.raise (runtime_error "recv_ready event not initialized")
      else Exn.ret fd
  end.

End SocketEventHandle.

(** ** [class FakePoller] (impl_fake_modern.h) *)

Module FakePoller.

Section FakePoller.

(** [Ptr] is the type of the non-null [SubSocket*]; a [SubSocket*] is an
    [option Ptr].  [S] is whatever state the caller threads. *)
Context {Ptr S : Type}.

Record t : Type := mk {
  sockets : list (option Ptr)    (* std::vector<SubSocket*> *)
}.

Definition new : t := {| sockets := [] |}.

(** [void registerSocket(SubSocket* socket) override] *)
Definition registerSocket (this : t) (socket : option Ptr) : Exn.X S t :=
  match socket with
  | None => Exn.raise (invalid_argument "Socket cannot be null")
  | Some _ => Exn.ret {| sockets := sockets this ++ [socket] |}
  end.

(** [std::vector<SubSocket*> poll(int timeout) const override] *)
Definition poll (this : t) (timeout : Z) : Exn.X S (list (option Ptr)) :=
  Exn.ret (sockets this).

End FakePoller.

Arguments t : clear implicits.

End FakePoller.

(** ** The MSGQ backend (impl_msgq_modern.h, impl_msgq_modern.cc) *)

Module MSGQ.

Definition MAX_POLLERS : Z := 128.

(** [msgq_msg_t]: a size and a buffer.  A [char*] is nothing (null) or the
    bytes of the array it points to. *)
Record msgq_msg_t : Type := mk_msg {
  msg_size : Z;
  msg_data : option (list byte)
}.

(** [msgq_msg_t msg = {}] *)
Definition msg_zero : msgq_msg_t := {| msg_size := 0; msg_data := None |}.

(** [class MSGQMessage]: one [std::vector<char> data]. *)
Record MSGQMessage : Type := mk_message {
  data : list byte
}.

Definition MSGQMessage_new : MSGQMessage := {| data := [] |}.

Definition getSize (this : MSGQMessage) : Z := Z.of_nat (length (data this)).

Definition getData (this : MSGQMessage) : list byte := data this.

(** [void MSGQMessage::init(char* src_data, size_t size)].  Copying [size]
    bytes out of a shorter array is undefined.  Allocation is taken to
    succeed. *)
Definition init {S} (this : MSGQMessage) (src_data : option (list byte)) (size : Z)
  : Exn.X S MSGQMessage :=
  if (0 <? size) && negb (bool_decide (is_Some src_data)) then
    Exn.raise (invalid_argument "Source data cannot be null when size > 0")
  else if 0 <? size then
    match src_data with
    | Some src =>
        if size <=? Z.of_nat (length src)
        then Exn.ret {| data := take (Z.to_nat size) src |}
        else Exn.undef
    | None => Exn.undef
    end
  else Exn.ret {| data := [] |}.

(** [void MSGQMessage::takeOwnership(char* src_data, size_t size)]: the same
    copy, followed by [delete[] src_data] when [size > 0]; the release of the
    source array is not part of the model. *)
Definition takeOwnership {S} (this : MSGQMessage) (src_data : option (list byte))
           (size : Z) : Exn.X S MSGQMessage :=
  if (0 <? size) && negb (bool_decide (is_Some src_data)) then
    Exn.raise (invalid_argument "Source data cannot be null when size > 0")
  else if 0 <? size then
    match src_data with
    | Some src =>
        if size <=? Z.of_nat (length src)
        then Exn.ret {| data := take (Z.to_nat size) src |}
        else Exn.undef
    | None => Exn.undef
    end
  else Exn.ret {| data := [] |}.

(** [void MSGQMessage::close()] *)
Definition close (this : MSGQMessage) : MSGQMessage := {| data := [] |}.

(** [msgq_pollitem_t]: the queue and the events found by [msgq_poll]. *)
Record msgq_pollitem_t {Qp : Type} : Type := mk_pollitem {
  item_q : Qp;
  revents : Z
}.

Arguments msgq_pollitem_t : clear implicits.

(** [class MSGQSubSocket]: the members. *)
Record MSGQSubSocket {Qp : Type} : Type := mk_subsocket {
  q : option Qp;       (* std::unique_ptr<msgq_queue_t> *)
  timeout : Z          (* int, -1 is no timeout *)
}.

Arguments MSGQSubSocket : clear implicits.

(** [class MSGQPoller]: the members. *)
Record MSGQPoller {Qp Ptr : Type} : Type := mk_poller {
  sockets : list (option Ptr);        (* std::vector<SubSocket*> *)
  polls : list (msgq_pollitem_t Qp)   (* std::vector<msgq_pollitem_t> *)
}.

Arguments MSGQPoller : clear implicits.

Definition MSGQPoller_new {Qp Ptr} : MSGQPoller Qp Ptr :=
  {| sockets := []; polls := [] |}.

Section MSGQ.

(** The C interface of msgq/msgq.h, which these sources call and do not
    define.  [W] is everything it works on: the queue structures and the
    shared segments.  [Qp] is the type of the non-null [msgq_queue_t*], [Ptr]
    of the non-null [SubSocket*].
    - [msgq_msg_recv msg q] is [msgq_msg_recv(&msg, q)]: the return code and
      the message structure after the call;
    - [msgq_poll qs timeout] is [msgq_poll(items, nitems, timeout)] on items
      with the queues [qs]: the return code and the [revents] it leaves in
      the items, in order;
    - [getRawSocket] is the virtual [SubSocket::getRawSocket()];
    - [strerror_errno] is [strerror(errno)] at this point. *)
Context {W Qp Ptr : Type}.
Variable msgq_msg_recv : msgq_msg_t -> Qp -> W -> Z * msgq_msg_t * W.
Variable msgq_poll : list Qp -> Z -> W -> Z * list Z * W.
Variable getRawSocket : Ptr -> W -> option Qp.
Variable strerror_errno : W -> string.

(** [void setTimeout(int timeout) override] *)
Definition setTimeout (this : MSGQSubSocket Qp) (timeout : Z) : MSGQSubSocket Qp :=
  {| q := q this; timeout := timeout |}.

(** The retry loop of [MSGQSubSocket::receive], entered with the result of
    the receive before it.  [fuel] bounds the number of turns; without fuel
    left there is no result. *)
Fixpoint receive_loop (fuel : nat) (timeout : Z) (qp : Qp) (rc : Z)
         (msg : msgq_msg_t) (w : W) : option (Z * msgq_msg_t * W) :=
  if rc =? 0 then
    match fuel with
    | O => None
    | S fuel' =>
        let poll_timeout := if negb (timeout =? -1) then timeout else 100 in
        let '(n, _, w1) := msgq_poll [qp] poll_timeout w in
        let '(rc', msg', w2) := msgq_msg_recv msg qp w1 in
        if (0 <? n) && (0 <? rc') then Some (rc', msg', w2)
        else if negb (timeout =? -1) then Some (rc', msg', w2)
        else receive_loop fuel' timeout qp rc' msg' w2
    end
  else Some (rc, msg, w).

(** [std::unique_ptr<Message> MSGQSubSocket::receive(bool non_blocking)] *)
Definition receive (fuel : nat) (this : MSGQSubSocket Qp) (non_blocking : bool)
           (w : W) : option (outcome W (option MSGQMessage)) :=
  match q this with
  | None => Some (Raises (runtime_error "Socket not connected") w)
  | Some qp =>
      let '(rc, msg, w1) := msgq_msg_recv msg_zero qp w in
      match (if negb non_blocking
             then receive_loop fuel (timeout this) qp rc msg w1
             else Some (rc, msg, w1)) with
      | None => None
      | Some (rc, msg, w2) =>
          if 0 <? rc then
            Some ((message <~ takeOwnership MSGQMessage_new (msg_data msg) (msg_size msg) ;;
                   Exn.ret (Some message)) w2)
          else Some (Returns None w2)
      end
  end.

(** [void MSGQPoller::registerSocket(SubSocket* socket)] *)
Definition registerSocket (this : MSGQPoller Qp Ptr) (socket : option Ptr)
  : Exn.X W (MSGQPoller Qp Ptr) :=
  match socket with
  | None => Exn.raise (invalid_argument "Socket cannot be null")
  | Some s =>
      if MAX_POLLERS <=? Z.of_nat (length (polls this)) then
        Exn.raise (runtime_error
          ("Maximum number of pollers (" +:+ pretty MAX_POLLERS +:+ ") exceeded"))
      else
        w <~ Exn.get ;;
        match getRawSocket s w with
        | None => Exn.raise (invalid_argument "Socket getRawSocket() returned null")
        | Some item_q =>
            Exn.ret {| polls := polls this ++ [{| item_q := item_q; revents := 0 |}];
                       sockets := sockets this ++ [socket] |}
        end
  end.

(** [msgq_poll] writes the [revents] of the items in place. *)
Fixpoint set_revents (polls : list (msgq_pollitem_t Qp)) (revs : list Z)
  : list (msgq_pollitem_t Qp) :=
  match polls, revs with
  | item :: polls', r :: revs' =>
      {| item_q := item_q item; revents := r |} :: set_revents polls' revs'
  | _, _ => polls
  end.

(** The loop of [poll]: from index [i] on, [ready.push_back(sockets[i])] for
    each item with events.  [sockets[i]] past the end of the vector is
    undefined. *)
Fixpoint collect_ready (polls : list (msgq_pollitem_t Qp))
         (sockets : list (option Ptr)) (i : nat) : option (list (option Ptr)) :=
  match polls with
  | [] => Some []
  | item :: polls' =>
      if negb (revents item =? 0) then
        match sockets !! i with
        | Some s => cons s <$> collect_ready polls' sockets (S i)
        | None => None
        end
      else collect_ready polls' sockets (S i)
  end.

(** [std::vector<SubSocket*> MSGQPoller::poll(int timeout)], on the poller
    and the state of the queues: [msgq_poll] writes into [polls]. *)
Definition poll (timeout : Z) : Exn.X (MSGQPoller Qp Ptr * W) (list (option Ptr)) :=
  fun s =>
    let this := fst s in
    if bool_decide (polls this = []) then Returns [] s
    else
      let '(rc, revs, w1) := msgq_poll (item_q <$> polls this) timeout (snd s) in
      let this1 := {| sockets := sockets this;
                      polls := set_revents (polls this) revs |} in
      if rc <? 0 then
        Raises (runtime_error ("msgq_poll failed: " +:+ strerror_errno w1)) (this1, w1)
      else
        match collect_ready (polls this1) (sockets this1) 0 with
        | Some ready => Returns ready (this1, w1)
        | None => Undef
        end.

(** The pollers that calls of [registerSocket] build from a new one. *)
Inductive registered : MSGQPoller Qp Ptr -> Prop :=
| registered_new : registered MSGQPoller_new
| registered_socket this socket w this' w' :
    registered this ->
    registerSocket this socket w = Returns this' w' ->
    registered this'.

(** One turn of the loop of [receive] when no timeout is set: poll for 100
    ms, then receive again. *)
Definition retry (qp : Qp) (s : Z * msgq_msg_t * W) : Z * msgq_msg_t * W :=
  let '(_, msg, w) := s in
  let '(_, _, w1) := msgq_poll [qp] 100 w in
  msgq_msg_recv msg qp w1.

End MSGQ.

End MSGQ.

(** ** The factories (ipc_modern.cc) *)

Module Factory.

Section Factory.

(** The backends, which ipc_modern.cc declares and does not define: the
    [detail::create_*] functions, each returning a [std::unique_ptr] that may
    be null, and the virtual methods of the objects they return.  [W] is the
    state the backends work on; [Ctx], [Sub], [Pub], [Plr] are the objects
    behind a non-null [Context*], [SubSocket], [PubSocket], [Poller]; [Ptr]
    is the type of the non-null [SubSocket*] handed to a poller.
    [strerror_errno] is [strerror(errno)] at this point. *)
Context {W Ctx Sub Pub Plr Ptr : Type}.
Variable apple : bool.
Variable create_zmq_context create_msgq_context : Exn.X W (option Ctx).
Variable create_zmq_subsocket create_msgq_subsocket : Exn.X W (option Sub).
Variable create_fake_zmq_subsocket create_fake_msgq_subsocket : Exn.X W (option Sub).
Variable create_zmq_pubsocket create_msgq_pubsocket : Exn.X W (option Pub).
Variable create_zmq_poller create_msgq_poller create_fake_poller : Exn.X W (option Plr).
Variable SubSocket_connect :
  Sub -> Ctx -> string -> string -> bool -> bool -> Exn.X W (Z * Sub).
Variable PubSocket_connect : Pub -> Ctx -> string -> bool -> Exn.X W (Z * Pub).
Variable Poller_registerSocket : Plr -> option Ptr -> Exn.X W Plr.
Variable strerror_errno : W -> string.

(** The process and the backends. *)
Definition State : Type := Process * W.

Definition messaging_use_zmq : Exn.X State bool :=
  fun s =>
    let r := Ipc.messaging_use_zmq apple (fst s) in
    Returns (fst r) (snd r, snd s).

Definition messaging_use_fake : Exn.X State bool :=
  fun s => Returns (Ipc.messaging_use_fake (fst s)) s.

Definition determine_backend_type : Exn.X State Ipc.BackendType :=
  fun s =>
    let r := Ipc.determine_backend_type apple (fst s) in
    Returns (fst r) (snd r, snd s).

(** [std::cerr << line] *)
Definition write_cerr (line : string) : Exn.X State unit :=
  Exn.modify (fun s => (Ipc.write_cerr line (fst s), snd s)).

(** [try { body } catch (const std::exception& e)
     { throw std::runtime_error(std::string(text) + e.what()); }] *)
Definition rethrow_as_runtime_error {A} (text : string) (body : Exn.X State A)
  : Exn.X State A :=
  Exn.try_catch body (fun e => Exn.raise (runtime_error (text +:+ what e))).

(** [std::unique_ptr<Context> Context::create()] *)
Definition Context_create : Exn.X State (option Ctx) :=
  rethrow_as_runtime_error "Failed to create Context: "
    (use_zmq <~ messaging_use_zmq ;;
     if use_zmq : bool then Exn.on_snd create_zmq_context
     else Exn.on_snd create_msgq_context).

(** [std::unique_ptr<SubSocket> SubSocket::create()] *)
Definition SubSocket_create : Exn.X State (option Sub) :=
  rethrow_as_runtime_error "Failed to create SubSocket: "
    (backend_type <~ determine_backend_type ;;
     match backend_type with
     | Ipc.FAKE_ZMQ => Exn.on_snd create_fake_zmq_subsocket
     | Ipc.FAKE_MSGQ => Exn.on_snd create_fake_msgq_subsocket
     | Ipc.ZMQ => Exn.on_snd create_zmq_subsocket
     | Ipc.MSGQ => Exn.on_snd create_msgq_subsocket
     end).

(** [std::unique_ptr<SubSocket> SubSocket::create(Context* context,
     const std::string& endpoint, const std::string& address, bool conflate,
     bool check_endpoint)] *)
Definition SubSocket_create_connect (context : option Ctx) (endpoint address : string)
           (conflate check_endpoint : bool) : Exn.X State (option Sub) :=
  match context with
  | None => Exn.raise (invalid_argument "Context pointer cannot be null")
  | Some ctx =>
      if bool_decide (endpoint = ""%string) then
        Exn.raise (invalid_argument "Endpoint cannot be empty")
      else
        Exn.try_catch
          (socket <~ SubSocket_create ;;
           match socket with
           | None => Exn.undef
           | Some sock =>
               r <~ Exn.on_snd
                      (SubSocket_connect sock ctx endpoint address conflate check_endpoint) ;;
               if negb (fst r =? 0) then
                 s <~ Exn.get ;;
                 Exn.raise (runtime_error
                   ("Failed to connect SubSocket to '" +:+ endpoint +:+ "': "
                    +:+ strerror_errno (snd s)))
               else Exn.ret (Some (snd r))
           end)
          (fun e =>
             if check_endpoint then Exn.raise e
             else
               _ <~ write_cerr ("WARNING: Failed to connect SubSocket: " +:+ what e) ;;
               Exn.ret None)
  end.

(** [std::unique_ptr<PubSocket> PubSocket::create()] *)
Definition PubSocket_create : Exn.X State (option Pub) :=
  rethrow_as_runtime_error "Failed to create PubSocket: "
    (use_zmq <~ messaging_use_zmq ;;
     if use_zmq : bool then Exn.on_snd create_zmq_pubsocket
     else Exn.on_snd create_msgq_pubsocket).

(** [std::unique_ptr<PubSocket> PubSocket::create(Context* context,
     const std::string& endpoint, bool check_endpoint)] *)
Definition PubSocket_create_connect (context : option Ctx) (endpoint : string)
           (check_endpoint : bool) : Exn.X State (option Pub) :=
  match context with
  | None => Exn.raise (invalid_argument "Context pointer cannot be null")
  | Some ctx =>
      if bool_decide (endpoint = ""%string) then
        Exn.raise (invalid_argument "Endpoint cannot be empty")
      else
        Exn.try_catch
          (socket <~ PubSocket_create ;;
           match socket with
           | None => Exn.undef
           | Some sock =>
               r <~ Exn.on_snd (PubSocket_connect sock ctx endpoint check_endpoint) ;;
               if negb (fst r =? 0) then
                 s <~ Exn.get ;;
                 Exn.raise (runtime_error
                   ("Failed to bind PubSocket to '" +:+ endpoint +:+ "': "
                    +:+ strerror_errno (snd s)))
               else Exn.ret (Some (snd r))
           end)
          (fun e => Exn.raise e)
  end.

(** [std::unique_ptr<PubSocket> PubSocket::create(Context* context,
     const std::string& endpoint, int port, bool check_endpoint)] *)
Definition PubSocket_create_port (context : option Ctx) (endpoint : string)
           (port : Z) (check_endpoint : bool) : Exn.X State (option Pub) :=
  match context with
  | None => Exn.raise (invalid_argument "Context pointer cannot be null")
  | Some ctx =>
      if bool_decide (endpoint = ""%string) then
        Exn.raise (invalid_argument "Endpoint cannot be empty")
      else if (port <? 0) || (65535 <? port) then
        Exn.raise (invalid_argument "Port must be between 0 and 65535")
      else
        Exn.try_catch
          (socket <~ PubSocket_create ;;
           match socket with
           | None => Exn.undef
           | Some sock =>
               r <~ Exn.on_snd (PubSocket_connect sock ctx endpoint check_endpoint) ;;
               if negb (fst r =? 0) then
                 s <~ Exn.get ;;
                 Exn.raise (runtime_error
                   ("Failed to bind PubSocket to '" +:+ endpoint +:+ "' on port "
                    +:+ pretty port +:+ ": " +:+ strerror_errno (snd s)))
               else Exn.ret (Some (snd r))
           end)
          (fun e => Exn.raise e)
  end.

(** [std::unique_ptr<Poller> Poller::create()] *)
Definition Poller_create : Exn.X State (option Plr) :=
  rethrow_as_runtime_error "Failed to create Poller: "
    (use_fake <~ messaging_use_fake ;;
     if use_fake : bool then Exn.on_snd create_fake_poller
     else
       use_zmq <~ messaging_use_zmq ;;
       if use_zmq : bool then Exn.on_snd create_zmq_poller
       else Exn.on_snd create_msgq_poller).

(** The index of the first null pointer from position [i] on. *)
Fixpoint first_null (sockets : list (option Ptr)) (i : nat) : option nat :=
  match sockets with
  | [] => None
  | None :: _ => Some i
  | Some _ :: sockets' => first_null sockets' (S i)
  end.

(** [for (const auto& socket : sockets) poller->registerSocket(socket);] *)
Fixpoint register_all (poller : Plr) (sockets : list (option Ptr)) : Exn.X W Plr :=
  match sockets with
  | [] => Exn.ret poller
  | socket :: sockets' =>
      poller' <~ Poller_registerSocket poller socket ;;
      register_all poller' sockets'
  end.

(** [std::unique_ptr<Poller> Poller::create(const std::vector<SubSocket*>&
     sockets)] *)
Definition Poller_create_sockets (sockets : list (option Ptr))
  : Exn.X State (option Plr) :=
  if bool_decide (sockets = []) then
    Exn.raise (invalid_argument "Socket list cannot be empty")
  else
    match first_null sockets 0 with
    | Some i =>
        Exn.raise (invalid_argument ("Socket at index " +:+ pretty i +:+ " is null"))
    | None =>
        rethrow_as_runtime_error "Failed to create and initialize Poller: "
          (poller <~ Poller_create ;;
           match poller with
           | None => Exn.undef
           | Some plr =>
               plr' <~ Exn.on_snd (register_all plr sockets) ;;
               Exn.ret (Some plr')
           end)
    end.

End Factory.

End Factory.

(** ** Small backends to run the MSGQ classes and the factories on *)

Module MSGQExample.

(** The state counts the receives made so far; the queue delivers the
    one-byte message "A" from the third receive on. *)
Definition msgq_msg_recv (msg : MSGQ.msgq_msg_t) (qp : Z) (w : Z)
  : Z * MSGQ.msgq_msg_t * Z :=
  if w <? 2 then (0, msg, w + 1)
  else (1, {| MSGQ.msg_size := 1; MSGQ.msg_data := Some [x41] |}, w + 1).

Definition poll_quiet (qs : list Z) (timeout : Z) (w : Z) : Z * list Z * Z :=
  (0, (fun _ => 0) <$> qs, w).

Definition poll_ready (qs : list Z) (timeout : Z) (w : Z) : Z * list Z * Z :=
  (Z.of_nat (length qs), (fun _ => 1) <$> qs, w).

(** Events on every queue but the first. *)
Definition poll_tail (qs : list Z) (timeout : Z) (w : Z) : Z * list Z * Z :=
  (Z.of_nat (length qs) - 1, 0 :: ((fun _ => 1) <$> tail qs), w).

Definition getRawSocket (socket : Z) (w : Z) : option Z := Some socket.

Definition strerror_errno (w : Z) : string := "Interrupted system call".

Definition sub (timeout : Z) : MSGQ.MSGQSubSocket Z :=
  {| MSGQ.q := Some 7; MSGQ.timeout := timeout |}.

(** The poller after registering the sockets 0, ..., n - 1. *)
Definition poller_of (n : nat) : MSGQ.MSGQPoller Z Z :=
  {| MSGQ.sockets := (fun m => Some (Z.of_nat m)) <$> seq 0 n;
     MSGQ.polls := (fun m => {| MSGQ.item_q := Z.of_nat m; MSGQ.revents := 0 |})
                   <$> seq 0 n |}.

End MSGQExample.

Module FactoryExample.

(** Backends without state whose sockets are numbers; [connect] succeeds on
    the endpoint "ok" and fails on every other. *)
Definition create_socket (n : Z) : Exn.X unit (option Z) := Exn.ret (Some n).

Definition SubSocket_connect (sock : Z) (ctx : unit) (endpoint address : string)
           (conflate check_endpoint : bool) : Exn.X unit (Z * Z) :=
  Exn.ret (if bool_decide (endpoint = "ok"%string) then 0 else -1, sock).

Definition PubSocket_connect (sock : Z) (ctx : unit) (endpoint : string)
           (check_endpoint : bool) : Exn.X unit (Z * Z) :=
  Exn.ret (if bool_decide (endpoint = "ok"%string) then 0 else -1, sock).

(** A factory that throws an [int]. *)
Definition create_throwing : Exn.X unit (option Z) :=
  fun w => Raises (not_std_exception "int") w.

Definition create_poller : Exn.X unit (option (FakePoller.t Z)) :=
  Exn.ret (Some FakePoller.new).

Definition strerror_errno (w : unit) : string := "No such file or directory".

Definition process (env : Environ) : Process :=
  {| environ := env; cerr := []; fake_events_enabled_ := false;
     fake_prefix_ := ""%string |}.

End FactoryExample.

Module HandleExample.

(** [eventfd] as a process with the descriptors 3 to 7 at its disposal sees
    it: the lowest one not in use, or a failure. *)
Definition eventfd_pick (w : Fds) : Z :=
  default (-1) (head (filter (fun fd => w !! fd = None) [3; 4; 5; 6; 7])).

(** The same with descriptor 3 alone. *)
Definition eventfd_one (w : Fds) : Z :=
  default (-1) (head (filter (fun fd => w !! fd = None) [3])).

(** No file under /dev/shm, no event descriptor open. *)
Definition world0 : SocketEventHandle.World :=
  {| SocketEventHandle.names := ∅; SocketEventHandle.directories := ∅;
     SocketEventHandle.objects := [];
     SocketEventHandle.descriptors := ∅ |}.

Definition p0 : Process := FactoryExample.process ∅.

(** The handle of the endpoint "camera" and the state after its
    construction with [override] from [world0]. *)
Definition camera : SocketEventHandle.t :=
  {| SocketEventHandle.shm_path_ := "/dev/shm/cereal_events/camera";
     SocketEventHandle.state_ := Some 0%nat |}.

Definition world1 : SocketEventHandle.World :=
  {| SocketEventHandle.names := {[ "/dev/shm/cereal_events/camera"%string := 0%nat ]};
     SocketEventHandle.directories := {[ "/dev/shm/cereal_events/"%string ]};
     SocketEventHandle.objects :=
       [{| fds_called := 3; fds_ready := 4; enabled := false |}];
     SocketEventHandle.descriptors := {[ 3 := 0; 4 := 0 ]} |}.

End HandleExample.

(** * Properties *)

(** A closed equation decided by evaluating both sides. *)
Ltac vm_refl :=
  lazymatch goal with
  | |- _ = ?r => vm_cast_no_check (@eq_refl _ r)
  end.

(** ** The state and error monad *)

Section Monad.

Context {S A B : Type}.

Lemma bind_Ok (m : M S A) (k : A -> M S B) s b s2 :
  bind m k s = Ok b s2 ->
  exists a s1, m s = Ok a s1 /\ k a s1 = Ok b s2.
Proof.
  unfold bind. destruct (m s) as [a s1| | |]; try discriminate.
  intros H. exists a, s1. split; [reflexivity | exact H].
Qed.

Lemma bind_Throw (m : M S A) (k : A -> M S B) s e s2 :
  bind m k s = Throw e s2 ->
  m s = Throw e s2 \/ exists a s1, m s = Ok a s1 /\ k a s1 = Throw e s2.
Proof.
  unfold bind. destruct (m s) as [a s1|e1 s1| |]; try discriminate.
  - intros H. right. exists a, s1. split; [reflexivity | exact H].
  - intros H. injection H as -> ->. left. reflexivity.
Qed.

Lemma bind_eq_Ok (m : M S A) (k : A -> M S B) s a s1 :
  m s = Ok a s1 -> bind m k s = k a s1.
Proof. unfold bind. intros ->. reflexivity. Qed.

End Monad.

Lemma throw_if_Ok {S} (c : bool) (e : error) (s s' : S) :
  throw_if c e s = Ok tt s' -> c = false /\ s' = s.
Proof.
  unfold throw_if, throw, ret. destruct c; [discriminate |].
  intros H. injection H as <-. split; reflexivity.
Qed.

Lemma throw_if_Throw {S} (c : bool) (e e' : error) (s s' : S) :
  throw_if c e s = Throw e' s' -> c = true /\ e' = e /\ s' = s.
Proof.
  unfold throw_if, throw, ret. destruct c; [| discriminate].
  intros H. injection H as <- <-. repeat split; reflexivity.
Qed.

Lemma throw_if_false {S} (e : error) (s : S) : throw_if false e s = Ok tt s.
Proof. reflexivity. Qed.

Lemma throw_if_true {S} (e : error) (s : S) : throw_if true e s = Throw e s.
Proof. reflexivity. Qed.

(** ** Machine integers and packed pointers *)

Lemma u32_range x : 0 <= u32 x < 2 ^ 32.
Proof. unfold u32. apply Z.mod_pos_bound. lia. Qed.

Lemma u64_range x : 0 <= u64 x < 2 ^ 64.
Proof. unfold u64. apply Z.mod_pos_bound. lia. Qed.

Lemma u32_small x : 0 <= x < 2 ^ 32 -> u32 x = x.
Proof. intros H. unfold u32. apply Z.mod_small. exact H. Qed.

Lemma u64_small x : 0 <= x < 2 ^ 64 -> u64 x = x.
Proof. intros H. unfold u64. apply Z.mod_small. exact H. Qed.

Lemma make_decompose c o :
  PackedPointer.make c o = u32 c * 2 ^ 32 + u32 o.
Proof.
  unfold PackedPointer.make.
  pose proof (u32_range c) as Hc. pose proof (u32_range o) as Ho.
  rewrite Z.shiftl_mul_pow2 by lia.
  rewrite u64_small by nia.
  rewrite <- Z.shiftl_mul_pow2 by lia.
  rewrite <- Z.lxor_lor.
  - rewrite <- Z.add_nocarry_lxor; [reflexivity |].
    apply Z.bits_inj'. intros n Hn. rewrite Z.land_spec, Z.bits_0.
    destruct (Z.ltb_spec n 32).
    + rewrite Z.shiftl_spec_low by lia. reflexivity.
    + rewrite (Z.bits_above_log2 (u32 o) n); [apply andb_false_r | lia |].
      destruct (Z.eq_dec (u32 o) 0) as [-> | Hne]; [simpl; lia |].
      apply Z.lt_le_trans with 32; [| lia].
      apply Z.log2_lt_pow2; lia.
  - apply Z.bits_inj'. intros n Hn. rewrite Z.land_spec, Z.bits_0.
    destruct (Z.ltb_spec n 32).
    + rewrite Z.shiftl_spec_low by lia. reflexivity.
    + rewrite (Z.bits_above_log2 (u32 o) n); [apply andb_false_r | lia |].
      destruct (Z.eq_dec (u32 o) 0) as [-> | Hne]; [simpl; lia |].
      apply Z.lt_le_trans with 32; [| lia].
      apply Z.log2_lt_pow2; lia.
Qed.

Lemma cycle_make c o : PackedPointer.cycle (PackedPointer.make c o) = u32 c.
Proof.
  unfold PackedPointer.cycle. rewrite make_decompose.
  pose proof (u32_range c) as Hc. pose proof (u32_range o) as Ho.
  rewrite Z.shiftr_div_pow2 by lia.
  rewrite Z.div_add_l by lia.
  rewrite Z.div_small by lia.
  rewrite Z.add_0_r. apply u32_small. exact Hc.
Qed.

Lemma offset_make c o : PackedPointer.offset (PackedPointer.make c o) = u32 o.
Proof.
  unfold PackedPointer.offset. rewrite make_decompose.
  pose proof (u32_range c) as Hc. pose proof (u32_range o) as Ho.
  change 4294967295 with (Z.ones 32).
  rewrite Z.land_ones by lia.
  rewrite Z.add_comm, Z.mod_add by lia.
  rewrite Z.mod_small by lia.
  apply u32_small. exact Ho.
Qed.

Lemma offset_range p : 0 <= PackedPointer.offset p < 2 ^ 32.
Proof. apply u32_range. Qed.

(** ** The publisher's write path *)

Lemma memcpy_data_header i dst src from n f f' :
  Impl.memcpy_data i dst src from n f = Ok tt f' ->
  file_header f' = file_header f.
Proof.
  unfold Impl.memcpy_data. intros H.
  apply bind_Ok in H as (f0 & s1 & Hget & H). injection Hget as <- <-.
  apply bind_Ok in H as (? & s2 & Hc & H).
  destruct (dst + n <=? size_ i); [| discriminate]. injection Hc as _ <-.
  apply bind_Ok in H as (d & s3 & Hd & H).
  destruct (memcpy (file_data f) dst src from n); [| discriminate].
  injection Hd as <- <-. injection H as <-. reflexivity.
Qed.

(** What a send that returns has done to the header. *)
Lemma send_message_Ok i data f f' :
  Impl.send_message i data f = Ok tt f' ->
  is_publisher_ i = true /\
  Z.of_nat (length data) <= size_ i /\
  size_ i <> 0 /\
  file_header f' =
    set_write_index
      (PackedPointer.make
         (PackedPointer.cycle (write_index (file_header f)) + 1)
         (u64 (PackedPointer.offset (write_index (file_header f))
               + Z.of_nat (length data)) mod size_ i))
      (file_header f).
Proof.
  unfold Impl.send_message. intros H.
  apply bind_Ok in H as ([] & s1 & Hpub & H).
  apply throw_if_Ok in Hpub as [Hpub ->].
  apply bind_Ok in H as ([] & s2 & Hlarge & H).
  apply throw_if_Ok in Hlarge as [Hlarge ->].
  apply bind_Ok in H as (w & s3 & Hw & H). injection Hw as <- <-.
  apply bind_Ok in H as ([] & s4 & Hcopy & H).
  assert (Hhdr : file_header s4 = file_header f).
  { destruct (size_ i <? u64 _) in Hcopy.
    - apply bind_Ok in Hcopy as ([] & s5 & H1 & H2).
      apply memcpy_data_header in H1, H2. congruence.
    - apply memcpy_data_header in Hcopy. exact Hcopy. }
  apply bind_Ok in H as ([] & s5 & Hz & H).
  destruct (Z.eqb_spec (size_ i) 0) as [|Hnz]; [discriminate |].
  injection Hz as <-. injection H as <-.
  repeat split.
  - destruct (is_publisher_ i); [reflexivity | discriminate].
  - apply Z.ltb_ge in Hlarge. exact Hlarge.
  - exact Hnz.
  - cbn. rewrite Hhdr. reflexivity.
Qed.

(** ** The subscriber's read path *)

(** Whatever the segment holds, [receive_message] returns a message without
    any byte. *)
Lemma receive_message_no_payload i timeout_ms conflate f m f' :
  Impl.receive_message i timeout_ms conflate f = Ok m f' -> m = [].
Proof.
  unfold Impl.receive_message. intros H.
  apply bind_Ok in H as ([] & s1 & Hsub & H).
  apply bind_Ok in H as (f0 & s2 & Hget & H).
  apply bind_Ok in H as (r & s3 & Hr & H).
  destruct (PackedPointer.eqb _ _).
  - injection H as <- _. reflexivity.
  - apply bind_Ok in H as (h & s4 & Hh & H).
    apply bind_Ok in H as ([] & s5 & Hput & H).
    injection H as <- _. reflexivity.
Qed.

(** C1 (code defect).  The round trip of [example_basic] on a segment of 64
    bytes with the one-byte message "A": the publisher and the subscriber are
    set up, the subscriber joins before the send, and the single [recv] after
    the single [send] returns the empty message, not "A". *)
Theorem example_basic_recv_returns_empty :
  Examples.example_basic "q" 64 ["A"%byte] ∅
  = Ok [] {[ "/dev/shm/q"%string :=
               set_header
                 (set_read_index (PackedPointer.make 1 1 :: replicate 14 0)
                    (file_header (Examples.segment_after_A 1)))
                 (Examples.segment_after_A 1) ]} /\
  ([] : Message) <> ["A"%byte].
Proof.
  split; [vm_refl | discriminate].
Qed.

(** C2 (counterexample).  Scenario S1: on a segment of 1024 bytes, from the
    cursor (0, 0), a send of the one-byte payload "A" leaves the write cursor
    at (1, 1), while an advance by [align8(8 + 1)] without wrap gives
    (0, 16). *)
Lemma send_cursor_S1_differs :
  Impl.send_message
    (set_is_publisher true (Examples.fresh_impl "q" 1024))
    ["A"%byte] (Examples.fresh_segment 1024)
  = Ok tt {| file_header := set_write_index (PackedPointer.make 1 1) zero_Header;
             file_data := "A"%byte :: replicate 1023 x00 |} /\
  Spec.cursor_after_send 0 1 1024 = PackedPointer.make 0 16 /\
  PackedPointer.make 1 1 <> Spec.cursor_after_send 0 1 1024.
Proof.
  split; [vm_refl |]. split; [reflexivity |].
  vm_compute. discriminate.
Qed.

(** C2 (amended).  A send of [n] bytes that returns increments the cycle
    counter by one (modulo 2^32) whether or not the offset wraps, and moves
    the offset to [(offset + n) mod size_]: neither a frame header nor
    padding is counted. *)
Theorem send_message_cursor i data f f' :
  size_ i < 2 ^ 63 ->
  Impl.send_message i data f = Ok tt f' ->
  let w := write_index (file_header f) in
  let w' := write_index (file_header f') in
  let n := Z.of_nat (length data) in
  PackedPointer.cycle w' = u32 (PackedPointer.cycle w + 1) /\
  PackedPointer.offset w' = u32 ((PackedPointer.offset w + n) mod size_ i).
Proof.
  intros Hsz H. cbv zeta.
  apply send_message_Ok in H as (_ & Hn & _ & ->). cbn.
  rewrite cycle_make, offset_make.
  pose proof (offset_range (write_index (file_header f))) as Ho.
  rewrite (u64_small (_ + _)) by lia.
  split; reflexivity.
Qed.

(** The third send of scenario S2: 24 bytes on a segment of 64 bytes, from
    the cursor (2, 48) to (3, 8). *)
Lemma send_message_cursor_witness :
  exists f',
    Impl.send_message
      {| name_ := "q"; size_ := 64; reader_id_ := -1; is_publisher_ := true |}
      (replicate 24 x00)
      {| file_header := set_write_index (PackedPointer.make 2 48) zero_Header;
         file_data := replicate 64 x00 |} = Ok tt f' /\
    PackedPointer.cycle (write_index (file_header f')) = 3 /\
    PackedPointer.offset (write_index (file_header f')) = 8.
Proof.
  eexists. split; [vm_compute; reflexivity |].
  pose proof (send_message_cursor
    {| name_ := "q"; size_ := 64; reader_id_ := -1; is_publisher_ := true |}
    (replicate 24 x00)
    {| file_header := set_write_index (PackedPointer.make 2 48) zero_Header;
       file_data := replicate 64 x00 |}
    _ ltac:(reflexivity) ltac:(vm_compute; reflexivity)) as [Hc Ho].
  split; [exact Hc | exact Ho].
Defined.

(** ** Opening a segment *)

Lemma align_to_8_nonneg n : 0 <= align_to_8 n.
Proof.
  unfold align_to_8. apply Z.land_nonneg. left. apply u64_range.
Qed.

Lemma resize_bytes_length n l : length (resize_bytes n l) = n.
Proof.
  unfold resize_bytes.
  rewrite length_app, length_take, length_replicate. lia.
Qed.

(** C3 (counterexample).  A segment created with 64 data bytes is opened
    again with a requested size of 128: the second open returns normally and
    the file now has 128 data bytes. *)
Lemma reopen_with_other_size_resizes :
  Queue.create os_ok "q" 64 ∅
  = Ok (Some (Examples.fresh_impl "q" 64))
       {[ "/dev/shm/q"%string := Examples.fresh_segment 64 ]} /\
  Queue.create os_ok "q" 128 {[ "/dev/shm/q"%string := Examples.fresh_segment 64 ]}
  = Ok (Some (Examples.fresh_impl "q" 128))
       {[ "/dev/shm/q"%string := Examples.fresh_segment 128 ]} /\
  length (file_data (Examples.fresh_segment 64)) = 64%nat /\
  length (file_data (Examples.fresh_segment 128)) = 128%nat.
Proof.
  split; [vm_refl |]. split; [vm_refl |]. split; reflexivity.
Qed.

(** C3 (amended).  When the operating system refuses nothing, opening an
    existing segment with any requested size (below the [off_t] limit)
    returns normally: no size is compared.  The header of the file, the
    stored [segment_size] included, is left as it was, and the data region is
    cut or zero-extended to the requested size rounded up to 8: the bytes it
    had, up to the new size, stay where they were and the bytes added are
    zero.  No other file is touched. *)
Theorem create_existing_resizes name size fs f :
  fs !! Impl.shm_path name = Some f ->
  sizeof_Header + align_to_8 size < 2 ^ 63 ->
  exists impl fs' f',
    Queue.create os_ok name size fs = Ok (Some impl) fs' /\
    size_ impl = align_to_8 size /\
    fs' !! Impl.shm_path name = Some f' /\
    file_header f' = file_header f /\
    Z.of_nat (length (file_data f')) = align_to_8 size /\
    file_data f'
    = take (Z.to_nat (align_to_8 size)) (file_data f)
      ++ replicate (Z.to_nat (align_to_8 size) - length (file_data f)) x00 /\
    (forall other, other <> Impl.shm_path name -> fs' !! other = fs !! other).
Proof.
  intros Hf Hsz.
  pose proof (align_to_8_nonneg size) as Hnn.
  assert (Htot : u64 (sizeof_Header + align_to_8 size)
                 = sizeof_Header + align_to_8 size).
  { apply u64_small. unfold sizeof_Header in *. lia. }
  eexists _, _, _.
  split.
  - unfold Queue.create, Impl.new, Impl.init_shared_memory.
    unfold bind, throw_if, modify, ret, os_ok; cbn [open_fails ftruncate_fails mmap_fails].
    rewrite Htot.
    destruct (Z.leb_spec (2 ^ 63) (sizeof_Header + align_to_8 size)) as [Hbad|_];
      [lia |].
    destruct (Z.ltb_spec (sizeof_Header + align_to_8 size) sizeof_Header) as [Hbad|_];
      [lia |].
    cbn [orb]. unfold os_open_creat. rewrite Hf.
    unfold os_ftruncate. rewrite Hf. reflexivity.
  - split; [reflexivity |].
    split; [apply lookup_insert_eq |].
    split; [reflexivity |].
    split; [cbn; rewrite resize_bytes_length; lia |].
    split.
    + cbn [file_data set_data]. unfold resize_bytes.
      replace (sizeof_Header + align_to_8 size - sizeof_Header)
        with (align_to_8 size) by lia.
      reflexivity.
    + intros other Hother. apply lookup_insert_ne. congruence.
Qed.

(** The segment of 64 bytes that holds the message "A", with one
    subscriber, opened again with 128: the header and the byte "A" are kept,
    127 zero bytes follow. *)
Lemma create_existing_resizes_witness :
  exists impl fs' f',
    Queue.create os_ok "q" 128
      {[ "/dev/shm/q"%string := Examples.segment_after_A 1 ]}
    = Ok (Some impl) fs' /\
    size_ impl = 128 /\
    fs' !! "/dev/shm/q"%string = Some f' /\
    file_header f' = file_header (Examples.segment_after_A 1) /\
    Z.of_nat (length (file_data f')) = 128 /\
    file_data f' = "A"%byte :: replicate 127 x00 /\
    (forall other, other <> "/dev/shm/q"%string ->
       fs' !! other
       = ({[ "/dev/shm/q"%string := Examples.segment_after_A 1 ]} : Shm) !! other).
Proof.
  apply (create_existing_resizes "q" 128 _ (Examples.segment_after_A 1)).
  - vm_compute; reflexivity.
  - vm_compute; reflexivity.
Defined.

(** ** Joining as a subscriber *)

(** The comparison [reader_id_ >= NUM_READERS] lets through exactly the
    counts 0 .. 14. *)
Lemma slot_check n :
  (NUM_READERS <=? int_to_size_t (to_int n)) = false ->
  to_int n = u32 n /\ 0 <= u32 n < NUM_READERS.
Proof.
  unfold int_to_size_t, to_int, NUM_READERS.
  pose proof (u32_range n) as Hr. cbv zeta.
  destruct (Z.ltb_spec (u32 n) (2 ^ 31)) as [Hlt|Hge]; intros H.
  - apply Z.leb_gt in H. rewrite u64_small in H by lia. lia.
  - apply Z.leb_gt in H.
    assert (Hw : u64 (u32 n - 2 ^ 32) = u32 n - 2 ^ 32 + 2 ^ 64).
    { unfold u64. symmetry. apply Z.mod_unique with (-1); lia. }
    rewrite Hw in H. lia.
Qed.

(** C4 (counterexample).  A publisher sends one message on a new segment of
    64 bytes; then a subscriber joins.  The write cursor is (1, 1), the
    cursor of the subscriber's slot is still 0, and [msg_ready] reports a
    message although nothing was published after the subscriber joined. *)
Lemma late_subscriber_cursor_differs :
  let sub := set_reader_id 0 (Examples.fresh_impl "q" 64) in
  let f := Examples.segment_after_A 1 in
  Examples.late_join "q" 64 ["A"%byte] ∅
  = Ok (Some sub) {[ "/dev/shm/q"%string := f ]} /\
  write_index (file_header f) = PackedPointer.make 1 1 /\
  load_read_index (reader_id_ sub) (file_header f) = Some 0 /\
  load_read_index (reader_id_ sub) (file_header f)
    <> Some (write_index (file_header f)) /\
  Queue.msg_ready {| impl_ := Some sub; segment := f |}
  = Ok true {| impl_ := Some sub; segment := f |}.
Proof.
  cbv zeta.
  split; [vm_refl |].
  split; [reflexivity |].
  split; [reflexivity |].
  split; [vm_compute; discriminate |].
  vm_refl.
Qed.

(** C4 (amended).  An [init_subscriber] that returns gives the queue the slot
    whose index is the previous [num_readers] (one of 0 .. 14) and increments
    [num_readers]; it writes no cursor.  The cursor of the new reader is
    whatever the slot held before the call; the write cursor and the data
    are untouched. *)
Theorem init_subscriber_Ok conflate s s' :
  Queue.init_subscriber conflate s = Ok tt s' ->
  exists impl impl',
    impl_ s = Some impl /\ impl_ s' = Some impl' /\
    reader_id_ impl' = u32 (num_readers (file_header (segment s))) /\
    0 <= reader_id_ impl' < NUM_READERS /\
    num_readers (file_header (segment s'))
      = u32 (num_readers (file_header (segment s)) + 1) /\
    read_index (file_header (segment s')) = read_index (file_header (segment s)) /\
    write_index (file_header (segment s')) = write_index (file_header (segment s)) /\
    file_data (segment s') = file_data (segment s).
Proof.
  unfold Queue.init_subscriber. intros H.
  apply bind_Ok in H as (s0 & s1 & Hget & H). injection Hget as <- <-.
  destruct (impl_ s) as [impl|] eqn:Himpl; [| discriminate].
  apply bind_Ok in H as ([] & s2 & Hput & H). injection Hput as <-.
  apply throw_if_Ok in H as [Hchk ->].
  cbn [reader_id_ set_reader_id] in Hchk.
  apply slot_check in Hchk as [Hid Hrange].
  eexists impl, _. split; [reflexivity |]. split; [reflexivity |].
  cbn. rewrite Hid. repeat split; try reflexivity; lia.
Qed.

(** The third subscriber of a segment on which one message was sent. *)
Lemma init_subscriber_Ok_witness :
  exists impl impl' s',
    Queue.init_subscriber false
      {| impl_ := Some {| name_ := "q"; size_ := 64; reader_id_ := -1;
                          is_publisher_ := false |};
         segment := {| file_header :=
                         set_write_index (PackedPointer.make 1 1)
                           (set_num_readers 2 zero_Header);
                       file_data := replicate 64 x00 |} |} = Ok tt s' /\
    impl_ s' = Some impl' /\
    reader_id_ impl' = 2 /\
    num_readers (file_header (segment s')) = 3 /\
    read_index (file_header (segment s')) = replicate 15 0 /\
    write_index (file_header (segment s')) = PackedPointer.make 1 1 /\
    impl = {| name_ := "q"; size_ := 64; reader_id_ := -1; is_publisher_ := false |}.
Proof.
  destruct (init_subscriber_Ok false
    {| impl_ := Some {| name_ := "q"; size_ := 64; reader_id_ := -1;
                        is_publisher_ := false |};
       segment := {| file_header :=
                       set_write_index (PackedPointer.make 1 1)
                         (set_num_readers 2 zero_Header);
                     file_data := replicate 64 x00 |} |}
    _ ltac:(vm_compute; reflexivity))
    as (impl & impl' & Hi & Hi' & Hid & _ & Hn & Hr & Hw & _).
  exists impl, impl'. eexists.
  split; [vm_compute; reflexivity |].
  split; [exact Hi' |].
  split; [exact Hid |].
  split; [exact Hn |].
  split; [exact Hr |].
  split; [exact Hw |].
  injection Hi as <-. reflexivity.
Defined.

(** ** Which payloads a send accepts *)

Lemma memcpy_Some mem dst src from n :
  0 <= dst -> 0 <= from -> 0 <= n ->
  from + n <= Z.of_nat (length src) ->
  dst + n <= Z.of_nat (length mem) ->
  exists d, memcpy mem dst src from n = Some d /\ length d = length mem.
Proof.
  intros Hd Hf Hn Hsrc Hmem. unfold memcpy.
  destruct (Z.leb_spec 0 dst); [| lia].
  destruct (Z.leb_spec 0 from); [| lia].
  destruct (Z.leb_spec 0 n); [| lia].
  destruct (Z.leb_spec (from + n) (Z.of_nat (length src))); [| lia].
  destruct (Z.leb_spec (dst + n) (Z.of_nat (length mem))); [| lia].
  cbn [andb]. eexists. split; [reflexivity |].
  rewrite !length_app, !length_take, !length_drop. lia.
Qed.

Lemma memcpy_data_Some i dst src from n f :
  0 <= dst -> 0 <= from -> 0 <= n ->
  from + n <= Z.of_nat (length src) ->
  dst + n <= size_ i ->
  size_ i <= Z.of_nat (length (file_data f)) ->
  exists f', Impl.memcpy_data i dst src from n f = Ok tt f' /\
             file_header f' = file_header f /\
             length (file_data f') = length (file_data f).
Proof.
  intros Hd Hf Hn Hsrc Hmap Hfile.
  destruct (memcpy_Some (file_data f) dst src from n) as (d & Hcpy & Hlen);
    try lia.
  exists (set_data d f).
  unfold Impl.memcpy_data, bind, get, defined, put, ret, undefined.
  destruct (Z.leb_spec (dst + n) (size_ i)); [| lia].
  rewrite Hcpy. repeat split. exact Hlen.
Qed.

(** A publisher whose segment is mapped in full, with the write offset
    inside it, sends every payload of at most [size_] bytes. *)
Lemma send_message_accepts i data f :
  is_publisher_ i = true ->
  0 < size_ i < 2 ^ 63 ->
  size_ i <= Z.of_nat (length (file_data f)) ->
  PackedPointer.offset (write_index (file_header f)) <= size_ i ->
  Z.of_nat (length data) <= size_ i ->
  exists f', Impl.send_message i data f = Ok tt f'.
Proof.
  intros Hpub Hsz Hfile Hoff Hn.
  pose proof (offset_range (write_index (file_header f))) as Ho.
  set (o := PackedPointer.offset (write_index (file_header f))) in *.
  set (n := Z.of_nat (length data)) in *.
  assert (Hsum : u64 (o + n) = o + n) by (apply u64_small; lia).
  assert (Hcopy : exists f1,
    (if size_ i <? u64 (o + n)
     then
       Impl.memcpy_data i o data 0 (u64 (size_ i - o)) ;;;
       Impl.memcpy_data i 0 data (u64 (size_ i - o)) (u64 (n - u64 (size_ i - o)))
     else Impl.memcpy_data i o data 0 n) f = Ok tt f1).
  { rewrite Hsum.
    destruct (Z.ltb_spec (size_ i) (o + n)) as [Hwrap|Hfit].
    - assert (H1 : u64 (size_ i - o) = size_ i - o) by (apply u64_small; lia).
      rewrite H1.
      assert (H2 : u64 (n - (size_ i - o)) = n - (size_ i - o))
        by (apply u64_small; lia).
      rewrite H2.
      destruct (memcpy_data_Some i o data 0 (size_ i - o) f)
        as (f1 & E1 & _ & L1); try (fold n; lia).
      destruct (memcpy_data_Some i 0 data (size_ i - o) (n - (size_ i - o)) f1)
        as (f2 & E2 & _ & _); try (fold n; lia).
      exists f2. unfold bind. rewrite E1. exact E2.
    - destruct (memcpy_data_Some i o data 0 n f) as (f1 & E1 & _ & _);
        try (fold n; lia).
      exists f1. exact E1. }
  destruct Hcopy as (f1 & Hcopy).
  eexists. unfold Impl.send_message. fold n.
  rewrite Hpub. cbn [negb].
  unfold bind at 1. rewrite throw_if_false.
  destruct (Z.ltb_spec (size_ i) n) as [Hbad|_]; [lia |].
  unfold bind at 1. rewrite throw_if_false.
  unfold bind at 1. unfold gets at 1. unfold PackedPointer.of_raw. fold o.
  unfold bind at 1. rewrite Hcopy.
  destruct (Z.eqb_spec (size_ i) 0) as [Hbad|_]; [lia |].
  reflexivity.
Qed.

Lemma send_message_refuses i data f :
  is_publisher_ i = true ->
  size_ i < Z.of_nat (length data) ->
  Impl.send_message i data f = Throw MessageTooLarge f.
Proof.
  intros Hpub Hn. unfold Impl.send_message.
  rewrite Hpub. cbn [negb].
  unfold bind at 1. rewrite throw_if_false.
  destruct (Z.ltb_spec (size_ i) (Z.of_nat (length data))) as [_|Hbad]; [| lia].
  reflexivity.
Qed.

(** C5 (counterexample).  On a segment of 64 bytes a payload of 60 bytes is
    above [segment_size - 8] = 56, and the send returns normally. *)
Lemma send_60_of_64_accepted :
  Spec.too_large 60 64 = true /\
  exists f',
    Impl.send_message
      {| name_ := "q"; size_ := 64; reader_id_ := -1; is_publisher_ := true |}
      (replicate 60 x00)
      {| file_header := zero_Header; file_data := replicate 64 x00 |}
    = Ok tt f'.
Proof.
  split; [reflexivity |].
  eexists. vm_compute. reflexivity.
Qed.

(** C5 (amended).  On an initialized publisher whose segment of [size_] > 0
    bytes is mapped in full, with the write offset inside it, [send] fails
    with the message-too-large error if and only if the payload is longer
    than [size_] itself: no room is set aside for a frame header.  Every
    payload of at most [size_] bytes is sent. *)
Theorem send_message_too_large_iff i data f :
  is_publisher_ i = true ->
  0 < size_ i < 2 ^ 63 ->
  size_ i <= Z.of_nat (length (file_data f)) ->
  PackedPointer.offset (write_index (file_header f)) <= size_ i ->
  (Impl.send_message i data f = Throw MessageTooLarge f
   <-> size_ i < Z.of_nat (length data)) /\
  (Z.of_nat (length data) <= size_ i ->
   exists f', Impl.send_message i data f = Ok tt f').
Proof.
  intros Hpub Hsz Hfile Hoff. split.
  - split.
    + intros Hthrow.
      destruct (Z.lt_ge_cases (size_ i) (Z.of_nat (length data))) as [H|H];
        [exact H |].
      destruct (send_message_accepts i data f Hpub Hsz Hfile Hoff) as (f' & E);
        [lia |].
      rewrite E in Hthrow. discriminate.
    + apply send_message_refuses. exact Hpub.
  - apply send_message_accepts; assumption.
Qed.

(** A segment of 64 bytes: 65 bytes are refused, 64 bytes are sent. *)
Lemma send_message_too_large_iff_witness :
  let i := {| name_ := "q"; size_ := 64; reader_id_ := -1; is_publisher_ := true |} in
  let f := {| file_header := zero_Header; file_data := replicate 64 x00 |} in
  Impl.send_message i (replicate 65 x00) f = Throw MessageTooLarge f /\
  exists f', Impl.send_message i (replicate 64 x00) f = Ok tt f'.
Proof.
  cbv zeta. split.
  - apply (send_message_too_large_iff
             {| name_ := "q"; size_ := 64; reader_id_ := -1; is_publisher_ := true |}
             (replicate 65 x00)
             {| file_header := zero_Header; file_data := replicate 64 x00 |});
      vm_compute; try reflexivity; try (split; reflexivity); discriminate.
  - apply (send_message_too_large_iff
             {| name_ := "q"; size_ := 64; reader_id_ := -1; is_publisher_ := true |}
             (replicate 64 x00)
             {| file_header := zero_Header; file_data := replicate 64 x00 |});
      vm_compute; try reflexivity; try (split; reflexivity); discriminate.
Defined.

(** ** Whether the readers have caught up *)

(** The loop from [i]: with all its subscripts inside the array it returns,
    and it returns true exactly when every slot it visits holds the write
    cursor. *)
Lemma all_readers_updated_from_spec h w n i :
  length (read_index h) = Z.to_nat NUM_READERS ->
  0 <= i -> i + Z.of_nat n <= NUM_READERS ->
  exists b,
    Queue.all_readers_updated_from h w n i = Some b /\
    (b = true <->
     forall k, i <= k < i + Z.of_nat n -> load_read_index k h = Some w).
Proof.
  intros Hlen. revert i.
  induction n as [|n IH]; intros i Hi Hn.
  - exists true. split; [reflexivity |]. split; [intros _ k Hk; lia | reflexivity].
  - cbn [Queue.all_readers_updated_from].
    assert (Hload : exists r, load_read_index i h = Some r).
    { unfold load_read_index.
      destruct (Z.leb_spec 0 i); [| lia].
      destruct (Z.ltb_spec i NUM_READERS); [| lia].
      cbn [andb]. apply lookup_lt_is_Some. rewrite Hlen. lia. }
    destruct Hload as (r & Hr). rewrite Hr.
    destruct (Z.eqb_spec r w) as [-> | Hne]; cbn [negb].
    + destruct (IH (i + 1)) as (b & Hb & Hiff); [lia | lia |].
      exists b. split; [exact Hb |].
      rewrite Hiff. split.
      * intros H k Hk. destruct (Z.eq_dec k i) as [-> | Hki]; [exact Hr |].
        apply H. lia.
      * intros H k Hk. apply H. lia.
    + exists false. split; [reflexivity |]. split; [discriminate |].
      intros H. specialize (H i ltac:(lia)). congruence.
Qed.

(** C6 (counterexample).  A subscriber joins, then the publisher sends one
    message, and the subscriber's process dies without reading it.  The
    publisher's [all_readers_updated] returns false, although no slot with a
    live owner is behind the write cursor. *)
Lemma dead_reader_keeps_result_false :
  let pub := set_is_publisher true (Examples.fresh_impl "q" 64) in
  let f := Examples.segment_after_A 1 in
  (Examples.subscribe "q" 64 ;;; Examples.publish_one "q" 64 ["A"%byte]) ∅
  = Ok (Some pub) {[ "/dev/shm/q"%string := f ]} /\
  Queue.all_readers_updated {| impl_ := Some pub; segment := f |}
  = Ok false {| impl_ := Some pub; segment := f |} /\
  Spec.all_readers_updated (fun _ => false) (file_header f).
Proof.
  cbv zeta.
  split; [vm_refl |].
  split; [vm_refl |].
  intros i _ Hdead. discriminate.
Qed.

(** C6 (amended).  On a queue with a live implementation and at most 15
    slots handed out, [all_readers_updated] returns true if and only if every
    slot below [num_readers] holds the write cursor.  Slots from
    [num_readers] on are not looked at; whether the owner of a slot is alive
    plays no part. *)
Theorem all_readers_updated_iff s impl :
  impl_ s = Some impl ->
  0 <= num_readers (file_header (segment s)) <= NUM_READERS ->
  length (read_index (file_header (segment s))) = Z.to_nat NUM_READERS ->
  exists b,
    Queue.all_readers_updated s = Ok b s /\
    (b = true <->
     forall k, 0 <= k < num_readers (file_header (segment s)) ->
               load_read_index k (file_header (segment s))
               = Some (write_index (file_header (segment s)))).
Proof.
  intros Himpl Hn Hlen.
  destruct (all_readers_updated_from_spec
              (file_header (segment s)) (write_index (file_header (segment s)))
              (Z.to_nat (num_readers (file_header (segment s)))) 0 Hlen)
    as (b & Hb & Hiff); [lia | lia |].
  exists b. split.
  - unfold Queue.all_readers_updated, bind, get. rewrite Himpl, Hb. reflexivity.
  - rewrite Hiff. rewrite Z2Nat.id by lia. reflexivity.
Qed.

(** Two slots handed out, both at the write cursor. *)
Lemma all_readers_updated_iff_witness :
  let s := {| impl_ := Some {| name_ := "q"; size_ := 64; reader_id_ := -1;
                               is_publisher_ := true |};
              segment := {| file_header :=
                              set_write_index 7
                                (set_read_index (7 :: 7 :: replicate 13 0)
                                   (set_num_readers 2 zero_Header));
                            file_data := replicate 64 x00 |} |} in
  Queue.all_readers_updated s = Ok true s.
Proof.
  cbv zeta.
  destruct (all_readers_updated_iff
    {| impl_ := Some {| name_ := "q"; size_ := 64; reader_id_ := -1;
                        is_publisher_ := true |};
       segment := {| file_header :=
                       set_write_index 7
                         (set_read_index (7 :: 7 :: replicate 13 0)
                            (set_num_readers 2 zero_Header));
                     file_data := replicate 64 x00 |} |}
    _ ltac:(reflexivity) ltac:(vm_compute; split; discriminate)
    ltac:(reflexivity)) as (b & Hb & Hiff).
  rewrite Hb. f_equal. apply Hiff.
  intros k Hk. cbn in Hk.
  assert (Hcases : k = 0 \/ k = 1) by lia.
  destruct Hcases as [-> | ->]; reflexivity.
Defined.

(** ** Subscripts of [read_index] *)

(** Any queue that is not a subscriber: the subscript of [msg_ready] is
    negative and the call has no defined behaviour. *)
Lemma msg_ready_not_subscriber impl f :
  reader_id_ impl < 0 ->
  Queue.msg_ready {| impl_ := Some impl; segment := f |} = Undefined.
Proof.
  intros Hneg. unfold Queue.msg_ready, bind, get; cbn [impl_ segment].
  unfold Queue.msg_ready_subscript, load_read_index.
  destruct (Z.leb_spec 0 (reader_id_ impl)); [lia | reflexivity].
Qed.

(** C9 (code defect).  A queue that was created and never made a subscriber
    has [reader_id_ = -1]; [msg_ready] uses it as the subscript of
    [read_index], which is outside 0 .. 14, and the call has no defined
    behaviour.  The sibling [receive_message] refuses the same queue with
    "Not initialized as subscriber". *)
Theorem msg_ready_subscript_before_init :
  let impl := Examples.fresh_impl "q" 64 in
  let s := {| impl_ := Some impl; segment := Examples.fresh_segment 64 |} in
  Queue.create os_ok "q" 64 ∅
  = Ok (Some impl) {[ "/dev/shm/q"%string := Examples.fresh_segment 64 ]} /\
  Queue.msg_ready_subscript impl = -1 /\
  ~ (0 <= Queue.msg_ready_subscript impl < NUM_READERS) /\
  load_read_index (Queue.msg_ready_subscript impl) (file_header (segment s)) = None /\
  Queue.msg_ready s = Undefined /\
  Queue.recv 100 false s = Throw NotSubscriber s.
Proof.
  cbv zeta.
  split; [vm_refl |].
  split; [reflexivity |].
  split; [vm_compute; intros [H _]; apply H; reflexivity |].
  split; [reflexivity |].
  split; [vm_refl | vm_refl].
Qed.

(** ** A full slot table *)

(** Whenever [init_subscriber] fails for lack of a slot, it has incremented
    [num_readers] all the same. *)
Lemma init_subscriber_Throw conflate s s' :
  Queue.init_subscriber conflate s = Throw MaxSubscribers s' ->
  num_readers (file_header (segment s'))
  = u32 (num_readers (file_header (segment s)) + 1).
Proof.
  unfold Queue.init_subscriber, bind, get. 
  destruct (impl_ s) as [impl|]; [| discriminate].
  unfold put. unfold throw_if.
  destruct (NUM_READERS <=? _); [| discriminate].
  unfold throw. intros H. injection H as <-. reflexivity.
Qed.

(** C10 (code defect).  Fifteen subscribers have joined a segment.  The
    sixteenth [init_subscriber] throws "Maximum number of subscribers
    reached", and the header it leaves has [num_readers = 16], not 15: the
    counter is incremented before the bound is checked.  The queue object
    keeps [reader_id_ = 15]. *)
Theorem init_subscriber_failure_changes_header :
  let f15 := set_header (set_num_readers 15 zero_Header) (Examples.fresh_segment 64) in
  let f16 := set_header (set_num_readers 16 zero_Header) (Examples.fresh_segment 64) in
  let impl := Examples.fresh_impl "q" 64 in
  Examples.subscribe_many 15 "q" 64 ∅ = Ok tt {[ "/dev/shm/q"%string := f15 ]} /\
  Queue.init_subscriber false {| impl_ := Some impl; segment := f15 |}
  = Throw MaxSubscribers
          {| impl_ := Some (set_reader_id 15 impl); segment := f16 |} /\
  num_readers (file_header f15) = 15 /\
  num_readers (file_header f16) = 16.
Proof.
  cbv zeta.
  split; [vm_refl |]. split; [vm_refl |]. split; reflexivity.
Qed.

(** ** Waiting for one of several events *)

(** For a valid event, POLLIN is reported exactly when it is signaled. *)
Lemma pollin_iff_signaled w (e : Z) :
  0 <= e ->
  negb (Z.land (Poll.revents_of w {| Poll.fd := e; Poll.events := Poll.POLLIN;
                                     Poll.revents := 0 |}) Poll.POLLIN =? 0)
  = signaled w e.
Proof.
  intros He. unfold Poll.revents_of, signaled. cbn [Poll.fd Poll.events].
  destruct (Z.ltb_spec e 0) as [Hneg|_]; [lia |].
  destruct (w !! e) as [c|]; [| reflexivity].
  destruct (0 <? c); reflexivity.
Qed.

(** On the entries built from valid events, the scan for POLLIN finds the
    lowest signaled event. *)
Lemma first_pollin_scan w events i0 :
  Forall (fun e => Event.is_valid e = true) events ->
  Event.first_pollin
    (Poll.scan w
       (map (fun event => {| Poll.fd := Event.fd event; Poll.events := Poll.POLLIN;
                             Poll.revents := 0 |}) events)) i0
  = Spec.lowest_signaled w events i0.
Proof.
  intros Hvalid. revert i0.
  induction Hvalid as [|e events He _ IH]; intros i0; [reflexivity |].
  cbn [map Poll.scan Event.first_pollin Spec.lowest_signaled Poll.revents
       Poll.fd Poll.events].
  rewrite He. cbn [andb].
  unfold Event.is_valid in He. apply Z.leb_le in He.
  unfold Event.fd at 1.
  rewrite (pollin_iff_signaled w e He).
  destruct (signaled w e); [reflexivity |].
  apply IH.
Qed.

Lemma lowest_signaled_ge w events i0 i :
  Spec.lowest_signaled w events i0 = Some i -> i0 <= i.
Proof.
  revert i0. induction events as [|e events IH]; intros i0 H; [discriminate |].
  cbn [Spec.lowest_signaled] in H.
  destruct (Event.is_valid e && signaled w e).
  - injection H as ->. lia.
  - apply IH in H. lia.
Qed.

Lemma filter_valid_all (events : list Z) :
  Forall (fun e => Event.is_valid e = true) events ->
  filter (fun event => Event.is_valid event = true) events = events.
Proof.
  induction 1 as [|e events He _ IH]; [reflexivity |].
  rewrite filter_cons_True by exact He. rewrite IH. reflexivity.
Qed.

Lemma first_pollin_ready ps i0 i :
  Event.first_pollin ps i0 = Some i -> 0 < Poll.count_ready ps.
Proof.
  unfold Poll.count_ready. revert i0.
  induction ps as [|p ps IH]; intros i0 H; [discriminate |].
  cbn [Event.first_pollin] in H.
  destruct (Z.eqb_spec (Z.land (Poll.revents p) Poll.POLLIN) 0) as [Hz|Hnz];
    cbn [negb] in H.
  - apply IH in H.
    destruct (decide (Poll.revents p ≠ 0)).
    + rewrite filter_cons_True by assumption. cbn [length]. lia.
    + rewrite filter_cons_False by assumption. exact H.
  - assert (Hr : Poll.revents p ≠ 0).
    { intros Hr. apply Hnz. rewrite Hr. reflexivity. }
    rewrite filter_cons_True by exact Hr. cbn [length]. lia.
Qed.

(** With something ready at the call, [ppoll] returns at once. *)
Lemma ppoll_ready ps timeout env w :
  0 < Poll.count_ready (Poll.scan w ps) ->
  Poll.ppoll ps timeout env w
  = Ok (Poll.count_ready (Poll.scan w ps), Poll.scan w ps) w.
Proof.
  intros Hready. unfold Poll.ppoll.
  unfold bind, get.
  destruct (Z.ltb_spec 0 (Poll.count_ready (Poll.scan w ps))); [reflexivity | lia].
Qed.

(** When every event of the caller is valid, nothing is dropped and the claim
    holds: with an event signaled at the call, [wait_for_one] returns the
    lowest signaled index of the caller's list, at once. *)
Lemma wait_for_one_valid w events timeout_sec env i :
  Forall (fun e => Event.is_valid e = true) events ->
  Spec.lowest_signaled w events 0 = Some i ->
  i < 2 ^ 31 ->
  Event.wait_for_one events timeout_sec env w = Ok i w.
Proof.
  intros Hvalid Hlow Hi.
  pose proof (lowest_signaled_ge _ _ _ _ Hlow) as Hge.
  unfold Event.wait_for_one.
  rewrite (filter_valid_all events Hvalid).
  destruct events as [|e events]; [discriminate |].
  unfold bind at 1. rewrite bool_decide_eq_false_2 by discriminate.
  rewrite throw_if_false.
  unfold bind at 1. rewrite bool_decide_eq_false_2 by discriminate.
  rewrite throw_if_false.
  rewrite <- (first_pollin_scan w (e :: events) 0 Hvalid) in Hlow.
  pose proof (first_pollin_ready _ _ _ Hlow) as Hready.
  rewrite (bind_eq_Ok _ _ _ _ _
             (ppoll_ready _ (if timeout_sec <? 0 then None else Some timeout_sec)
                          env w Hready)).
  cbn [fst snd].
  destruct (Z.eqb_spec (Poll.count_ready
              (Poll.scan w
                 (map (fun event => {| Poll.fd := Event.fd event;
                                       Poll.events := Poll.POLLIN;
                                       Poll.revents := 0 |}) (e :: events)))) 0)
    as [Hbad|_]; [lia |].
  destruct (Z.ltb_spec (Poll.count_ready
              (Poll.scan w
                 (map (fun event => {| Poll.fd := Event.fd event;
                                       Poll.events := Poll.POLLIN;
                                       Poll.revents := 0 |}) (e :: events)))) 0)
    as [Hbad|_]; [lia |].
  rewrite Hlow. unfold ret. f_equal.
  unfold to_int. rewrite u32_small by lia. cbv zeta.
  destruct (Z.ltb_spec i (2 ^ 31)); [reflexivity | lia].
Qed.

(** C8 (code defect).  The caller passes an invalid event followed by a
    signaled one.  [wait_for_one] drops the invalid event before polling and
    returns the position in the filtered array, 0; the lowest signaled event
    of the caller's list is at index 1. *)
Theorem wait_for_one_index_is_shifted :
  let w : Fds := {[ 5 := 1 ]} in
  let events := [Event.default; 5] in
  Event.wait_for_one events (-1) Quiet w = Ok 0 w /\
  Spec.lowest_signaled w events 0 = Some 1.
Proof.
  cbv zeta. split; [vm_refl | reflexivity].
Qed.

(** The other half of the claim at a concrete input: nothing is signaled and
    nothing happens within the deadline of one second. *)
Lemma wait_for_one_times_out :
  Event.wait_for_one [5; 6] 1 Quiet {[ 5 := 0; 6 := 0 ]}
  = Throw EventPollTimedOut {[ 5 := 0; 6 := 0 ]}.
Proof. vm_refl. Qed.

(** ** Single event calls *)

Lemma set_Ok e w w' :
  Event.set e w = Ok tt w' ->
  exists c, w !! e = Some c /\ w' = <[e := c + 1]> w.
Proof.
  unfold Event.set, Event.validate. intros H.
  apply bind_Ok in H as ([] & s1 & Hv & H). apply throw_if_Ok in Hv as [_ ->].
  apply bind_Ok in H as (w0 & s2 & Hget & H). injection Hget as <- <-.
  unfold Poll.write_one, put, throw in H.
  destruct (w !! e) as [c|]; cbn beta iota in H; [| discriminate H].
  destruct (c + 1 <=? Poll.EVENTFD_MAX); cbn beta iota in H; [| discriminate H].
  injection H as <-. exists c. split; reflexivity.
Qed.

Lemma set_Throw e w err w' :
  Event.set e w = Throw err w' -> w' = w.
Proof.
  unfold Event.set, Event.validate. intros H.
  apply bind_Throw in H as [H | ([] & s1 & Hv & H)].
  - apply throw_if_Throw in H as (_ & _ & ->). reflexivity.
  - apply throw_if_Ok in Hv as [_ ->].
    apply bind_Throw in H as [H | (w0 & s2 & Hget & H)]; [discriminate |].
    injection Hget as <- <-.
    destruct (Poll.write_one e w); [discriminate |].
    unfold throw in H. injection H as _ <-. reflexivity.
Qed.

Lemma clear_Ok e w v w' :
  Event.clear e w = Ok v w' ->
  exists c, w !! e = Some c /\ 0 < c /\ w' = <[e := 0]> w.
Proof.
  unfold Event.clear, Event.validate. intros H.
  apply bind_Ok in H as ([] & s1 & Hv & H). apply throw_if_Ok in Hv as [_ ->].
  apply bind_Ok in H as (w0 & s2 & Hget & H). injection Hget as <- <-.
  unfold Poll.read_counter, put, throw in H.
  destruct (w !! e) as [c|]; cbn beta iota in H; [| discriminate H].
  destruct (Z.ltb_spec 0 c) as [Hc|]; cbn beta iota in H; [| discriminate H].
  injection H as _ <-. exists c. repeat split. exact Hc.
Qed.

Lemma clear_Throw e w err w' :
  Event.clear e w = Throw err w' -> w' = w.
Proof.
  unfold Event.clear, Event.validate. intros H.
  apply bind_Throw in H as [H | ([] & s1 & Hv & H)].
  - apply throw_if_Throw in H as (_ & _ & ->). reflexivity.
  - apply throw_if_Ok in Hv as [_ ->].
    apply bind_Throw in H as [H | (w0 & s2 & Hget & H)]; [discriminate |].
    injection Hget as <- <-.
    destruct (Poll.read_counter e w) as [[val w1]|]; [discriminate |].
    unfold throw in H. injection H as _ <-. reflexivity.
Qed.

(** When the other processes are not folded into the call, [ppoll] leaves
    the descriptors as they are. *)
Lemma ppoll_local ps timeout env w :
  match env with Others _ => False | _ => True end ->
  match Poll.ppoll ps timeout env w with
  | Ok _ w' => w' = w
  | Throw _ w' => w' = w
  | _ => True
  end.
Proof.
  intros Henv. unfold Poll.ppoll, bind, get, ret, blocked.
  destruct (0 <? Poll.count_ready (Poll.scan w ps)); [reflexivity |].
  destruct (bool_decide (timeout = Some 0)); [reflexivity |].
  destruct env as [| |w1]; [| reflexivity | contradiction].
  destruct timeout; [reflexivity | exact I].
Qed.

Lemma wait_local e timeout_sec env w :
  match env with Others _ => False | _ => True end ->
  match Event.wait e timeout_sec env w with
  | Ok _ w' => w' = w
  | Throw _ w' => w' = w
  | _ => True
  end.
Proof.
  intros Henv. unfold Event.wait, Event.validate.
  unfold bind at 1. unfold throw_if at 1.
  destruct (e <? 0); [reflexivity |]. cbn [ret].
  unfold bind.
  pose proof (ppoll_local
    [{| Poll.fd := e; Poll.events := Poll.POLLIN; Poll.revents := 0 |}]
    (if timeout_sec <? 0 then None else Some timeout_sec) env w Henv) as Hp.
  destruct (Poll.ppoll _ _ env w) as [r w1|err w1| |]; try exact I.
  - subst w1. destruct (fst r =? 0); [reflexivity |].
    destruct (fst r <? 0); reflexivity.
  - exact Hp.
Qed.

(** The only entry of the [pollfd] array of [wait] and [peek]. *)
Lemma count_ready_one w e :
  0 <= e ->
  Poll.count_ready
    (Poll.scan w [{| Poll.fd := e; Poll.events := Poll.POLLIN; Poll.revents := 0 |}])
  = match w !! e with
    | Some c => if 0 <? c then 1 else 0
    | None => 1
    end.
Proof.
  intros He. unfold Poll.count_ready, Poll.scan. cbn [map Poll.fd Poll.events].
  unfold Poll.revents_of. cbn [Poll.fd Poll.events].
  destruct (Z.ltb_spec e 0); [lia |].
  destruct (w !! e) as [c|].
  - destruct (0 <? c); reflexivity.
  - reflexivity.
Qed.

Lemma wait_on_signaled e w timeout_sec env :
  0 <= e -> signaled w e = true ->
  Event.wait e timeout_sec env w = Ok tt w.
Proof.
  intros He Hs.
  unfold Event.wait, Event.validate.
  destruct (Z.ltb_spec e 0) as [|_]; [lia |].
  unfold bind at 1. rewrite throw_if_false.
  assert (Hready : 0 < Poll.count_ready
            (Poll.scan w [{| Poll.fd := e; Poll.events := Poll.POLLIN;
                             Poll.revents := 0 |}])).
  { rewrite count_ready_one by exact He.
    unfold signaled in Hs. destruct (w !! e) as [c|]; [| discriminate].
    rewrite Hs. lia. }
  rewrite (bind_eq_Ok _ _ _ _ _
             (ppoll_ready _ (if timeout_sec <? 0 then None else Some timeout_sec)
                          env w Hready)).
  cbn [fst].
  destruct (Z.eqb_spec (Poll.count_ready
              (Poll.scan w [{| Poll.fd := e; Poll.events := Poll.POLLIN;
                               Poll.revents := 0 |}])) 0); [lia |].
  destruct (Z.ltb_spec (Poll.count_ready
              (Poll.scan w [{| Poll.fd := e; Poll.events := Poll.POLLIN;
                               Poll.revents := 0 |}])) 0); [lia |].
  reflexivity.
Qed.

(** ** The fake gate *)

Section FakeGate.

Context {U : Type}.
Variable TSubSocket_connect : string -> string -> bool -> bool -> M U Z.
Variable TSubSocket_receive : bool -> M U (option Message).

(** A connect that returns has set the four members together, from the
    mapped structure. *)
Lemma connect_Ok context endpoint address conflate check_endpoint mem this0 r this :
  connect TSubSocket_connect context endpoint address conflate check_endpoint mem this0
    = Ok r this ->
  exists es,
    mem = Some es /\ state this = Some es /\
    recv_called this = Some (fds_called es) /\
    recv_ready this = Some (fds_ready es) /\
    state_guard this = true /\ r = 0.
Proof.
  unfold connect. intros H.
  apply bind_Ok in H as ([] & s1 & _ & H).
  apply bind_Ok in H as ([] & s2 & _ & H).
  destruct mem as [es|]; [| discriminate].
  apply bind_Ok in H as (r0 & s3 & _ & H).
  apply bind_Ok in H as ([] & s4 & _ & H).
  apply bind_Ok in H as ([] & s5 & Hmod & H).
  injection Hmod as <-. injection H as <- <-.
  exists es. repeat split.
Qed.

Lemma receive_enabled (this : @FakeSubSocket U) es non_blocking :
  state this = Some es -> enabled es = true ->
  recv_called this = Some (fds_called es) ->
  recv_ready this = Some (fds_ready es) ->
  receive this non_blocking
  = [CallSet (fds_called es); CallWait (fds_ready es); CallClear (fds_ready es);
     CallBaseReceive non_blocking].
Proof.
  intros Hst Hen Hc Hr. unfold receive. rewrite Hst, Hen, Hc, Hr. reflexivity.
Qed.

Lemma receive_disabled (this : @FakeSubSocket U) es non_blocking :
  state this = Some es -> enabled es = false ->
  receive this non_blocking = [CallBaseReceive non_blocking].
Proof.
  intros Hst Hen. unfold receive. rewrite Hst, Hen. reflexivity.
Qed.

(** A socket that was never connected has no event state and forwards at
    once. *)
Lemma receive_unconnected (u : U) non_blocking :
  receive (FakeSubSocket_new u) non_blocking = [CallBaseReceive non_blocking].
Proof. reflexivity. Qed.

Lemma run_base_receive non_blocking env last s :
  run_calls TSubSocket_receive [CallBaseReceive non_blocking] env last s
  = on_socket (TSubSocket_receive non_blocking) s.
Proof.
  cbn [run_calls exec_call]. unfold bind, ret.
  destruct (on_socket (TSubSocket_receive non_blocking) s); reflexivity.
Qed.

(** What one call that returns has done to the descriptors. *)
Lemma exec_call_Ok c env w u m w' u' :
  local_env env ->
  exec_call TSubSocket_receive c env (w, u) = Ok m (w', u') ->
  match c with
  | CallSet e => exists n, w !! e = Some n /\ w' = <[e := n + 1]> w
  | CallWait _ => w' = w
  | CallClear e => exists n, w !! e = Some n /\ 0 < n /\ w' = <[e := 0]> w
  | CallBaseReceive _ => w' = w
  end.
Proof.
  intros Henv H. destruct c as [e|e|e|nb]; cbn [exec_call] in H.
  - unfold bind, on_fds, ret in H; cbn [fst snd] in H.
    destruct (Event.set e w) as [[] w1| | |] eqn:E; try discriminate.
    injection H as _ <- _. apply set_Ok. exact E.
  - unfold bind, on_fds, ret in H; cbn [fst snd] in H.
    pose proof (wait_local e (-1) env w Henv) as Hw.
    destruct (Event.wait e (-1) env w) as [[] w1| | |] eqn:E; try discriminate.
    injection H as _ <- _. exact Hw.
  - unfold bind, on_fds, ret in H; cbn [fst snd] in H.
    destruct (Event.clear e w) as [v w1| | |] eqn:E; try discriminate.
    injection H as _ <- _. apply clear_Ok in E. exact E.
  - unfold on_socket in H; cbn [fst snd] in H.
    destruct (TSubSocket_receive nb u); try discriminate.
    injection H as _ <- _. reflexivity.
Qed.

(** A call that throws leaves the descriptors as they were. *)
Lemma exec_call_Throw c env w u err w' u' :
  local_env env ->
  exec_call TSubSocket_receive c env (w, u) = Throw err (w', u') ->
  w' = w.
Proof.
  intros Henv H. destruct c as [e|e|e|nb]; cbn [exec_call] in H.
  - unfold bind, on_fds, ret in H; cbn [fst snd] in H.
    destruct (Event.set e w) as [[] w1|err1 w1| |] eqn:E; try discriminate.
    injection H as _ <- _. apply set_Throw in E. exact E.
  - unfold bind, on_fds, ret in H; cbn [fst snd] in H.
    pose proof (wait_local e (-1) env w Henv) as Hw.
    destruct (Event.wait e (-1) env w) as [[] w1|err1 w1| |] eqn:E; try discriminate.
    injection H as _ <- _. exact Hw.
  - unfold bind, on_fds, ret in H; cbn [fst snd] in H.
    destruct (Event.clear e w) as [v w1|err1 w1| |] eqn:E; try discriminate.
    injection H as _ <- _. apply clear_Throw in E. exact E.
  - unfold on_socket in H; cbn [fst snd] in H.
    destruct (TSubSocket_receive nb u); try discriminate.
    injection H as _ <- _. reflexivity.
Qed.

Lemma suffix_of_four {A} (c a1 a2 a3 a4 : A) k :
  c :: k `suffix_of` [a1; a2; a3; a4] ->
  (c = a1 /\ k = [a2; a3; a4]) \/ (c = a2 /\ k = [a3; a4]) \/
  (c = a3 /\ k = [a4]) \/ (c = a4 /\ k = []).
Proof.
  intros H.
  apply suffix_cons_inv in H as [H | H]; [injection H as -> ->; tauto |].
  apply suffix_cons_inv in H as [H | H]; [injection H as -> ->; tauto |].
  apply suffix_cons_inv in H as [H | H]; [injection H as -> ->; tauto |].
  apply suffix_cons_inv in H as [H | H]; [injection H as -> ->; tauto |].
  apply suffix_cons_nil_inv in H. contradiction.
Qed.

Lemma suffix_of_two {A} (c a1 a2 : A) k :
  c :: k `suffix_of` [a1; a2] ->
  (c = a1 /\ k = [a2]) \/ (c = a2 /\ k = []).
Proof.
  intros H.
  apply suffix_cons_inv in H as [H | H]; [injection H as -> ->; tauto |].
  apply suffix_cons_inv in H as [H | H]; [injection H as -> ->; tauto |].
  apply suffix_cons_nil_inv in H. contradiction.
Qed.

Lemma ready_pending_le_1 w rr : (ready_pending w rr <= 1)%nat.
Proof. unfold ready_pending. destruct (signaled w rr); lia. Qed.

Lemma ready_pending_insert_ne w (rc rr n : Z) :
  rc <> rr -> ready_pending (<[rc := n]> w) rr = ready_pending w rr.
Proof.
  intros Hne. unfold ready_pending, signaled.
  rewrite lookup_insert_ne by exact Hne. reflexivity.
Qed.

Lemma ready_pending_cleared w (rr : Z) : ready_pending (<[rr := 0]> w) rr = 0%nat.
Proof.
  unfold ready_pending, signaled. rewrite lookup_insert_eq. reflexivity.
Qed.

Lemma ready_pending_signaled w (rr n : Z) :
  w !! rr = Some n -> 0 < n -> ready_pending w rr = 1%nat.
Proof.
  intros Hl Hn. unfold ready_pending, signaled. rewrite Hl.
  destruct (Z.ltb_spec 0 n); [reflexivity | lia].
Qed.

(** The socket of the gate theorems: connected to the event state [es], with
    the gate enabled and the two events on different descriptors. *)
Section Enabled.

Variable this : @FakeSubSocket U.
Variable es : EventState.
Hypothesis Hstate : state this = Some es.
Hypothesis Henabled : enabled es = true.
Hypothesis Hcalled : recv_called this = Some (fds_called es).
Hypothesis Hready : recv_ready this = Some (fds_ready es).
Hypothesis Hdistinct : fds_called es <> fds_ready es.

Lemma gate_inv_step st st' :
  gate_inv this es st ->
  step TSubSocket_receive this es st st' ->
  gate_inv this es st'.
Proof.
  intros ([nb Hsub] & Hdrv & Hcount) Hstep.
  destruct Hstep as [st nb' Hidle | st c k env m w u Hc Henv Hex
                    | st c k env e w u Hc Henv Hex
                    | st Hidle | st c k env m w u Hc Henv Hex
                    | st c k env e w u Hc Henv Hex];
    unfold gate_inv; cbn [sub_calls drv_calls returned cycles sys_fds].
  - (* the subscriber calls receive *)
    split; [exists nb'; reflexivity |]. split; [exact Hdrv |].
    rewrite Hidle in Hcount.
    rewrite (receive_enabled this es nb' Hstate Henabled Hcalled Hready).
    cbn [gate_passed] in *. lia.
  - (* a call of the subscriber returns *)
    rewrite Hc in Hsub, Hcount.
    split; [exists nb; apply suffix_cons_l in Hsub; exact Hsub |].
    split; [exact Hdrv |].
    rewrite (receive_enabled this es nb Hstate Henabled Hcalled Hready) in Hsub.
    apply exec_call_Ok in Hex; [| exact Henv].
    apply suffix_of_four in Hsub
      as [[-> ->] | [[-> ->] | [[-> ->] | [-> ->]]]];
      cbn [gate_passed completes] in *.
    + destruct Hex as (n & _ & ->).
      rewrite ready_pending_insert_ne by exact Hdistinct. lia.
    + subst w. lia.
    + destruct Hex as (n & Hl & Hn & ->).
      rewrite ready_pending_cleared.
      rewrite (ready_pending_signaled _ _ n Hl Hn) in Hcount. lia.
    + subst w. lia.
  - (* a call of the subscriber throws *)
    split; [exists nb; apply suffix_nil |]. split; [exact Hdrv |].
    apply exec_call_Throw in Hex; [| exact Henv]. subst w.
    cbn [gate_passed]. lia.
  - (* the driver starts a cycle *)
    split; [exists nb; exact Hsub |]. split; [reflexivity |]. exact Hcount.
  - (* a call of the driver returns *)
    rewrite Hc in Hdrv.
    split; [exists nb; exact Hsub |].
    split; [apply suffix_cons_l in Hdrv; exact Hdrv |].
    apply exec_call_Ok in Hex; [| exact Henv].
    unfold driver_cycle in Hdrv. cbn [EventState_fds] in Hdrv.
    apply suffix_of_two in Hdrv as [[-> ->] | [-> ->]]; cbn [completes].
    + subst w. lia.
    + destruct Hex as (n & _ & ->).
      pose proof (ready_pending_le_1 (<[fds_ready es := n + 1]> (sys_fds st))
                                     (fds_ready es)).
      lia.
  - (* a call of the driver throws *)
    split; [exists nb; exact Hsub |]. split; [apply suffix_nil |].
    apply exec_call_Throw in Hex; [| exact Henv]. subst w. exact Hcount.
Qed.

Lemma gate_inv_idle w u :
  signaled w (fds_ready es) = false -> gate_inv this es (idle w u).
Proof.
  intros Hns. unfold gate_inv, idle; cbn [sub_calls drv_calls returned cycles sys_fds].
  split; [exists false; apply suffix_nil |]. split; [apply suffix_nil |].
  unfold ready_pending. rewrite Hns. cbn. lia.
Qed.

Lemma gate_inv_reachable w u st :
  signaled w (fds_ready es) = false ->
  rtc (step TSubSocket_receive this es) (idle w u) st ->
  gate_inv this es st.
Proof.
  intros Hns. revert st. apply rtc_ind_r.
  - apply gate_inv_idle. exact Hns.
  - intros st1 st2 _ Hstep IH. apply (gate_inv_step st1 st2 IH Hstep).
Qed.

(** A wait without deadline on an open descriptor, inside the system,
    returns only when the event is signaled. *)
Lemma wait_returns_signaled e env w (u : U) m w' u' :
  local_env env ->
  is_Some (w !! e) ->
  exec_call TSubSocket_receive (CallWait e) env (w, u) = Ok m (w', u') ->
  signaled w e = true.
Proof.
  intros Henv [n Hn] H. cbn [exec_call] in H.
  unfold bind, on_fds, ret in H; cbn [fst snd] in H.
  destruct (Event.wait e (-1) env w) as [[] w1| | |] eqn:E; try discriminate.
  clear H. unfold signaled. rewrite Hn.
  destruct (Z.ltb_spec 0 n) as [|Hzero]; [reflexivity |]. exfalso.
  revert E. unfold Event.wait, Event.validate.
  unfold bind at 1. unfold throw_if at 1.
  destruct (Z.ltb_spec e 0) as [Hneg|Hpos]; [discriminate |]. cbn [ret].
  assert (Hcount : Poll.count_ready
            (Poll.scan w [{| Poll.fd := e; Poll.events := Poll.POLLIN;
                             Poll.revents := 0 |}]) = 0).
  { rewrite count_ready_one by exact Hpos. rewrite Hn.
    destruct (Z.ltb_spec 0 n); [lia | reflexivity]. }
  unfold bind, Poll.ppoll, bind, get. rewrite Hcount. cbn [Z.ltb Z.compare].
  rewrite bool_decide_eq_false_2 by discriminate.
  destruct env as [| |w2]; [discriminate | | contradiction].
  unfold ret. cbn [fst]. discriminate.
Qed.

(** The invariant of the wait: [recv_ready] stays open, and a receive that
    is past its wait and has not cleared yet finds [recv_ready] signaled. *)
Lemma gate_wait_step st st' :
  gate_inv this es st ->
  is_Some (sys_fds st !! fds_ready es) ->
  (forall nb, sub_calls st = [CallClear (fds_ready es); CallBaseReceive nb] ->
              signaled (sys_fds st) (fds_ready es) = true) ->
  step TSubSocket_receive this es st st' ->
  is_Some (sys_fds st' !! fds_ready es) /\
  (forall nb, sub_calls st' = [CallClear (fds_ready es); CallBaseReceive nb] ->
              signaled (sys_fds st') (fds_ready es) = true).
Proof.
  intros ([nb0 Hsub] & Hdrv & _) Hopen Hsig Hstep.
  assert (Hkeep : forall c env m w u,
            local_env env ->
            exec_call TSubSocket_receive c env (sys_fds st, sys_base st) = Ok m (w, u) ->
            is_Some (w !! fds_ready es)).
  { intros c env m w u Henv Hex. apply exec_call_Ok in Hex; [| exact Henv].
    destruct c as [e|e|e|nb1].
    - destruct Hex as (n & _ & ->). apply lookup_insert_is_Some'. right. exact Hopen.
    - subst w. exact Hopen.
    - destruct Hex as (n & _ & _ & ->). apply lookup_insert_is_Some'. right. exact Hopen.
    - subst w. exact Hopen. }
  destruct Hstep as [st nb' Hidle | st c k env m w u Hc Henv Hex
                    | st c k env e w u Hc Henv Hex
                    | st Hidle | st c k env m w u Hc Henv Hex
                    | st c k env e w u Hc Henv Hex];
    cbn [sub_calls drv_calls sys_fds].
  - (* the subscriber calls receive *)
    split; [exact Hopen |]. intros nb H.
    rewrite (receive_enabled this es nb' Hstate Henabled Hcalled Hready) in H.
    discriminate.
  - (* a call of the subscriber returns *)
    split; [apply (Hkeep c env m w u Henv Hex) |]. intros nb Hk. subst k.
    rewrite Hc in Hsub.
    rewrite (receive_enabled this es nb0 Hstate Henabled Hcalled Hready) in Hsub.
    apply suffix_of_four in Hsub
      as [[_ H] | [[-> _] | [[_ H] | [_ H]]]]; try discriminate.
    pose proof (wait_returns_signaled _ _ _ _ _ _ _ Henv Hopen Hex) as Hs.
    apply exec_call_Ok in Hex; [| exact Henv]. subst w. exact Hs.
  - (* a call of the subscriber throws *)
    apply exec_call_Throw in Hex; [| exact Henv]. subst w.
    split; [exact Hopen |]. intros nb H. discriminate.
  - (* the driver starts a cycle *)
    split; [exact Hopen | exact Hsig].
  - (* a call of the driver returns *)
    split; [apply (Hkeep c env m w u Henv Hex) |]. intros nb Hk.
    specialize (Hsig nb Hk).
    rewrite Hc in Hdrv. unfold driver_cycle in Hdrv. cbn [EventState_fds] in Hdrv.
    apply exec_call_Ok in Hex; [| exact Henv].
    apply suffix_of_two in Hdrv as [[-> ->] | [-> ->]].
    + subst w. exact Hsig.
    + destruct Hex as (n & Hn & ->).
      unfold signaled in *. rewrite lookup_insert_eq. rewrite Hn in Hsig.
      apply Z.ltb_lt in Hsig. apply Z.ltb_lt. lia.
  - (* a call of the driver throws *)
    apply exec_call_Throw in Hex; [| exact Henv]. subst w.
    split; [exact Hopen | exact Hsig].
Qed.

Lemma gate_wait_reachable w u st :
  w !! fds_ready es = Some 0 ->
  rtc (step TSubSocket_receive this es) (idle w u) st ->
  gate_inv this es st /\
  is_Some (sys_fds st !! fds_ready es) /\
  (forall nb, sub_calls st = [CallClear (fds_ready es); CallBaseReceive nb] ->
              signaled (sys_fds st) (fds_ready es) = true).
Proof.
  intros Hzero.
  assert (Hns : signaled w (fds_ready es) = false).
  { unfold signaled. rewrite Hzero. reflexivity. }
  revert st. apply rtc_ind_r.
  - split; [apply gate_inv_idle; exact Hns |].
    split; [cbn; eauto |]. intros nb H. discriminate.
  - intros st1 st2 _ Hstep (Hinv & Hopen & Hsig).
    split; [apply (gate_inv_step st1 st2 Hinv Hstep) |].
    apply (gate_wait_step st1 st2 Hinv Hopen Hsig Hstep).
Qed.

(** No receive is past its wait, let alone returned, without a complete
    driver cycle of its own. *)
Lemma gate_bound w u st :
  w !! fds_ready es = Some 0 ->
  rtc (step TSubSocket_receive this es) (idle w u) st ->
  (returned st + wait_passed (sub_calls st) <= cycles st)%nat.
Proof.
  intros Hzero Hrun.
  destruct (gate_wait_reachable w u st Hzero Hrun)
    as (([nb Hsub] & _ & Hcount) & _ & Hsig).
  rewrite (receive_enabled this es nb Hstate Henabled Hcalled Hready) in Hsub.
  destruct (sub_calls st) as [|c k] eqn:Hk; [cbn; cbn in Hcount; lia |].
  apply suffix_of_four in Hsub
    as [[-> ->] | [[-> ->] | [[-> ->] | [-> ->]]]];
    cbn [wait_passed gate_passed] in *; try lia.
  specialize (Hsig nb eq_refl). unfold ready_pending in Hcount.
  rewrite Hsig in Hcount. lia.
Qed.

(** The gate does open: from both processes idle, one receive and one
    driver cycle run to their ends, and the receive returns what the base
    receive returns. *)
Lemma gate_lets_through w u c nb m u' :
  0 <= fds_called es -> 0 <= fds_ready es ->
  w !! fds_called es = Some c -> 0 <= c -> c + 1 <= Poll.EVENTFD_MAX ->
  w !! fds_ready es = Some 0 ->
  TSubSocket_receive nb u = Ok m u' ->
  rtc (step TSubSocket_receive this es) (idle w u)
      {| sys_fds := <[fds_ready es := 0]> (<[fds_called es := c + 1]> w);
         sys_base := u'; sub_calls := []; drv_calls := [];
         returned := 1; cycles := 1 |}.
Proof.
  intros Hrc Hrr Hc Hc0 Hmax Hzero Hbase.
  set (rc := fds_called es) in *. set (rr := fds_ready es) in *.
  set (w1 := <[rc := c + 1]> w).
  set (w2 := <[rr := 1]> w1).
  assert (Hw1rr : w1 !! rr = Some 0).
  { unfold w1. rewrite lookup_insert_ne by exact Hdistinct. exact Hzero. }
  assert (Hw1rc : w1 !! rc = Some (c + 1)) by apply lookup_insert_eq.
  assert (Hw2rr : w2 !! rr = Some 1) by apply lookup_insert_eq.
  assert (Hend : <[rr := 0]> w1 = <[rr := 0]> w2).
  { unfold w2. rewrite insert_insert_eq. reflexivity. }
  fold w1. rewrite Hend.
  assert (Hset : forall e (w0 : Fds) n env (u0 : U),
            0 <= e -> w0 !! e = Some n -> n + 1 <= Poll.EVENTFD_MAX ->
            exec_call TSubSocket_receive (CallSet e) env (w0, u0)
            = Ok None (<[e := n + 1]> w0, u0)).
  { intros e w0 n env u0 He Hn Hle. cbn [exec_call].
    unfold bind, on_fds, ret; cbn [fst snd].
    unfold Event.set, Event.validate, bind, get.
    destruct (Z.ltb_spec e 0); [lia |]. cbn [throw_if ret].
    unfold Poll.write_one. rewrite Hn.
    destruct (Z.leb_spec (n + 1) Poll.EVENTFD_MAX); [reflexivity | lia]. }
  assert (Hwait : forall e (w0 : Fds) n (u0 : U),
            0 <= e -> w0 !! e = Some n -> 0 < n ->
            exec_call TSubSocket_receive (CallWait e) Quiet (w0, u0)
            = Ok None (w0, u0)).
  { intros e w0 n u0 He Hn Hpos. cbn [exec_call].
    unfold bind, on_fds, ret; cbn [fst snd].
    rewrite (wait_on_signaled e w0 (-1) Quiet He); [reflexivity |].
    unfold signaled. rewrite Hn. apply Z.ltb_lt. exact Hpos. }
  assert (Hclear : exec_call TSubSocket_receive (CallClear rr) Quiet (w2, u)
                   = Ok None (<[rr := 0]> w2, u)).
  { cbn [exec_call]. unfold bind, on_fds, ret; cbn [fst snd].
    unfold Event.clear, Event.validate, bind, get.
    destruct (Z.ltb_spec rr 0); [lia |]. cbn [throw_if ret].
    unfold Poll.read_counter. rewrite Hw2rr. reflexivity. }
  assert (Hrecv : exec_call TSubSocket_receive (CallBaseReceive nb) Quiet
                    (<[rr := 0]> w2, u)
                  = Ok m (<[rr := 0]> w2, u')).
  { cbn [exec_call]. unfold on_socket; cbn [fst snd]. rewrite Hbase. reflexivity. }
  pose (S := CallSet rc). pose (W := CallWait rr). pose (C := CallClear rr).
  pose (B := CallBaseReceive nb).
  pose (DW := CallWait rc). pose (DS := CallSet rr).
  pose (sys := fun (w0 : Fds) (u0 : U) sub drv r n =>
                 {| sys_fds := w0; sys_base := u0; sub_calls := sub;
                    drv_calls := drv; returned := r; cycles := n |}).
  change (rtc (step TSubSocket_receive this es) (sys w u [] [] 0%nat 0%nat)
              (sys (<[rr := 0]> w2) u' [] [] 1%nat 1%nat)).
  apply rtc_l with (sys w u [S; W; C; B] [] 0%nat 0%nat).
  { pose proof (sub_begin TSubSocket_receive this es (sys w u [] [] 0%nat 0%nat) nb
                  eq_refl) as H.
    cbn [sys_fds sys_base drv_calls returned cycles sys] in H.
    rewrite (receive_enabled this es nb Hstate Henabled Hcalled Hready) in H.
    exact H. }
  apply rtc_l with (sys w1 u [W; C; B] [] 0%nat 0%nat).
  { apply (sub_call_ok TSubSocket_receive this es (sys w u [S; W; C; B] [] 0%nat 0%nat)
             S [W; C; B] Quiet None w1 u);
      [reflexivity | exact I | apply (Hset rc w c Quiet u Hrc Hc Hmax)]. }
  apply rtc_l with (sys w1 u [W; C; B] [DW; DS] 0%nat 0%nat).
  { apply (drv_begin TSubSocket_receive this es (sys w1 u [W; C; B] [] 0%nat 0%nat)).
    reflexivity. }
  apply rtc_l with (sys w1 u [W; C; B] [DS] 0%nat 0%nat).
  { apply (drv_call_ok TSubSocket_receive this es
             (sys w1 u [W; C; B] [DW; DS] 0%nat 0%nat) DW [DS] Quiet None w1 u);
      [reflexivity | exact I | apply (Hwait rc w1 (c + 1) u Hrc Hw1rc); lia]. }
  apply rtc_l with (sys w2 u [W; C; B] [] 0%nat 1%nat).
  { apply (drv_call_ok TSubSocket_receive this es
             (sys w1 u [W; C; B] [DS] 0%nat 0%nat) DS [] Quiet None w2 u);
      [reflexivity | exact I |].
    apply (Hset rr w1 0 Quiet u Hrr Hw1rr). unfold Poll.EVENTFD_MAX. lia. }
  apply rtc_l with (sys w2 u [C; B] [] 0%nat 1%nat).
  { apply (sub_call_ok TSubSocket_receive this es
             (sys w2 u [W; C; B] [] 0%nat 1%nat) W [C; B] Quiet None w2 u);
      [reflexivity | exact I | apply (Hwait rr w2 1 u Hrr Hw2rr); lia]. }
  apply rtc_l with (sys (<[rr := 0]> w2) u [B] [] 0%nat 1%nat).
  { apply (sub_call_ok TSubSocket_receive this es
             (sys w2 u [C; B] [] 0%nat 1%nat) C [B] Quiet None (<[rr := 0]> w2) u);
      [reflexivity | exact I | exact Hclear]. }
  apply rtc_l with (sys (<[rr := 0]> w2) u' [] [] 1%nat 1%nat).
  { apply (sub_call_ok TSubSocket_receive this es
             (sys (<[rr := 0]> w2) u [B] [] 0%nat 1%nat) B [] Quiet m
             (<[rr := 0]> w2) u');
      [reflexivity | exact I | exact Hrecv]. }
  apply rtc_refl.
Qed.

End Enabled.


End FakeGate.

(** A run of the gate with a base socket that never has a message: the
    subscriber calls receive and sets [recv_called], the driver waits for it
    and sets [recv_ready], the subscriber wakes up, clears and returns. *)
Lemma gate_run_once :
  rtc (step GateExample.base_receive GateExample.this GateExample.es)
      (idle GateExample.w0 tt)
      (GateExample.sys GateExample.w1 [] [] 1 1).
Proof.
  pose (S := CallSet 3). pose (W := CallWait 4). pose (C := CallClear 4).
  pose (B := CallBaseReceive false).
  pose (DW := CallWait 3). pose (DS := CallSet 4).
  apply rtc_l with (GateExample.sys GateExample.w0 [S; W; C; B] [] 0 0).
  { apply (sub_begin GateExample.base_receive GateExample.this GateExample.es
             (idle GateExample.w0 tt) false). reflexivity. }
  apply rtc_l with (GateExample.sys GateExample.w1 [W; C; B] [] 0 0).
  { apply (sub_call_ok GateExample.base_receive GateExample.this GateExample.es
             (GateExample.sys GateExample.w0 [S; W; C; B] [] 0 0)
             S [W; C; B] Quiet None GateExample.w1 tt);
      [reflexivity | exact I | vm_refl]. }
  apply rtc_l with (GateExample.sys GateExample.w1 [W; C; B] [DW; DS] 0 0).
  { apply (drv_begin GateExample.base_receive GateExample.this GateExample.es
             (GateExample.sys GateExample.w1 [W; C; B] [] 0 0)).
    reflexivity. }
  apply rtc_l with (GateExample.sys GateExample.w1 [W; C; B] [DS] 0 0).
  { apply (drv_call_ok GateExample.base_receive GateExample.this GateExample.es
             (GateExample.sys GateExample.w1 [W; C; B] [DW; DS] 0 0)
             DW [DS] Quiet None GateExample.w1 tt);
      [reflexivity | exact I | vm_refl]. }
  apply rtc_l with (GateExample.sys GateExample.w2 [W; C; B] [] 0 1).
  { apply (drv_call_ok GateExample.base_receive GateExample.this GateExample.es
             (GateExample.sys GateExample.w1 [W; C; B] [DS] 0 0)
             DS [] Quiet None GateExample.w2 tt);
      [reflexivity | exact I | vm_refl]. }
  apply rtc_l with (GateExample.sys GateExample.w2 [C; B] [] 0 1).
  { apply (sub_call_ok GateExample.base_receive GateExample.this GateExample.es
             (GateExample.sys GateExample.w2 [W; C; B] [] 0 1)
             W [C; B] Quiet None GateExample.w2 tt);
      [reflexivity | exact I | vm_refl]. }
  apply rtc_l with (GateExample.sys GateExample.w1 [B] [] 0 1).
  { apply (sub_call_ok GateExample.base_receive GateExample.this GateExample.es
             (GateExample.sys GateExample.w2 [C; B] [] 0 1)
             C [B] Quiet None GateExample.w1 tt);
      [reflexivity | exact I | vm_refl]. }
  apply rtc_l with (GateExample.sys GateExample.w1 [] [] 1 1).
  { apply (sub_call_ok GateExample.base_receive GateExample.this GateExample.es
             (GateExample.sys GateExample.w1 [B] [] 0 1)
             B [] Quiet None GateExample.w1 tt);
      [reflexivity | exact I | vm_refl]. }
  apply rtc_refl.
Qed.



(** * Further properties of the code *)

(** ** Packed pointers and alignment (msgq_modern.h) *)

(** Packing a cycle and an offset and reading the two fields back gives the
    same values; the packed word fits in 64 bits. *)
Theorem packed_pointer_fields c o :
  0 <= c < 2 ^ 32 -> 0 <= o < 2 ^ 32 ->
  PackedPointer.cycle (PackedPointer.make c o) = c /\
  PackedPointer.offset (PackedPointer.make c o) = o /\
  0 <= PackedPointer.raw (PackedPointer.make c o) < 2 ^ 64.
Proof.
  intros Hc Ho.
  rewrite cycle_make, offset_make, !u32_small by assumption.
  split; [reflexivity |]. split; [reflexivity |].
  unfold PackedPointer.raw. rewrite make_decompose, !u32_small by assumption.
  lia.
Qed.

(** The values of [example_constexpr]: cycle 1, offset 100. *)
Lemma packed_pointer_fields_witness :
  PackedPointer.cycle (PackedPointer.make 1 100) = 1 /\
  PackedPointer.offset (PackedPointer.make 1 100) = 100 /\
  0 <= PackedPointer.raw (PackedPointer.make 1 100) < 2 ^ 64.
Proof.
  apply (packed_pointer_fields 1 100); lia.
Defined.

(** A 64-bit word is rebuilt from its own cycle and offset: the two fields
    lose nothing. *)
Theorem packed_pointer_raw_roundtrip p :
  0 <= p < 2 ^ 64 ->
  PackedPointer.make (PackedPointer.cycle (PackedPointer.of_raw p))
                     (PackedPointer.offset (PackedPointer.of_raw p))
  = PackedPointer.of_raw p.
Proof.
  intros Hp. rewrite make_decompose.
  unfold PackedPointer.cycle, PackedPointer.offset, PackedPointer.of_raw.
  change 4294967295 with (Z.ones 32).
  rewrite Z.land_ones by lia. rewrite Z.shiftr_div_pow2 by lia.
  unfold u32. rewrite !Z.mod_mod by lia.
  rewrite (Z.mod_small (p / 2 ^ 32)).
  - pose proof (Z.div_mod p (2 ^ 32) ltac:(lia)). lia.
  - split; [apply Z.div_pos; lia |].
    apply Z.div_lt_upper_bound; lia.
Qed.

Lemma packed_pointer_raw_roundtrip_witness :
  PackedPointer.make (PackedPointer.cycle 4294967297)
                     (PackedPointer.offset 4294967297) = 4294967297.
Proof.
  apply (packed_pointer_raw_roundtrip 4294967297). lia.
Defined.

Lemma land_clear_low3 x :
  0 <= x < 2 ^ 64 -> Z.land x (2 ^ 64 - 8) = x - x mod 8.
Proof.
  intros Hx.
  assert (Hr : x - x mod 8 = Z.shiftl (Z.shiftr x 3) 3).
  { rewrite Z.shiftl_mul_pow2, Z.shiftr_div_pow2 by lia.
    change (2 ^ 3) with 8. pose proof (Z.div_mod x 8 ltac:(lia)). lia. }
  rewrite Hr.
  change (2 ^ 64 - 8) with (Z.shiftl (Z.ones 61) 3).
  apply Z.bits_inj'. intros i Hi.
  rewrite Z.land_spec.
  destruct (Z.ltb_spec i 3) as [Hlow|Hhigh].
  - rewrite !Z.shiftl_spec_low by lia. apply andb_false_r.
  - rewrite !Z.shiftl_spec by lia. rewrite Z.shiftr_spec by lia.
    replace (i - 3 + 3) with i by lia.
    destruct (Z.ltb_spec i 64) as [Hin|Hout].
    + rewrite Z.ones_spec_low by lia. apply andb_true_r.
    + rewrite Z.ones_spec_high by lia. rewrite andb_false_r.
      symmetry.
      destruct (Z.eq_dec x 0) as [-> | Hnz]; [apply Z.bits_0 |].
      apply Z.bits_above_log2; [lia |].
      apply Z.lt_le_trans with 64; [| lia].
      apply Z.log2_lt_pow2; lia.
Qed.

(** [align_to_8] rounds up to the next multiple of 8, as long as that
    multiple fits in a [size_t]. *)
Theorem align_to_8_rounds_up n :
  0 <= n <= 2 ^ 64 - 8 ->
  align_to_8 n mod 8 = 0 /\ n <= align_to_8 n < n + 8 /\
  align_to_8 (align_to_8 n) = align_to_8 n.
Proof.
  intros Hn.
  assert (Hal : forall m, 0 <= m <= 2 ^ 64 - 8 ->
                          align_to_8 m = m + 7 - (m + 7) mod 8).
  { intros m Hm. unfold align_to_8.
    rewrite (u64_small (m + 7)) by lia.
    change (u64 (Z.lnot 7)) with (2 ^ 64 - 8).
    apply land_clear_low3. lia. }
  rewrite (Hal n Hn).
  pose proof (Z.mod_pos_bound (n + 7) 8 ltac:(lia)) as Hb.
  pose proof (Z.div_mod (n + 7) 8 ltac:(lia)) as Hd.
  assert (Hm8 : (n + 7 - (n + 7) mod 8) mod 8 = 0).
  { replace (n + 7 - (n + 7) mod 8) with ((n + 7) / 8 * 8) by lia.
    apply Z.mod_mul. lia. }
  split; [exact Hm8 |].
  split.
  - assert (Hq : (n + 7) mod 8 = (n mod 8 + 7) mod 8).
    { rewrite <- Z.add_mod_idemp_l by lia. reflexivity. }
    pose proof (Z.mod_pos_bound n 8 ltac:(lia)) as Hnb.
    lia.
  - set (a := n + 7 - (n + 7) mod 8) in *.
    assert (Ha : 0 <= a <= 2 ^ 64 - 8).
    { split; [lia |].
      assert (a mod 8 = 0) by exact Hm8.
      assert ((2 ^ 64 - 8) mod 8 = 0) by reflexivity.
      pose proof (Z.div_mod a 8 ltac:(lia)).
      pose proof (Z.div_mod (2 ^ 64 - 8) 8 ltac:(lia)).
      lia. }
    rewrite (Hal a Ha).
    assert (Ha7 : (a + 7) mod 8 = 7).
    { rewrite <- Z.add_mod_idemp_l by lia. rewrite Hm8. reflexivity. }
    lia.
Qed.

Lemma align_to_8_rounds_up_witness :
  align_to_8 13 mod 8 = 0 /\ 13 <= align_to_8 13 < 13 + 8 /\
  align_to_8 (align_to_8 13) = align_to_8 13.
Proof.
  apply (align_to_8_rounds_up 13). lia.
Defined.

(** ** Creating and reopening a segment (msgq_modern.cc) *)

Lemma resize_bytes_nil n : resize_bytes n [] = replicate n x00.
Proof.
  unfold resize_bytes. rewrite take_nil. cbn [length app].
  rewrite Nat.sub_0_r. reflexivity.
Qed.

Lemma resize_bytes_same n l : length l = n -> resize_bytes n l = l.
Proof.
  intros <-. unfold resize_bytes.
  rewrite firstn_all, Nat.sub_diag. cbn [replicate]. apply app_nil_r.
Qed.



(** Opening an existing segment again with the size it has changes nothing
    in the file system: header, cursors and data bytes are those of the
    first opener. *)
Theorem create_again_same_size name size fs f :
  fs !! Impl.shm_path name = Some f ->
  length (file_data f) = Z.to_nat (align_to_8 size) ->
  sizeof_Header + align_to_8 size < 2 ^ 63 ->
  Queue.create os_ok name size fs
  = Ok (Some (Examples.fresh_impl name (align_to_8 size))) fs.
Proof.
  intros Hf Hlen Hsz.
  pose proof (align_to_8_nonneg size) as Hnn.
  assert (Htot : u64 (sizeof_Header + align_to_8 size)
                 = sizeof_Header + align_to_8 size).
  { apply u64_small. unfold sizeof_Header in *. lia. }
  unfold Queue.create, Impl.new, Impl.init_shared_memory.
  unfold bind, throw_if, modify, ret, os_ok; cbn [open_fails ftruncate_fails mmap_fails].
  rewrite Htot.
  destruct (Z.leb_spec (2 ^ 63) (sizeof_Header + align_to_8 size)) as [Hbad|_];
    [lia |].
  destruct (Z.ltb_spec (sizeof_Header + align_to_8 size) sizeof_Header) as [Hbad|_];
    [lia |].
  cbn [orb]. unfold os_open_creat. rewrite Hf.
  unfold os_ftruncate. rewrite Hf.
  replace (sizeof_Header + align_to_8 size - sizeof_Header)
    with (align_to_8 size) by lia.
  rewrite resize_bytes_same by exact Hlen.
  assert (Hid : set_data (file_data f) f = f) by (destruct f; reflexivity).
  rewrite Hid. rewrite insert_id by exact Hf. reflexivity.
Qed.

Lemma create_again_same_size_witness :
  Queue.create os_ok "q" 64 {[ "/dev/shm/q"%string := Examples.segment_after_A 1 ]}
  = Ok (Some (Examples.fresh_impl "q" 64))
       {[ "/dev/shm/q"%string := Examples.segment_after_A 1 ]}.
Proof.
  apply (create_again_same_size "q" 64 _ (Examples.segment_after_A 1));
    [apply lookup_singleton_eq | reflexivity | vm_compute; reflexivity].
Defined.

(** ** What a send leaves in the segment (msgq_modern.cc) *)

Lemma memcpy_data_Ok_inv i dst src from n f f' :
  Impl.memcpy_data i dst src from n f = Ok tt f' ->
  0 <= dst /\ 0 <= from /\ 0 <= n /\
  from + n <= Z.of_nat (length src) /\
  dst + n <= Z.of_nat (length (file_data f)) /\
  dst + n <= size_ i /\
  f' = set_data (take (Z.to_nat dst) (file_data f)
                 ++ take (Z.to_nat n) (drop (Z.to_nat from) src)
                 ++ drop (Z.to_nat (dst + n)) (file_data f)) f.
Proof.
  unfold Impl.memcpy_data. intros H.
  apply bind_Ok in H as (f0 & s1 & Hget & H). injection Hget as <- <-.
  apply bind_Ok in H as (? & s2 & Hc & H).
  destruct (Z.leb_spec (dst + n) (size_ i)) as [Hmap|]; [| discriminate].
  injection Hc as _ <-.
  apply bind_Ok in H as (d & s3 & Hd & H).
  unfold memcpy in Hd.
  destruct (Z.leb_spec 0 dst); [| discriminate].
  destruct (Z.leb_spec 0 from); [| discriminate].
  destruct (Z.leb_spec 0 n); [| discriminate].
  destruct (Z.leb_spec (from + n) (Z.of_nat (length src))); [| discriminate].
  destruct (Z.leb_spec (dst + n) (Z.of_nat (length (file_data f)))); [| discriminate].
  cbn [andb] in Hd. injection Hd as <- <-. injection H as <-.
  repeat split; assumption.
Qed.

Lemma ring_write_nowrap (d data : list byte) (o : nat) :
  (o + length data <= length d)%nat ->
  let d' := take o d ++ take (length data) (drop 0 data)
            ++ drop (o + length data) d in
  Publisher.read_ring d' o (length data) = data /\ length d' = length d.
Proof.
  intros Hfit. cbv zeta. unfold Publisher.read_ring.
  rewrite drop_0, firstn_all.
  split.
  - rewrite drop_app_length' by (rewrite length_take; lia).
    rewrite <- !app_assoc.
    rewrite take_app_length. reflexivity.
  - rewrite !length_app, length_take, length_drop. lia.
Qed.

Lemma ring_write_wrap (d data : list byte) (o : nat) :
  (o <= length d)%nat -> (length data <= length d)%nat ->
  (length d < o + length data)%nat ->
  let n1 := (length d - o)%nat in
  let d1 := take o d ++ take n1 (drop 0 data) ++ drop (o + n1) d in
  let d2 := take 0 d1 ++ take (length data - n1) (drop n1 data)
            ++ drop (0 + (length data - n1)) d1 in
  Publisher.read_ring d2 o (length data) = data /\ length d2 = length d.
Proof.
  intros Ho Hn Hwrap. cbv zeta. unfold Publisher.read_ring.
  set (n1 := (length d - o)%nat).
  rewrite drop_0.
  replace (o + n1)%nat with (length d) by lia.
  rewrite drop_all, app_nil_r.
  rewrite take_0. cbn [app]. rewrite Nat.add_0_l.
  set (d1 := take o d ++ take n1 data).
  assert (Hd1 : length d1 = length d).
  { unfold d1. rewrite length_app, !length_take. lia. }
  assert (Ht : take (length data - n1) (drop n1 data) = drop n1 data).
  { apply take_ge. rewrite length_drop. lia. }
  rewrite Ht.
  set (n2 := (length data - n1)%nat).
  assert (Hdrop : drop o (drop n1 data ++ drop n2 d1) = take n1 data).
  { rewrite drop_app_ge by (rewrite length_drop; lia).
    rewrite length_drop. rewrite drop_drop.
    replace (n2 + (o - (length data - n1)))%nat with o by lia.
    unfold d1. rewrite drop_app_length' by (rewrite length_take; lia).
    reflexivity. }
  split.
  - rewrite Hdrop. rewrite app_assoc. rewrite take_drop.
    rewrite take_app_length. reflexivity.
  - rewrite length_app, !length_drop. lia.
Qed.

(** A send that returns has stored the payload in the data region at the
    old write offset, continuing at offset 0 when it reaches the end: read
    back around the ring, the bytes are the payload.  The size of the data
    region is unchanged. *)
Theorem send_message_stores_payload i data f f' :
  Impl.send_message i data f = Ok tt f' ->
  Z.of_nat (length (file_data f)) = size_ i ->
  size_ i < 2 ^ 63 ->
  Publisher.read_ring (file_data f')
    (Z.to_nat (PackedPointer.offset (write_index (file_header f))))
    (length data) = data /\
  length (file_data f') = length (file_data f).
Proof.
  unfold Impl.send_message. intros H Hlen Hsz.
  apply bind_Ok in H as ([] & s1 & Hpub & H).
  apply throw_if_Ok in Hpub as [Hpub ->].
  apply bind_Ok in H as ([] & s2 & Hlarge & H).
  apply throw_if_Ok in Hlarge as [Hlarge ->].
  apply Z.ltb_ge in Hlarge.
  apply bind_Ok in H as (w & s3 & Hw & H). injection Hw as <- <-.
  apply bind_Ok in H as ([] & s4 & Hcopy & H).
  apply bind_Ok in H as ([] & s5 & Hz & H).
  destruct (Z.eqb_spec (size_ i) 0) as [|Hnz]; [discriminate |].
  injection Hz as <-. injection H as <-. cbn [file_data set_header].
  pose proof (offset_range (write_index (file_header f))) as Ho.
  set (o := PackedPointer.offset (PackedPointer.of_raw (write_index (file_header f)))) in *.
  change (PackedPointer.offset (write_index (file_header f))) with o.
  change (PackedPointer.offset (write_index (file_header f))) with o in Ho.
  set (n := Z.of_nat (length data)) in *.
  destruct (Z.ltb_spec (size_ i) (u64 (o + n))) as [Hwrap|Hfit].
  - (* wrap around *)
    apply bind_Ok in Hcopy as ([] & s6 & H1 & H2).
    apply memcpy_data_Ok_inv in H1 as (_ & _ & Hn1 & Hsrc1 & _ & Hmap1 & ->).
    apply memcpy_data_Ok_inv in H2 as (_ & _ & Hn2 & Hsrc2 & _ & _ & ->).
    cbn [file_data set_data] in *.
    assert (Hole : o <= size_ i).
    { destruct (Z.le_gt_cases o (size_ i)) as [Hle|Hgt]; [exact Hle |].
      exfalso.
      assert (u64 (size_ i - o) = size_ i - o + 2 ^ 64).
      { unfold u64. symmetry. apply Z.mod_unique with (-1); lia. }
      lia. }
    assert (E1 : u64 (size_ i - o) = size_ i - o) by (apply u64_small; lia).
    rewrite E1 in *.
    assert (E2 : u64 (n - (size_ i - o)) = n - (size_ i - o)).
    { apply u64_small. fold n in Hsrc1. lia. }
    rewrite E2 in *.
    assert (Hsum : u64 (o + n) = o + n).
    { apply u64_small. fold n in Hsrc1. lia. }
    rewrite Hsum in Hwrap.
    pose proof (ring_write_wrap (file_data f) data (Z.to_nat o)
                  ltac:(lia) ltac:(lia) ltac:(lia)) as Hring.
    cbv zeta in Hring.
    replace (Z.to_nat (size_ i - o))
      with (length (file_data f) - Z.to_nat o)%nat by lia.
    replace (Z.to_nat (o + (size_ i - o)))
      with (Z.to_nat o + (length (file_data f) - Z.to_nat o))%nat by lia.
    replace (Z.to_nat (n - (size_ i - o)))
      with (length data - (length (file_data f) - Z.to_nat o))%nat by lia.
    replace (Z.to_nat (0 + (n - (size_ i - o))))
      with (0 + (length data - (length (file_data f) - Z.to_nat o)))%nat by lia.
    change (Z.to_nat 0) with 0%nat.
    exact Hring.
  - (* no wrap *)
    apply memcpy_data_Ok_inv in Hcopy as (_ & _ & _ & _ & Hmem & Hmap & ->).
    cbn [file_data set_data].
    pose proof (ring_write_nowrap (file_data f) data (Z.to_nat o)
                  ltac:(fold n in Hmem; lia)) as Hring.
    cbv zeta in Hring.
    replace (Z.to_nat n) with (length data) by lia.
    replace (Z.to_nat (o + n)) with (Z.to_nat o + length data)%nat by lia.
    change (Z.to_nat 0) with 0%nat.
    exact Hring.
Qed.

(** The third send of scenario S2: 24 bytes written from offset 48 of a
    64-byte region, of which the last 8 land at offset 0. *)
Lemma send_message_stores_payload_witness :
  let i := set_is_publisher true (Examples.fresh_impl "q" 64) in
  let f := {| file_header := set_write_index (PackedPointer.make 2 48) zero_Header;
              file_data := replicate 64 x00 |} in
  let data := replicate 16 "a"%byte ++ replicate 8 "b"%byte in
  exists f',
    Impl.send_message i data f = Ok tt f' /\
    take 8 (file_data f') = replicate 8 "b"%byte /\
    Publisher.read_ring (file_data f') 48 24 = data.
Proof.
  cbv zeta. eexists. split; [vm_compute; reflexivity |].
  split; [reflexivity |].
  apply (send_message_stores_payload
           (set_is_publisher true (Examples.fresh_impl "q" 64))
           (replicate 16 "a"%byte ++ replicate 8 "b"%byte)
           {| file_header := set_write_index (PackedPointer.make 2 48) zero_Header;
              file_data := replicate 64 x00 |});
    vm_compute; reflexivity.
Defined.

(** ** A publisher that keeps sending *)

Lemma memcpy_data_length i dst src from n f f' :
  Impl.memcpy_data i dst src from n f = Ok tt f' ->
  length (file_data f') = length (file_data f).
Proof.
  intros H. apply memcpy_data_Ok_inv in H as (? & ? & ? & ? & ? & ? & ->).
  cbn [file_data set_data].
  rewrite !length_app, !length_take, !length_drop. lia.
Qed.

Lemma send_message_length i data f f' :
  Impl.send_message i data f = Ok tt f' ->
  length (file_data f') = length (file_data f).
Proof.
  unfold Impl.send_message. intros H.
  apply bind_Ok in H as ([] & s1 & Hpub & H).
  apply throw_if_Ok in Hpub as [_ ->].
  apply bind_Ok in H as ([] & s2 & Hlarge & H).
  apply throw_if_Ok in Hlarge as [_ ->].
  apply bind_Ok in H as (w & s3 & Hw & H). injection Hw as <- <-.
  apply bind_Ok in H as ([] & s4 & Hcopy & H).
  apply bind_Ok in H as ([] & s5 & Hz & H).
  destruct (size_ i =? 0); [discriminate |].
  injection Hz as <-. injection H as <-. cbn [file_data set_header].
  destruct (size_ i <? u64 _) in Hcopy.
  - apply bind_Ok in Hcopy as ([] & s6 & H1 & H2).
    apply memcpy_data_length in H1, H2. congruence.
  - apply memcpy_data_length in Hcopy. exact Hcopy.
Qed.

(** A send leaves the write offset inside the segment. *)
Lemma send_message_offset i data f f' :
  0 < size_ i ->
  Impl.send_message i data f = Ok tt f' ->
  PackedPointer.offset (write_index (file_header f')) < size_ i.
Proof.
  intros Hsz H. apply send_message_Ok in H as (_ & _ & _ & ->).
  cbn [write_index set_write_index]. unfold PackedPointer.raw.
  rewrite offset_make.
  set (x := u64 _ mod size_ i).
  pose proof (Z.mod_pos_bound (u64 (PackedPointer.offset (write_index (file_header f))
                                    + Z.of_nat (length data))) (size_ i) Hsz) as Hx.
  fold x in Hx.
  assert (u32 x <= x) by (unfold u32; apply Z.mod_le; lia).
  lia.
Qed.

Lemma u32_add_l a b : u32 (u32 a + b) = u32 (a + b).
Proof. unfold u32. apply Z.add_mod_idemp_l. lia. Qed.

(** Whatever the readers do, a publisher whose segment is mapped in full
    sends every message of a sequence, each of at most [size_] bytes: no
    send waits for a reader or fails.  The cycle counter has then counted
    the sends, and the readers' cursors and the reader count are as they
    were. *)
Theorem send_all_succeeds i msgs f :
  is_publisher_ i = true ->
  0 < size_ i < 2 ^ 63 ->
  size_ i <= Z.of_nat (length (file_data f)) ->
  PackedPointer.offset (write_index (file_header f)) <= size_ i ->
  Forall (fun m => Z.of_nat (length m) <= size_ i) msgs ->
  exists f',
    Publisher.send_all i msgs f = Ok tt f' /\
    PackedPointer.cycle (write_index (file_header f'))
    = u32 (PackedPointer.cycle (write_index (file_header f))
           + Z.of_nat (length msgs)) /\
    read_index (file_header f') = read_index (file_header f) /\
    num_readers (file_header f') = num_readers (file_header f).
Proof.
  intros Hpub Hsz Hfile Hoff Hmsgs. revert f Hfile Hoff.
  induction Hmsgs as [|m msgs Hm _ IH]; intros f Hfile Hoff.
  - exists f. split; [reflexivity |].
    split; [| split; reflexivity].
    cbn [length]. rewrite Z.add_0_r.
    unfold PackedPointer.cycle. unfold u32. rewrite Z.mod_mod by lia. reflexivity.
  - destruct (send_message_accepts i m f Hpub Hsz Hfile Hoff Hm) as (f1 & E1).
    pose proof (send_message_length _ _ _ _ E1) as Hlen.
    pose proof (send_message_offset i m f f1 ltac:(lia) E1) as Hoff1.
    pose proof (send_message_Ok _ _ _ _ E1) as (_ & _ & _ & Hhdr).
    destruct (IH f1 ltac:(lia) ltac:(lia)) as (f' & E & Hc & Hr & Hn).
    exists f'. split.
    + cbn [Publisher.send_all]. unfold bind. rewrite E1. exact E.
    + rewrite Hc, Hr, Hn, Hhdr.
      cbn [write_index read_index num_readers set_write_index].
      unfold PackedPointer.raw. rewrite cycle_make.
      split; [| split; reflexivity].
      rewrite u32_add_l. f_equal. cbn [length]. lia.
Qed.

(** Three messages on a segment of 64 bytes, the last one of full size. *)
Lemma send_all_succeeds_witness :
  exists f',
    Publisher.send_all (set_is_publisher true (Examples.fresh_impl "q" 64))
      [replicate 24 x00; replicate 24 x01; replicate 64 x02]
      (Examples.fresh_segment 64) = Ok tt f' /\
    PackedPointer.cycle (write_index (file_header f')) = 3.
Proof.
  destruct (send_all_succeeds
              (set_is_publisher true (Examples.fresh_impl "q" 64))
              [replicate 24 x00; replicate 24 x01; replicate 64 x02]
              (Examples.fresh_segment 64))
    as (f' & E & Hc & _).
  - reflexivity.
  - vm_compute. split; reflexivity.
  - vm_compute. discriminate.
  - vm_compute. discriminate.
  - repeat constructor; vm_compute; discriminate.
  - exists f'. split; [exact E | exact Hc].
Defined.

(** ** Readers and the write cursor *)

Lemma u32_succ_ne c : 0 <= c < 2 ^ 32 -> u32 (c + 1) <> c.
Proof.
  intros Hc. unfold u32.
  destruct (Z.eq_dec c (2 ^ 32 - 1)) as [-> | Hne].
  - vm_compute. discriminate.
  - rewrite Z.mod_small by lia. lia.
Qed.

(** A send that returns has moved the write cursor to a new value. *)
Lemma send_message_moves_cursor i data f f' :
  Impl.send_message i data f = Ok tt f' ->
  write_index (file_header f') <> write_index (file_header f).
Proof.
  intros H Heq. apply send_message_Ok in H as (_ & _ & _ & Hhdr).
  rewrite Hhdr in Heq. cbn [write_index set_write_index] in Heq.
  unfold PackedPointer.raw in Heq.
  assert (Hc : PackedPointer.cycle
                 (PackedPointer.make
                    (PackedPointer.cycle (write_index (file_header f)) + 1)
                    (u64 (PackedPointer.offset (write_index (file_header f))
                          + Z.of_nat (length data)) mod size_ i))
               = PackedPointer.cycle (write_index (file_header f)))
    by (rewrite Heq; reflexivity).
  rewrite cycle_make in Hc.
  apply (u32_succ_ne (PackedPointer.cycle (write_index (file_header f)))).
  - apply u32_range.
  - exact Hc.
Qed.

(** Every send that returns is seen by every reader that had caught up:
    its [msg_ready] is true afterwards, whatever the payload, an empty one
    included. *)
Theorem send_makes_reader_ready pub data f f' sub :
  Impl.send_message pub data f = Ok tt f' ->
  load_read_index (reader_id_ sub) (file_header f)
  = Some (write_index (file_header f)) ->
  Queue.msg_ready {| impl_ := Some sub; segment := f' |}
  = Ok true {| impl_ := Some sub; segment := f' |}.
Proof.
  intros Hsend Hload.
  pose proof (send_message_moves_cursor _ _ _ _ Hsend) as Hne.
  apply send_message_Ok in Hsend as (_ & _ & _ & Hhdr).
  unfold Queue.msg_ready, bind, get; cbn [impl_ segment].
  unfold Queue.msg_ready_subscript.
  assert (Hload' : load_read_index (reader_id_ sub) (file_header f')
                   = Some (write_index (file_header f))).
  { rewrite Hhdr. exact Hload. }
  rewrite Hload'. unfold defined, ret, PackedPointer.neqb, PackedPointer.of_raw.
  destruct (Z.eqb_spec (write_index (file_header f)) (write_index (file_header f')))
    as [Heq|_]; [congruence | reflexivity].
Qed.

(** A reader at the cursor (0, 0) of a new segment and an empty message. *)
Lemma send_makes_reader_ready_witness :
  exists f',
    Impl.send_message (set_is_publisher true (Examples.fresh_impl "q" 64)) []
                      (Examples.fresh_segment 64) = Ok tt f' /\
    Queue.msg_ready {| impl_ := Some (set_reader_id 0 (Examples.fresh_impl "q" 64));
                       segment := f' |}
    = Ok true {| impl_ := Some (set_reader_id 0 (Examples.fresh_impl "q" 64));
                 segment := f' |}.
Proof.
  eexists. split; [vm_compute; reflexivity |].
  apply (send_makes_reader_ready
           (set_is_publisher true (Examples.fresh_impl "q" 64)) []
           (Examples.fresh_segment 64) _
           (set_reader_id 0 (Examples.fresh_impl "q" 64)));
    vm_compute; reflexivity.
Defined.

Lemma load_store_read_index i v h h' :
  store_read_index i v h = Some h' ->
  load_read_index i h' = Some v /\
  write_index h' = write_index h /\
  num_readers h' = num_readers h /\
  (forall j, j <> i -> load_read_index j h' = load_read_index j h).
Proof.
  unfold store_read_index, load_read_index.
  destruct (Z.leb_spec 0 i) as [H0|]; [| discriminate].
  destruct (Z.ltb_spec i NUM_READERS) as [H15|]; [| discriminate].
  cbn [andb].
  destruct (Nat.ltb_spec (Z.to_nat i) (length (read_index h))) as [Hlen|];
    [| discriminate].
  intros H. injection H as <-. cbn [read_index write_index num_readers set_read_index].
  split; [apply list_lookup_insert_eq; exact Hlen |].
  split; [reflexivity |]. split; [reflexivity |].
  intros j Hj.
  destruct ((0 <=? j) && (j <? NUM_READERS)) eqn:Hr; [| reflexivity].
  apply andb_true_iff in Hr as [Hj0 Hj15].
  apply Z.leb_le in Hj0.
  apply list_lookup_insert_ne. lia.
Qed.

(** A receive that returns leaves the reader at the write cursor, so that
    its [msg_ready] is false; it touches neither the write cursor, nor the
    reader count, nor the data, nor the cursor of any other reader. *)
Theorem receive_message_catches_up i timeout_ms conflate f m f' :
  Impl.receive_message i timeout_ms conflate f = Ok m f' ->
  load_read_index (reader_id_ i) (file_header f')
  = Some (write_index (file_header f')) /\
  Queue.msg_ready {| impl_ := Some i; segment := f' |}
  = Ok false {| impl_ := Some i; segment := f' |} /\
  write_index (file_header f') = write_index (file_header f) /\
  num_readers (file_header f') = num_readers (file_header f) /\
  file_data f' = file_data f /\
  (forall j, j <> reader_id_ i ->
             load_read_index j (file_header f') = load_read_index j (file_header f)).
Proof.
  unfold Impl.receive_message. intros H.
  apply bind_Ok in H as ([] & s1 & Hsub & H).
  apply throw_if_Ok in Hsub as [_ ->].
  apply bind_Ok in H as (f0 & s2 & Hget & H). injection Hget as <- <-.
  apply bind_Ok in H as (r & s3 & Hr & H).
  destruct (load_read_index (reader_id_ i) (file_header f)) as [r0|] eqn:Hload;
    [| discriminate].
  injection Hr as <- <-.
  assert (Hready : forall g,
            load_read_index (reader_id_ i) (file_header g)
            = Some (write_index (file_header g)) ->
            Queue.msg_ready {| impl_ := Some i; segment := g |}
            = Ok false {| impl_ := Some i; segment := g |}).
  { intros g Hg. unfold Queue.msg_ready, bind, get; cbn [impl_ segment].
    unfold Queue.msg_ready_subscript. rewrite Hg.
    unfold defined, ret, PackedPointer.neqb, PackedPointer.of_raw.
    rewrite Z.eqb_refl. reflexivity. }
  unfold PackedPointer.eqb, PackedPointer.of_raw in H.
  destruct (Z.eqb_spec r0 (write_index (file_header f))) as [-> | Hne].
  - injection H as _ <-.
    split; [exact Hload |]. split; [apply Hready; exact Hload |].
    repeat split; reflexivity.
  - apply bind_Ok in H as (h & s4 & Hh & H).
    destruct (store_read_index (reader_id_ i) _ (file_header f)) as [h0|] eqn:Hstore;
      [| discriminate].
    injection Hh as <- <-.
    apply bind_Ok in H as ([] & s5 & Hput & H).
    injection Hput as <-. injection H as _ <-.
    cbn [file_header file_data set_header].
    unfold PackedPointer.raw in Hstore.
    apply load_store_read_index in Hstore as (Hl & Hw & Hn & Hother).
    assert (Hl' : load_read_index (reader_id_ i) h0 = Some (write_index h0))
      by (rewrite Hw; exact Hl).
    split; [exact Hl' |].
    split; [apply (Hready {| file_header := h0; file_data := file_data f |}); exact Hl' |].
    split; [exact Hw |]. split; [exact Hn |]. split; [reflexivity |].
    exact Hother.
Qed.

(** The second reader of a segment on which one message was sent. *)
Lemma receive_message_catches_up_witness :
  let i := set_reader_id 1 (Examples.fresh_impl "q" 64) in
  exists f',
    Impl.receive_message i 100 false (Examples.segment_after_A 2) = Ok [] f' /\
    read_index (file_header f') = 0 :: PackedPointer.make 1 1 :: replicate 13 0 /\
    Queue.msg_ready {| impl_ := Some i; segment := f' |}
    = Ok false {| impl_ := Some i; segment := f' |}.
Proof.
  cbv zeta. eexists. split; [vm_compute; reflexivity |].
  split; [reflexivity |].
  apply (receive_message_catches_up
           (set_reader_id 1 (Examples.fresh_impl "q" 64)) 100 false
           (Examples.segment_after_A 2) []).
  vm_compute; reflexivity.
Defined.

Lemma receive_message_Ok_slot i timeout_ms conflate f m f' :
  Impl.receive_message i timeout_ms conflate f = Ok m f' ->
  load_read_index (reader_id_ i) (file_header f')
  = Some (write_index (file_header f')) /\
  num_readers (file_header f') = num_readers (file_header f).
Proof.
  unfold Impl.receive_message. intros H.
  apply bind_Ok in H as ([] & s1 & Hsub & H).
  apply throw_if_Ok in Hsub as [_ ->].
  apply bind_Ok in H as (f0 & s2 & Hget & H). injection Hget as <- <-.
  apply bind_Ok in H as (r & s3 & Hr & H).
  destruct (load_read_index (reader_id_ i) (file_header f)) as [r0|] eqn:Hload;
    [| discriminate].
  injection Hr as <- <-.
  unfold PackedPointer.eqb, PackedPointer.of_raw in H.
  destruct (Z.eqb_spec r0 (write_index (file_header f))) as [-> | Hne].
  - injection H as _ <-. split; [exact Hload | reflexivity].
  - apply bind_Ok in H as (h & s4 & Hh & H).
    destruct (store_read_index (reader_id_ i) _ (file_header f)) as [h0|] eqn:Hstore;
      [| discriminate].
    injection Hh as <- <-.
    apply bind_Ok in H as ([] & s5 & Hput & H).
    injection Hput as <-. injection H as _ <-.
    cbn [file_header set_header].
    unfold PackedPointer.raw in Hstore.
    apply load_store_read_index in Hstore as (Hl & Hw & Hn & _).
    split; [rewrite Hw; exact Hl | exact Hn].
Qed.

(** One publisher and the one reader of a segment, the reader caught up:
    after a send [all_readers_updated] is false, and after the reader's next
    receive it is true again. *)
Theorem publish_then_read pub sub data timeout_ms conflate f f1 m f2 :
  num_readers (file_header f) = 1 ->
  reader_id_ sub = 0 ->
  load_read_index 0 (file_header f) = Some (write_index (file_header f)) ->
  Impl.send_message pub data f = Ok tt f1 ->
  Impl.receive_message sub timeout_ms conflate f1 = Ok m f2 ->
  Queue.all_readers_updated {| impl_ := Some pub; segment := f1 |}
  = Ok false {| impl_ := Some pub; segment := f1 |} /\
  Queue.all_readers_updated {| impl_ := Some pub; segment := f2 |}
  = Ok true {| impl_ := Some pub; segment := f2 |}.
Proof.
  intros Hn Hid Hload Hsend Hrecv.
  pose proof (send_message_moves_cursor _ _ _ _ Hsend) as Hmoved.
  apply send_message_Ok in Hsend as (_ & _ & _ & Hhdr).
  assert (Hn1 : num_readers (file_header f1) = 1) by (rewrite Hhdr; exact Hn).
  assert (Hl1 : load_read_index 0 (file_header f1) = Some (write_index (file_header f)))
    by (rewrite Hhdr; exact Hload).
  apply receive_message_Ok_slot in Hrecv as (Hl2 & Hn2).
  rewrite Hid in Hl2.
  split.
  - unfold Queue.all_readers_updated, bind, get; cbn [impl_ segment].
    rewrite Hn1. change (Z.to_nat 1) with 1%nat.
    cbn [Queue.all_readers_updated_from]. rewrite Hl1.
    destruct (Z.eqb_spec (write_index (file_header f)) (write_index (file_header f1)))
      as [Heq|_]; [congruence | reflexivity].
  - unfold Queue.all_readers_updated, bind, get; cbn [impl_ segment].
    rewrite Hn2, Hn1. change (Z.to_nat 1) with 1%nat.
    cbn [Queue.all_readers_updated_from]. rewrite Hl2.
    rewrite Z.eqb_refl. reflexivity.
Qed.

(** Scenario S1 continued: the message "A", then the reader's receive. *)
Lemma publish_then_read_witness :
  let pub := set_is_publisher true (Examples.fresh_impl "q" 64) in
  let sub := set_reader_id 0 (Examples.fresh_impl "q" 64) in
  let f := set_header (set_num_readers 1 zero_Header) (Examples.fresh_segment 64) in
  exists f2,
    Impl.send_message pub ["A"%byte] f = Ok tt (Examples.segment_after_A 1) /\
    Impl.receive_message sub 100 false (Examples.segment_after_A 1) = Ok [] f2 /\
    Queue.all_readers_updated {| impl_ := Some pub; segment := Examples.segment_after_A 1 |}
    = Ok false {| impl_ := Some pub; segment := Examples.segment_after_A 1 |} /\
    Queue.all_readers_updated {| impl_ := Some pub; segment := f2 |}
    = Ok true {| impl_ := Some pub; segment := f2 |}.
Proof.
  cbv zeta. eexists.
  split; [vm_compute; reflexivity |].
  split; [vm_compute; reflexivity |].
  apply (publish_then_read
           (set_is_publisher true (Examples.fresh_impl "q" 64))
           (set_reader_id 0 (Examples.fresh_impl "q" 64))
           ["A"%byte] 100 false
           (set_header (set_num_readers 1 zero_Header) (Examples.fresh_segment 64))
           (Examples.segment_after_A 1) []);
    vm_compute; reflexivity.
Defined.

(** ** Slots of successive subscribers *)

Lemma init_subscriber_slot conflate q f s' :
  Queue.init_subscriber conflate {| impl_ := q; segment := f |} = Ok tt s' ->
  exists impl impl',
    q = Some impl /\ impl_ s' = Some impl' /\
    reader_id_ impl' = num_readers (file_header (segment s')) - 1 /\
    0 <= reader_id_ impl' < NUM_READERS /\
    u32 (num_readers (file_header f)) = reader_id_ impl'.
Proof.
  unfold Queue.init_subscriber. intros H.
  apply bind_Ok in H as (s0 & s1 & Hget & H). injection Hget as <- <-.
  cbn [impl_ segment] in H.
  destruct q as [impl|]; [| discriminate].
  apply bind_Ok in H as ([] & s2 & Hput & H). injection Hput as <-.
  apply throw_if_Ok in H as [Hchk ->].
  cbn [reader_id_ set_reader_id] in Hchk.
  apply slot_check in Hchk as [Hid Hrange].
  exists impl, (set_reader_id (to_int (num_readers (file_header f))) impl).
  split; [reflexivity |]. split; [reflexivity |].
  cbn [impl_ segment file_header set_header num_readers set_num_readers
       reader_id_ set_reader_id].
  rewrite Hid.
  assert (Hs : u32 (num_readers (file_header f) + 1)
               = u32 (num_readers (file_header f)) + 1).
  { rewrite <- u32_add_l. apply u32_small. unfold NUM_READERS in Hrange. lia. }
  rewrite Hs. repeat split; lia.
Qed.

(** Two queues that join the same segment one after the other get two
    different slots, the second the one next to the first. *)
Theorem subscribers_get_distinct_slots c1 c2 q1 q2 f s1 s2 :
  Queue.init_subscriber c1 {| impl_ := q1; segment := f |} = Ok tt s1 ->
  Queue.init_subscriber c2 {| impl_ := q2; segment := segment s1 |} = Ok tt s2 ->
  exists i1 i2,
    impl_ s1 = Some i1 /\ impl_ s2 = Some i2 /\
    reader_id_ i2 = reader_id_ i1 + 1.
Proof.
  intros H1 H2.
  apply init_subscriber_slot in H1 as (a1 & i1 & _ & Hi1 & Hn1 & Hr1 & _).
  apply init_subscriber_slot in H2 as (a2 & i2 & _ & Hi2 & _ & Hr2 & Hu2).
  exists i1, i2. split; [exact Hi1 |]. split; [exact Hi2 |].
  rewrite <- Hu2.
  replace (num_readers (file_header (segment s1))) with (reader_id_ i1 + 1) by lia.
  apply u32_small. unfold NUM_READERS in Hr1. lia.
Qed.

Lemma subscribers_get_distinct_slots_witness :
  exists s1 s2 i1 i2,
    Queue.init_subscriber false
      {| impl_ := Some (Examples.fresh_impl "q" 64);
         segment := Examples.fresh_segment 64 |} = Ok tt s1 /\
    Queue.init_subscriber false
      {| impl_ := Some (Examples.fresh_impl "q" 64); segment := segment s1 |}
    = Ok tt s2 /\
    impl_ s1 = Some i1 /\ impl_ s2 = Some i2 /\
    reader_id_ i2 = reader_id_ i1 + 1.
Proof.
  eexists _, _.
  assert (H1 : Queue.init_subscriber false
      {| impl_ := Some (Examples.fresh_impl "q" 64);
         segment := Examples.fresh_segment 64 |}
      = Ok tt {| impl_ := Some (set_reader_id 0 (Examples.fresh_impl "q" 64));
                 segment := set_header (set_num_readers 1 zero_Header)
                                       (Examples.fresh_segment 64) |})
    by (vm_compute; reflexivity).
  assert (H2 : Queue.init_subscriber false
      {| impl_ := Some (Examples.fresh_impl "q" 64);
         segment := segment
                      {| impl_ := Some (set_reader_id 0 (Examples.fresh_impl "q" 64));
                         segment := set_header (set_num_readers 1 zero_Header)
                                       (Examples.fresh_segment 64) |} |}
      = Ok tt {| impl_ := Some (set_reader_id 1 (Examples.fresh_impl "q" 64));
                 segment := set_header (set_num_readers 2 zero_Header)
                                       (Examples.fresh_segment 64) |})
    by (vm_compute; reflexivity).
  destruct (subscribers_get_distinct_slots _ _ _ _ _ _ _ H1 H2)
    as (i1 & i2 & E1 & E2 & Hid).
  exists i1, i2.
  split; [exact H1 |]. split; [exact H2 |].
  split; [exact E1 |]. split; [exact E2 | exact Hid].
Defined.

(** A queue that has just been created has no role yet: whatever segment it
    is used on, [send] fails with "Not initialized as publisher" and [recv]
    with "Not initialized as subscriber", nothing being changed; making it a
    publisher does not make it a reader. *)
Theorem created_queue_has_no_role env name size fs q fs' f data timeout_ms conflate :
  Queue.create env name size fs = Ok q fs' ->
  Queue.send data {| impl_ := q; segment := f |}
  = Throw NotPublisher {| impl_ := q; segment := f |} /\
  Queue.recv timeout_ms conflate {| impl_ := q; segment := f |}
  = Throw NotSubscriber {| impl_ := q; segment := f |} /\
  exists s,
    Queue.init_publisher {| impl_ := q; segment := f |} = Ok tt s /\
    Queue.recv timeout_ms conflate s = Throw NotSubscriber s.
Proof.
  unfold Queue.create, Impl.new. intros H.
  apply bind_Ok in H as (impl & s1 & Hnew & H).
  injection H as <- <-.
  apply bind_Ok in Hnew as ([] & s2 & _ & Hret).
  injection Hret as <- _.
  split; [reflexivity |]. split; [reflexivity |].
  eexists. split; reflexivity.
Qed.

Lemma created_queue_has_no_role_witness :
  let s := {| impl_ := Some (Examples.fresh_impl "q" 64);
              segment := Examples.fresh_segment 64 |} in
  Queue.send ["A"%byte] s = Throw NotPublisher s /\
  Queue.recv 100 false s = Throw NotSubscriber s.
Proof.
  cbv zeta.
  destruct (created_queue_has_no_role os_ok "q" 64 ∅
              (Some (Examples.fresh_impl "q" 64))
              {[ "/dev/shm/q"%string := Examples.fresh_segment 64 ]}
              (Examples.fresh_segment 64) ["A"%byte] 100 false
              ltac:(vm_refl)) as (Hs & Hr & _).
  split; [exact Hs | exact Hr].
Defined.

(** ** Events (event_modern.h) *)

(** A set followed by a clear: the clear returns the count the set has
    brought the counter to and leaves the event unsignaled, so that a second
    clear fails with "Failed to clear event". *)
Theorem set_then_clear e w c :
  0 <= e -> w !! e = Some c -> 0 <= c -> c + 1 <= Poll.EVENTFD_MAX ->
  (Event.set e ;;; Event.clear e) w = Ok (to_int (c + 1)) (<[e := 0]> w) /\
  (Event.set e ;;; Event.clear e ;;; Event.clear e) w
  = Throw FailedToClearEvent (<[e := 0]> w).
Proof.
  intros He Hl Hc Hmax.
  assert (Hv : forall w0 : Fds, Event.validate e w0 = Ok tt w0).
  { intros w0. unfold Event.validate.
    destruct (Z.ltb_spec e 0); [lia | reflexivity]. }
  assert (Hset : Event.set e w = Ok tt (<[e := c + 1]> w)).
  { unfold Event.set, bind, get. rewrite Hv.
    unfold Poll.write_one. rewrite Hl.
    destruct (Z.leb_spec (c + 1) Poll.EVENTFD_MAX); [reflexivity | lia]. }
  assert (Hclear : Event.clear e (<[e := c + 1]> w)
                   = Ok (to_int (c + 1)) (<[e := 0]> w)).
  { unfold Event.clear, bind, get. rewrite Hv.
    unfold Poll.read_counter. rewrite lookup_insert_eq.
    destruct (Z.ltb_spec 0 (c + 1)); [| lia].
    unfold put, ret. rewrite insert_insert_eq. reflexivity. }
  assert (Hclear2 : Event.clear e (<[e := 0]> w)
                    = Throw FailedToClearEvent (<[e := 0]> w)).
  { unfold Event.clear, bind, get. rewrite Hv.
    unfold Poll.read_counter. rewrite lookup_insert_eq. reflexivity. }
  split.
  - unfold bind. rewrite Hset. exact Hclear.
  - unfold bind. rewrite Hset, Hclear. exact Hclear2.
Qed.

Lemma set_then_clear_witness :
  (Event.set 4 ;;; Event.clear 4) {[ 3 := 0; 4 := 2 ]} = Ok 3 {[ 3 := 0; 4 := 0 ]}.
Proof.
  pose proof (set_then_clear 4 {[ 3 := 0; 4 := 2 ]} 2
                ltac:(lia) ltac:(vm_refl) ltac:(lia) ltac:(vm_compute; discriminate))
    as [H _].
  rewrite H. vm_refl.
Defined.

(** A wait on a signaled event returns at once, whatever the deadline and
    whatever the other processes do, and does not consume the event: it is
    still signaled afterwards. *)
Theorem wait_signaled e w timeout_sec env :
  0 <= e -> signaled w e = true ->
  Event.wait e timeout_sec env w = Ok tt w /\
  (Event.wait e timeout_sec env ;;; Event.wait e timeout_sec env) w = Ok tt w.
Proof.
  intros He Hs.
  pose proof (wait_on_signaled e w timeout_sec env He Hs) as Hw.
  split; [exact Hw |].
  unfold bind. rewrite Hw. exact Hw.
Qed.

Lemma wait_signaled_witness :
  Event.wait 4 (-1) Quiet {[ 4 := 1 ]} = Ok tt {[ 4 := 1 ]}.
Proof.
  apply (wait_signaled 4 {[ 4 := 1 ]} (-1) Quiet); [lia | vm_refl].
Defined.

Lemma wait_on_unsignaled e w timeout_sec :
  0 <= e -> w !! e = Some 0 ->
  (0 <= timeout_sec -> Event.wait e timeout_sec Quiet w = Throw EventTimedOut w) /\
  (timeout_sec < 0 -> Event.wait e timeout_sec Quiet w = Blocked) /\
  (timeout_sec <> 0 -> Event.wait e timeout_sec Signal w = Throw EventPollFailed w).
Proof.
  intros He Hl.
  assert (Hcount : Poll.count_ready
            (Poll.scan w [{| Poll.fd := e; Poll.events := Poll.POLLIN;
                             Poll.revents := 0 |}]) = 0).
  { rewrite count_ready_one by exact He. rewrite Hl. reflexivity. }
  assert (Hstart : forall env,
    Event.wait e timeout_sec env w
    = (r <- Poll.ppoll [{| Poll.fd := e; Poll.events := Poll.POLLIN; Poll.revents := 0 |}]
                       (if timeout_sec <? 0 then None else Some timeout_sec) env ;;
       if fst r =? 0 then throw EventTimedOut
       else if fst r <? 0 then throw EventPollFailed else ret tt) w).
  { intros env. unfold Event.wait, Event.validate.
    destruct (Z.ltb_spec e 0) as [|_]; [lia |].
    unfold bind at 1. rewrite throw_if_false. reflexivity. }
  split; [| split].
  - intros Ht. rewrite Hstart. unfold bind, Poll.ppoll, bind, get.
    rewrite Hcount. cbn [Z.ltb Z.compare].
    destruct (Z.ltb_spec timeout_sec 0) as [|_]; [lia |].
    destruct (bool_decide (Some timeout_sec = Some 0)); reflexivity.
  - intros Ht. rewrite Hstart. unfold bind, Poll.ppoll, bind, get.
    rewrite Hcount. cbn [Z.ltb Z.compare].
    destruct (Z.ltb_spec timeout_sec 0) as [_|]; [| lia].
    rewrite bool_decide_eq_false_2 by discriminate. reflexivity.
  - intros Ht. rewrite Hstart. unfold bind, Poll.ppoll, bind, get.
    rewrite Hcount. cbn [Z.ltb Z.compare].
    destruct (Z.ltb_spec timeout_sec 0).
    + rewrite bool_decide_eq_false_2 by discriminate. reflexivity.
    + rewrite bool_decide_eq_false_2 by congruence. reflexivity.
Qed.

(** A wait on an open, unsignaled event while nothing happens: with a
    deadline it fails with "Event timed out", without one it never returns.
    A signal delivered during the wait makes it fail with "Event poll
    failed".  In no case is the counter changed. *)
Theorem wait_unsignaled e w timeout_sec :
  0 <= e -> w !! e = Some 0 ->
  (0 <= timeout_sec -> Event.wait e timeout_sec Quiet w = Throw EventTimedOut w) /\
  (timeout_sec < 0 -> Event.wait e timeout_sec Quiet w = Blocked) /\
  (timeout_sec <> 0 -> Event.wait e timeout_sec Signal w = Throw EventPollFailed w).
Proof. exact (wait_on_unsignaled e w timeout_sec). Qed.

Lemma wait_unsignaled_witness :
  Event.wait 4 2 Quiet {[ 4 := 0 ]} = Throw EventTimedOut {[ 4 := 0 ]} /\
  Event.wait 4 (-1) Quiet {[ 4 := 0 ]} = Blocked.
Proof.
  destruct (wait_unsignaled 4 {[ 4 := 0 ]} 2 ltac:(lia) ltac:(vm_refl)) as (H1 & _ & _).
  destruct (wait_unsignaled 4 {[ 4 := 0 ]} (-1) ltac:(lia) ltac:(vm_refl)) as (_ & H2 & _).
  split; [apply H1; lia | apply H2; lia].
Defined.

(** On an open descriptor [peek] tells whether the event is signaled, and
    changes nothing. *)
Theorem peek_signaled e w c :
  0 <= e -> w !! e = Some c ->
  Event.peek e w = Ok (signaled w e) w.
Proof.
  intros He Hl. unfold Event.peek.
  destruct (Z.ltb_spec e 0) as [|_]; [lia |].
  unfold bind, Poll.ppoll, bind, get.
  rewrite count_ready_one by exact He.
  unfold signaled. rewrite Hl.
  destruct (0 <? c); reflexivity.
Qed.

Lemma peek_signaled_witness :
  Event.peek 4 {[ 4 := 1 ]} = Ok true {[ 4 := 1 ]} /\
  Event.peek 4 {[ 4 := 0 ]} = Ok false {[ 4 := 0 ]}.
Proof.
  split.
  - rewrite (peek_signaled 4 {[ 4 := 1 ]} 1 ltac:(lia) ltac:(vm_refl)). vm_refl.
  - rewrite (peek_signaled 4 {[ 4 := 0 ]} 0 ltac:(lia) ltac:(vm_refl)). vm_refl.
Defined.

(** Three valid events of which the last two are signaled. *)
Lemma wait_for_one_valid_witness :
  Event.wait_for_one [3; 4; 5] (-1) Quiet {[ 3 := 0; 4 := 2; 5 := 1 ]}
  = Ok 1 {[ 3 := 0; 4 := 2; 5 := 1 ]}.
Proof.
  apply (wait_for_one_valid {[ 3 := 0; 4 := 2; 5 := 1 ]} [3; 4; 5] (-1) Quiet 1).
  - repeat constructor.
  - vm_refl.
  - lia.
Defined.

Lemma first_pollin_range ps i0 i :
  Event.first_pollin ps i0 = Some i -> i0 <= i < i0 + Z.of_nat (length ps).
Proof.
  revert i0. induction ps as [|p ps IH]; intros i0 H; [discriminate |].
  cbn [Event.first_pollin] in H. cbn [length].
  destruct (negb _).
  - injection H as ->. lia.
  - apply IH in H. lia.
Qed.

Lemma scan_length w ps : length (Poll.scan w ps) = length ps.
Proof. unfold Poll.scan. apply length_map. Qed.

Lemma ppoll_Ok_length ps timeout env w r w' :
  Poll.ppoll ps timeout env w = Ok r w' -> length (snd r) = length ps.
Proof.
  unfold Poll.ppoll, bind, get, ret, blocked, put. intros H.
  destruct (0 <? Poll.count_ready (Poll.scan w ps)).
  { injection H as <- _. apply scan_length. }
  destruct (bool_decide (timeout = Some 0)).
  { injection H as <- _. apply scan_length. }
  destruct env as [| |w1].
  - destruct timeout; [| discriminate]. injection H as <- _. apply scan_length.
  - injection H as <- _. reflexivity.
  - destruct (0 <? Poll.count_ready (Poll.scan w1 ps)).
    + injection H as <- _. apply scan_length.
    + destruct timeout; [| discriminate]. injection H as <- _. apply scan_length.
Qed.

(** The index that [wait_for_one] returns is a position in the array of the
    valid events: it is never negative and never reaches the number of valid
    events of the caller's list. *)
Theorem wait_for_one_index_in_range events timeout_sec env w i w' :
  Z.of_nat (length events) < 2 ^ 31 ->
  Event.wait_for_one events timeout_sec env w = Ok i w' ->
  0 <= i < Z.of_nat (length (filter (fun e => Event.is_valid e = true) events)) /\
  i < Z.of_nat (length events).
Proof.
  intros Hlen H. unfold Event.wait_for_one in H.
  apply bind_Ok in H as ([] & s1 & _ & H).
  apply bind_Ok in H as ([] & s2 & _ & H).
  apply bind_Ok in H as (r & s3 & Hp & H).
  apply ppoll_Ok_length in Hp. rewrite length_map in Hp.
  destruct (fst r =? 0); [discriminate |].
  destruct (fst r <? 0); [discriminate |].
  destruct (Event.first_pollin (snd r) 0) as [k|] eqn:Hk; [| discriminate].
  injection H as <- _.
  apply first_pollin_range in Hk. rewrite Hp in Hk.
  pose proof (length_filter (fun e => Event.is_valid e = true) events) as Hf.
  assert (Hti : to_int k = k).
  { unfold to_int. rewrite u32_small by lia. cbv zeta.
    destruct (Z.ltb_spec k (2 ^ 31)); [reflexivity | lia]. }
  rewrite Hti. lia.
Qed.

Lemma wait_for_one_index_in_range_witness :
  Event.wait_for_one [-1; 3; -1; 5] (-1) Quiet {[ 3 := 0; 5 := 1 ]}
  = Ok 1 {[ 3 := 0; 5 := 1 ]} /\
  0 <= 1 < Z.of_nat (length (filter (fun e => Event.is_valid e = true) [-1; 3; -1; 5])).
Proof.
  assert (H : Event.wait_for_one [-1; 3; -1; 5] (-1) Quiet {[ 3 := 0; 5 := 1 ]}
              = Ok 1 {[ 3 := 0; 5 := 1 ]}) by vm_refl.
  split; [exact H |].
  apply (wait_for_one_index_in_range [-1; 3; -1; 5] (-1) Quiet
           {[ 3 := 0; 5 := 1 ]} 1 {[ 3 := 0; 5 := 1 ]});
    [vm_compute; reflexivity | exact H].
Defined.

Lemma filter_valid_none (events : list Z) :
  Forall (fun e => e < 0) events ->
  filter (fun event => Event.is_valid event = true) events = [].
Proof.
  induction 1 as [|e events He _ IH]; [reflexivity |].
  rewrite filter_cons_False; [exact IH |].
  unfold Event.is_valid. intros Hv. apply Z.leb_le in Hv. lia.
Qed.

(** Without any valid event [wait_for_one] does not poll: an empty list is
    refused with "No events to wait for", a list of invalid events with
    "All events are invalid". *)
Theorem wait_for_one_nothing_to_wait_for events timeout_sec env w :
  Forall (fun e => e < 0) events ->
  Event.wait_for_one events timeout_sec env w
  = Throw (match events with
           | [] => NoEventsToWaitFor
           | _ => AllEventsInvalid
           end) w.
Proof.
  intros Hinv. unfold Event.wait_for_one.
  rewrite (filter_valid_none events Hinv). cbn [map].
  destruct events as [|e events].
  - reflexivity.
  - unfold bind at 1. rewrite bool_decide_eq_false_2 by discriminate.
    rewrite throw_if_false. reflexivity.
Qed.

Lemma wait_for_one_nothing_to_wait_for_witness :
  Event.wait_for_one [Event.default; Event.default] 1 Quiet {[ 3 := 1 ]}
  = Throw AllEventsInvalid {[ 3 := 1 ]}.
Proof.
  apply (wait_for_one_nothing_to_wait_for [Event.default; Event.default] 1 Quiet
                                          {[ 3 := 1 ]}).
  repeat constructor.
Defined.

(** ** The fake socket run on its own (impl_fake_modern.h, .cc) *)

Section FakeSocketAlone.

Context {U : Type}.
Variable TSubSocket_connect : string -> string -> bool -> bool -> M U Z.
Variable TSubSocket_receive : bool -> M U (option Message).

(** A connect that throws has not touched the members of the fake socket:
    the events, the guard and the event state are those from before the
    call, whichever step failed. *)
Theorem connect_failure_keeps_members
        context endpoint address conflate check_endpoint mem
        (this0 : @FakeSubSocket U) e this :
  connect TSubSocket_connect context endpoint address conflate check_endpoint
          mem this0 = Throw e this ->
  recv_called this = recv_called this0 /\
  recv_ready this = recv_ready this0 /\
  state_guard this = state_guard this0 /\
  state this = state this0.
Proof.
  unfold connect. intros H.
  apply bind_Throw in H as [H | ([] & s1 & Hc & H)].
  { apply throw_if_Throw in H as (_ & _ & ->). repeat split. }
  apply throw_if_Ok in Hc as [_ ->].
  apply bind_Throw in H as [H | ([] & s2 & Hc & H)].
  { apply throw_if_Throw in H as (_ & _ & ->). repeat split. }
  apply throw_if_Ok in Hc as [_ ->].
  destruct mem as [es|].
  2: { unfold throw in H. injection H as _ <-. repeat split. }
  apply bind_Throw in H as [H | (r & s3 & Hb & H)].
  { unfold on_base in H.
    destruct (TSubSocket_connect endpoint address conflate check_endpoint (base this0));
      try discriminate.
    injection H as _ <-. repeat split. }
  assert (Hs3 : recv_called s3 = recv_called this0 /\
                recv_ready s3 = recv_ready this0 /\
                state_guard s3 = state_guard this0 /\
                state s3 = state this0).
  { unfold on_base in Hb.
    destruct (TSubSocket_connect endpoint address conflate check_endpoint (base this0));
      try discriminate.
    injection Hb as _ <-. repeat split. }
  apply bind_Throw in H as [H | ([] & s4 & Hc & H)].
  { apply throw_if_Throw in H as (_ & _ & ->). exact Hs3. }
  apply throw_if_Ok in Hc as [_ ->].
  apply bind_Throw in H as [H | ([] & s5 & Hm & H)]; discriminate.
Qed.

Lemma exec_event_call c env w (u : U) :
  match c with
  | CallBaseReceive _ => True
  | _ =>
    exec_call TSubSocket_receive c env (w, u)
    = match match c with
            | CallSet e => Event.set e w
            | CallWait e => Event.wait e (-1) env w
            | CallClear e =>
                match Event.clear e w with
                | Ok _ w1 => Ok tt w1
                | Throw err w1 => Throw err w1
                | Undefined => Undefined
                | Blocked => Blocked
                end
            | CallBaseReceive _ => Undefined
            end with
      | Ok _ w1 => Ok None (w1, u)
      | Throw err w1 => Throw err (w1, u)
      | Undefined => Undefined
      | Blocked => Blocked
      end
  end.
Proof.
  destruct c as [e|e|e|nb]; [| | | exact I];
    cbn [exec_call]; unfold bind, on_fds, ret; cbn [fst snd].
  - destruct (Event.set e w) as [[] ?| | |]; reflexivity.
  - destruct (Event.wait e (-1) env w) as [[] ?| | |]; reflexivity.
  - destruct (Event.clear e w); reflexivity.
Qed.

Lemma bind_base_receive non_blocking env (s : Fds * U) :
  (m <- exec_call TSubSocket_receive (CallBaseReceive non_blocking) env ;;
   run_calls TSubSocket_receive [] env m) s
  = on_socket (TSubSocket_receive non_blocking) s.
Proof.
  cbn [run_calls exec_call]. unfold bind, ret.
  destruct (on_socket (TSubSocket_receive non_blocking) s); reflexivity.
Qed.

Section EnabledSocket.

Variable this : @FakeSubSocket U.
Variable es : EventState.
Hypothesis Hstate : state this = Some es.
Hypothesis Henabled : enabled es = true.
Hypothesis Hcalled : recv_called this = Some (fds_called es).
Hypothesis Hready : recv_ready this = Some (fds_ready es).
Hypothesis Hdistinct : fds_called es <> fds_ready es.
Hypothesis Hvalid : 0 <= fds_called es /\ 0 <= fds_ready es.

Variable w : Fds.
Variable c : Z.
Hypothesis Hopen : w !! fds_called es = Some c.
Hypothesis Hcount : 0 <= c /\ c + 1 <= Poll.EVENTFD_MAX.

Lemma gate_set_called env (u : U) :
  exec_call TSubSocket_receive (CallSet (fds_called es)) env (w, u)
  = Ok None (<[fds_called es := c + 1]> w, u).
Proof.
  pose proof (exec_event_call (CallSet (fds_called es)) env w u) as H.
  cbv beta iota in H. rewrite H.
  assert (Hset : Event.set (fds_called es) w = Ok tt (<[fds_called es := c + 1]> w)).
  { unfold Event.set, Event.validate, bind, get.
    destruct (Z.ltb_spec (fds_called es) 0); [lia |].
    cbn [throw_if ret].
    unfold Poll.write_one. rewrite Hopen.
    destruct (Z.leb_spec (c + 1) Poll.EVENTFD_MAX); [reflexivity | lia]. }
  rewrite Hset. reflexivity.
Qed.

Lemma gate_clear_ready env (w1 : Fds) k (u : U) :
  w1 !! fds_ready es = Some k -> 0 < k ->
  exec_call TSubSocket_receive (CallClear (fds_ready es)) env (w1, u)
  = Ok None (<[fds_ready es := 0]> w1, u).
Proof.
  intros Hl Hk.
  pose proof (exec_event_call (CallClear (fds_ready es)) env w1 u) as H.
  cbv beta iota in H. rewrite H.
  assert (Hclear : Event.clear (fds_ready es) w1
                   = Ok (to_int k) (<[fds_ready es := 0]> w1)).
  { unfold Event.clear, Event.validate, bind, get.
    destruct (Z.ltb_spec (fds_ready es) 0); [lia |].
    cbn [throw_if ret].
    unfold Poll.read_counter. rewrite Hl.
    destruct (Z.ltb_spec 0 k); [reflexivity | lia]. }
  rewrite Hclear. reflexivity.
Qed.

(** With the gate enabled, a receive on its own gets through the gate in two
    cases: [recv_ready] was left signaled before the call, or another
    process signals it while the receive waits.  It then consumes
    [recv_ready], leaves [recv_called] signaled and forwards to the base
    receive. *)
Theorem gate_passes non_blocking (u : U) k :
  0 < k ->
  (w !! fds_ready es = Some k ->
   forall env,
     run_calls TSubSocket_receive (receive this non_blocking) env None (w, u)
     = on_socket (TSubSocket_receive non_blocking)
         (<[fds_ready es := 0]> (<[fds_called es := c + 1]> w), u)) /\
  (w !! fds_ready es = Some 0 ->
   forall w', w' !! fds_ready es = Some k ->
     run_calls TSubSocket_receive (receive this non_blocking) (Others w') None (w, u)
     = on_socket (TSubSocket_receive non_blocking) (<[fds_ready es := 0]> w', u)).
Proof.
  intros Hk.
  rewrite (receive_enabled this es non_blocking Hstate Henabled Hcalled Hready).
  split.
  - intros Hr env.
    cbn [run_calls]. unfold bind at 1. rewrite gate_set_called.
    unfold bind at 1.
    pose proof (exec_event_call (CallWait (fds_ready es)) env
                  (<[fds_called es := c + 1]> w) u) as Hw.
    cbv beta iota in Hw. rewrite Hw.
    assert (Hsig : signaled (<[fds_called es := c + 1]> w) (fds_ready es) = true).
    { unfold signaled. rewrite lookup_insert_ne by exact Hdistinct. rewrite Hr.
      apply Z.ltb_lt. exact Hk. }
    rewrite (wait_on_signaled (fds_ready es) (<[fds_called es := c + 1]> w) (-1) env
               ltac:(lia) Hsig).
    unfold bind at 1.
    rewrite (gate_clear_ready env (<[fds_called es := c + 1]> w) k u)
      by (rewrite ?lookup_insert_ne by exact Hdistinct; assumption).
    apply bind_base_receive.
  - intros Hr w' Hr'.
    cbn [run_calls]. unfold bind at 1. rewrite gate_set_called.
    unfold bind at 1.
    pose proof (exec_event_call (CallWait (fds_ready es)) (Others w')
                  (<[fds_called es := c + 1]> w) u) as Hw.
    cbv beta iota in Hw. rewrite Hw.
    assert (Hwait : Event.wait (fds_ready es) (-1) (Others w')
                               (<[fds_called es := c + 1]> w) = Ok tt w').
    { unfold Event.wait, Event.validate.
      destruct (Z.ltb_spec (fds_ready es) 0); [lia |].
      unfold bind at 1. rewrite throw_if_false.
      unfold bind, Poll.ppoll, bind, get, put.
      rewrite !count_ready_one by lia.
      rewrite lookup_insert_ne by exact Hdistinct. rewrite Hr, Hr'.
      cbn [Z.ltb Z.compare].
      rewrite bool_decide_eq_false_2 by discriminate.
      destruct (Z.ltb_spec 0 k); [| lia].
      reflexivity. }
    rewrite Hwait.
    unfold bind at 1.
    rewrite (gate_clear_ready (Others w') w' k u Hr' Hk).
    apply bind_base_receive.
Qed.

(** With the gate enabled and [recv_ready] unsignaled, a receive that nobody
    releases never returns; one that a signal interrupts fails with "Event
    poll failed".  In both cases [recv_called] has been set and the base
    receive has not been called: no message is taken from the queue. *)
Theorem gate_holds non_blocking (u : U) :
  w !! fds_ready es = Some 0 ->
  run_calls TSubSocket_receive (receive this non_blocking) Quiet None (w, u)
  = Blocked /\
  run_calls TSubSocket_receive (receive this non_blocking) Signal None (w, u)
  = Throw EventPollFailed (<[fds_called es := c + 1]> w, u).
Proof.
  intros Hr.
  rewrite (receive_enabled this es non_blocking Hstate Henabled Hcalled Hready).
  assert (Hr1 : <[fds_called es := c + 1]> w !! fds_ready es = Some 0)
    by (rewrite lookup_insert_ne by exact Hdistinct; exact Hr).
  destruct (wait_on_unsignaled (fds_ready es) (<[fds_called es := c + 1]> w) (-1)
              ltac:(lia) Hr1) as (_ & Hq & Hs).
  split.
  - cbn [run_calls]. unfold bind at 1. rewrite gate_set_called.
    unfold bind at 1.
    pose proof (exec_event_call (CallWait (fds_ready es)) Quiet
                  (<[fds_called es := c + 1]> w) u) as Hw.
    cbv beta iota in Hw. rewrite Hw, Hq by lia. reflexivity.
  - cbn [run_calls]. unfold bind at 1. rewrite gate_set_called.
    unfold bind at 1.
    pose proof (exec_event_call (CallWait (fds_ready es)) Signal
                  (<[fds_called es := c + 1]> w) u) as Hw.
    cbv beta iota in Hw. rewrite Hw, Hs by lia. reflexivity.
Qed.

End EnabledSocket.

End FakeSocketAlone.

(** A null context: the members stay those of a socket never connected. *)
Lemma connect_failure_keeps_members_witness :
  exists this,
    connect GateExample.base_connect false "ep" "127.0.0.1" false true
            (Some GateExample.es) (FakeSubSocket_new tt) = Throw ContextNull this /\
    recv_called this = None /\ recv_ready this = None /\
    state_guard this = false /\ state this = None.
Proof.
  eexists. split; [reflexivity |].
  apply (connect_failure_keeps_members GateExample.base_connect
           false "ep" "127.0.0.1" false true (Some GateExample.es)
           (FakeSubSocket_new tt) ContextNull).
  reflexivity.
Defined.

(** The socket of [GateExample]: [recv_ready] left signaled by an earlier
    set, and [recv_ready] set by the driver during the wait. *)
Lemma gate_passes_witness :
  run_calls GateExample.base_receive (receive GateExample.this false) Quiet None
            ({[ 3 := 0; 4 := 1 ]}, tt)
  = Ok None ({[ 3 := 1; 4 := 0 ]}, tt) /\
  run_calls GateExample.base_receive (receive GateExample.this false)
            (Others GateExample.w2) None (GateExample.w0, tt)
  = Ok None (GateExample.w1, tt).
Proof.
  split.
  - destruct (gate_passes GateExample.base_receive GateExample.this GateExample.es
                eq_refl eq_refl eq_refl eq_refl ltac:(discriminate)
                ltac:(split; discriminate)
                {[ 3 := 0; 4 := 1 ]} 0 ltac:(vm_refl)
                ltac:(split; vm_compute; discriminate)
                false tt 1 ltac:(lia)) as [H _].
    rewrite (H ltac:(vm_refl) Quiet). vm_refl.
  - destruct (gate_passes GateExample.base_receive GateExample.this GateExample.es
                eq_refl eq_refl eq_refl eq_refl ltac:(discriminate)
                ltac:(split; discriminate)
                GateExample.w0 0 ltac:(vm_refl)
                ltac:(split; vm_compute; discriminate)
                false tt 1 ltac:(lia)) as [_ H].
    rewrite (H ltac:(vm_refl) GateExample.w2 ltac:(vm_refl)). vm_refl.
Defined.

(** The socket of [GateExample] with nobody to release it. *)
Lemma gate_holds_witness :
  run_calls GateExample.base_receive (receive GateExample.this false) Quiet None
            (GateExample.w0, tt) = Blocked /\
  run_calls GateExample.base_receive (receive GateExample.this false) Signal None
            (GateExample.w0, tt) = Throw EventPollFailed (GateExample.w1, tt).
Proof.
  destruct (gate_holds GateExample.base_receive GateExample.this GateExample.es
              eq_refl eq_refl eq_refl eq_refl ltac:(discriminate)
              ltac:(split; discriminate)
              GateExample.w0 0 ltac:(vm_refl)
              ltac:(split; vm_compute; discriminate)
              false tt ltac:(vm_refl)) as [Hq Hs].
  split; [exact Hq |].
  rewrite Hs. vm_refl.
Defined.

(** ** Backend selection and the switches of the fake backend *)

Lemma messaging_use_zmq_value (apple : bool) (p : Process) :
  fst (Ipc.messaging_use_zmq apple p)
  = bool_decide (is_Some (environ p !! "ZMQ"%string)) || apple.
Proof.
  unfold Ipc.messaging_use_zmq, Ipc.getenv, Ipc.is_platform_supports_msgq.
  repeat case_bool_decide; destruct apple; reflexivity.
Qed.

Lemma messaging_use_zmq_environ (apple : bool) (p : Process) :
  environ (snd (Ipc.messaging_use_zmq apple p)) = environ p.
Proof.
  unfold Ipc.messaging_use_zmq, Ipc.getenv, Ipc.is_platform_supports_msgq.
  repeat case_bool_decide; destruct apple; reflexivity.
Qed.

(** [determine_backend_type] looks only at whether ZMQ and CEREAL_FAKE
    are set: two processes that agree on that get the same backend, whatever
    the values of the two variables and whatever else their environments
    hold (OPENPILOT_PREFIX included), and the call leaves the environment
    as it was. *)
Theorem determine_backend_type_depends_on (apple : bool) (p1 p2 : Process) :
  (is_Some (environ p1 !! "ZMQ"%string) <-> is_Some (environ p2 !! "ZMQ"%string)) ->
  (is_Some (environ p1 !! "CEREAL_FAKE"%string)
   <-> is_Some (environ p2 !! "CEREAL_FAKE"%string)) ->
  fst (Ipc.determine_backend_type apple p1) = fst (Ipc.determine_backend_type apple p2)
  /\ environ (snd (Ipc.determine_backend_type apple p1)) = environ p1
  /\ environ (snd (Ipc.determine_backend_type apple p2)) = environ p2.
Proof.
  intros Hz Hf. unfold Ipc.determine_backend_type. cbn [fst snd].
  rewrite !messaging_use_zmq_value, !messaging_use_zmq_environ.
  unfold Ipc.messaging_use_fake, Ipc.getenv.
  rewrite (bool_decide_ext _ _ Hz), (bool_decide_ext _ _ Hf). auto.
Qed.

Lemma determine_backend_type_depends_on_witness :
  fst (Ipc.determine_backend_type false
         {| environ := {[ "ZMQ"%string := "0"%string ]}; cerr := [];
            fake_events_enabled_ := false; fake_prefix_ := ""%string |})
  = fst (Ipc.determine_backend_type false
         {| environ := {[ "ZMQ"%string := "1"%string;
                          "OPENPILOT_PREFIX"%string := "/tmp/op"%string ]};
            cerr := []; fake_events_enabled_ := true;
            fake_prefix_ := "x"%string |}).
Proof.
  apply (determine_backend_type_depends_on false
           {| environ := {[ "ZMQ"%string := "0"%string ]}; cerr := [];
              fake_events_enabled_ := false; fake_prefix_ := ""%string |}
           {| environ := {[ "ZMQ"%string := "1"%string;
                            "OPENPILOT_PREFIX"%string := "/tmp/op"%string ]};
              cerr := []; fake_events_enabled_ := true;
              fake_prefix_ := "x"%string |}).
  - cbn [environ]. split; intros _; vm_compute; eauto.
  - cbn [environ]. split; intros [x Hx]; vm_compute in Hx; discriminate.
Defined.

(** [SocketEventHandle::toggle_fake_events(enabled)] is what
    [messaging_use_fake] and [determine_backend_type] then see: after it the
    backend is one of the two fake ones exactly when [enabled] is true, on
    every platform and in every environment, and the static flag holds
    [enabled]. *)
Theorem toggle_fake_events_selects_fake (apple enabled : bool) (p : Process) :
  let p' := SocketEventHandle.toggle_fake_events enabled p in
  Ipc.messaging_use_fake p' = enabled
  /\ fake_events_enabled_ p' = enabled
  /\ fst (Ipc.determine_backend_type apple p')
     = (if enabled
        then (if fst (Ipc.messaging_use_zmq apple p) then Ipc.FAKE_ZMQ else Ipc.FAKE_MSGQ)
        else (if fst (Ipc.messaging_use_zmq apple p) then Ipc.ZMQ else Ipc.MSGQ)).
Proof.
  cbn zeta.
  assert (Hfake : Ipc.messaging_use_fake (SocketEventHandle.toggle_fake_events enabled p)
                  = enabled).
  { unfold Ipc.messaging_use_fake, Ipc.getenv, SocketEventHandle.toggle_fake_events.
    destruct enabled; cbn [environ Ipc.setenv Ipc.unsetenv].
    - rewrite lookup_insert_eq. apply bool_decide_eq_true. eauto.
    - rewrite lookup_delete_eq. apply bool_decide_eq_false. intros [x Hx]. discriminate. }
  split; [exact Hfake|]. split; [reflexivity|].
  unfold Ipc.determine_backend_type. cbn [fst]. rewrite Hfake.
  rewrite !messaging_use_zmq_value.
  replace (environ (SocketEventHandle.toggle_fake_events enabled p) !! "ZMQ"%string)
    with (environ p !! "ZMQ"%string); [destruct enabled; reflexivity|].
  unfold SocketEventHandle.toggle_fake_events.
  destruct enabled; cbn [environ Ipc.setenv Ipc.unsetenv].
  - rewrite lookup_insert_ne; [reflexivity|discriminate].
  - rewrite lookup_delete_ne; [reflexivity|discriminate].
Qed.

(** What is read back is the prefix as a C string. *)
Lemma fake_prefix_set_c_str (prefix : string) (p : Process) :
  SocketEventHandle.fake_prefix (SocketEventHandle.set_fake_prefix prefix p)
  = Ipc.c_str prefix.
Proof.
  unfold SocketEventHandle.fake_prefix, SocketEventHandle.set_fake_prefix, Ipc.getenv.
  case_bool_decide as E; cbn [environ Ipc.setenv Ipc.unsetenv].
  - rewrite lookup_delete_eq. subst prefix. reflexivity.
  - rewrite lookup_insert_eq. reflexivity.
Qed.

(** A prefix without a NUL character, the empty one included, is read back
    by [fake_prefix] as [set_fake_prefix] stored it, also when fake events
    are switched on or off in between; the environment and the static member
    then agree. *)
Theorem fake_prefix_after_set (prefix : string) (enabled : bool) (p : Process) :
  Ipc.c_str prefix = prefix ->
  let p' := SocketEventHandle.set_fake_prefix prefix p in
  SocketEventHandle.fake_prefix p' = prefix
  /\ SocketEventHandle.fake_prefix (SocketEventHandle.toggle_fake_events enabled p')
     = prefix
  /\ fake_prefix_ p' = prefix.
Proof.
  intros Hc. cbn zeta.
  pose proof (fake_prefix_set_c_str prefix p) as H1. rewrite Hc in H1.
  split; [exact H1|]. split; [|reflexivity].
  rewrite <- H1 at 2. unfold SocketEventHandle.fake_prefix, Ipc.getenv.
  unfold SocketEventHandle.toggle_fake_events.
  destruct enabled; cbn [environ Ipc.setenv Ipc.unsetenv].
  - rewrite lookup_insert_ne; [reflexivity|discriminate].
  - rewrite lookup_delete_ne; [reflexivity|discriminate].
Qed.

Lemma fake_prefix_after_set_witness :
  SocketEventHandle.fake_prefix
    (SocketEventHandle.set_fake_prefix "test_7"
       {| environ := ∅; cerr := []; fake_events_enabled_ := false;
          fake_prefix_ := ""%string |})
  = "test_7"%string.
Proof.
  apply (fake_prefix_after_set "test_7" true
           {| environ := ∅; cerr := []; fake_events_enabled_ := false;
              fake_prefix_ := ""%string |}).
  reflexivity.
Defined.

(** ** The MSGQ backend (impl_msgq_modern.cc) *)

Section MSGQProperties.

Context {W Qp Ptr : Type}.
Variable msgq_msg_recv : MSGQ.msgq_msg_t -> Qp -> W -> Z * MSGQ.msgq_msg_t * W.
Variable getRawSocket : Ptr -> W -> option Qp.
Variable strerror_errno : W -> string.

Lemma receive_loop_nonzero msgq_poll fuel timeout qp rc msg (w : W) :
  rc <> 0 ->
  MSGQ.receive_loop msgq_msg_recv msgq_poll fuel timeout qp rc msg w
  = Some (rc, msg, w).
Proof.
  intros Hrc. apply Z.eqb_neq in Hrc.
  destruct fuel; cbn [MSGQ.receive_loop]; rewrite Hrc; reflexivity.
Qed.

Lemma receive_loop_poll_irrelevant
      (poll poll' : list Qp -> Z -> W -> Z * list Z * W) :
  (forall qs t w, snd (poll qs t w) = snd (poll' qs t w)) ->
  forall fuel timeout qp rc msg w,
    MSGQ.receive_loop msgq_msg_recv poll fuel timeout qp rc msg w
    = MSGQ.receive_loop msgq_msg_recv poll' fuel timeout qp rc msg w.
Proof.
  intros Hsame fuel. induction fuel as [|fuel IH]; intros timeout qp rc msg w.
  - reflexivity.
  - cbn [MSGQ.receive_loop]. destruct (rc =? 0); [|reflexivity].
    set (pt := if negb (timeout =? -1) then timeout else 100).
    specialize (Hsame [qp] pt w).
    destruct (poll [qp] pt w) as [[n revs] w1].
    destruct (poll' [qp] pt w) as [[n' revs'] w1'].
    cbn [snd] in Hsame. subst w1'.
    destruct (msgq_msg_recv msg qp w1) as [[rc' msg'] w2].
    destruct (negb (timeout =? -1)).
    + destruct ((0 <? n) && (0 <? rc')), ((0 <? n') && (0 <? rc')); reflexivity.
    + destruct (0 <? rc') eqn:Hrc.
      * apply Z.ltb_lt in Hrc.
        rewrite !(receive_loop_nonzero _ fuel) by lia.
        destruct (0 <? n), (0 <? n'); reflexivity.
      * rewrite !andb_false_r. apply IH.
Qed.

(** What [msgq_poll] returns has no influence on [MSGQSubSocket::receive]:
    with two implementations of [msgq_poll] that leave the queues in the
    same state and differ in their return code and in the [revents] they
    report, [receive] gives the same result, for every socket, blocking or
    not, with or without a timeout. *)
Theorem receive_ignores_poll_result
        (poll poll' : list Qp -> Z -> W -> Z * list Z * W) :
  (forall qs t w, snd (poll qs t w) = snd (poll' qs t w)) ->
  forall fuel this non_blocking w,
    MSGQ.receive msgq_msg_recv poll fuel this non_blocking w
    = MSGQ.receive msgq_msg_recv poll' fuel this non_blocking w.
Proof.
  intros Hsame fuel this nb w. unfold MSGQ.receive.
  destruct (MSGQ.q this) as [qp|]; [|reflexivity].
  destruct (msgq_msg_recv MSGQ.msg_zero qp w) as [[rc msg] w1].
  rewrite (receive_loop_poll_irrelevant poll poll' Hsame). reflexivity.
Qed.

Variable msgq_poll : list Qp -> Z -> W -> Z * list Z * W.

Lemma receive_loop_with_timeout fuel timeout qp rc msg (w : W) :
  timeout <> -1 ->
  MSGQ.receive_loop msgq_msg_recv msgq_poll (S fuel) timeout qp rc msg w
  = MSGQ.receive_loop msgq_msg_recv msgq_poll 1 timeout qp rc msg w
  /\ is_Some (MSGQ.receive_loop msgq_msg_recv msgq_poll 1 timeout qp rc msg w).
Proof.
  intros Ht. apply Z.eqb_neq in Ht. cbn [MSGQ.receive_loop]. rewrite Ht. cbn [negb].
  destruct (rc =? 0); [|split; [reflexivity|eauto]].
  destruct (msgq_poll [qp] timeout w) as [[n revs] w1].
  destruct (msgq_msg_recv msg qp w1) as [[rc' msg'] w2].
  destruct ((0 <? n) && (0 <? rc')); split; try reflexivity; eauto.
Qed.

(** A [receive] that is non-blocking, or on a socket with a timeout set,
    always returns, after at most one turn of its retry loop: one unit of
    fuel is enough and more fuel changes nothing. *)
Theorem receive_returns_without_retry fuel this non_blocking (w : W) :
  non_blocking = true \/ MSGQ.timeout this <> -1 ->
  MSGQ.receive msgq_msg_recv msgq_poll (S fuel) this non_blocking w
  = MSGQ.receive msgq_msg_recv msgq_poll 1 this non_blocking w
  /\ is_Some (MSGQ.receive msgq_msg_recv msgq_poll 1 this non_blocking w).
Proof.
  intros Hmode. unfold MSGQ.receive.
  destruct (MSGQ.q this) as [qp|]; [|split; [reflexivity|eauto]].
  destruct (msgq_msg_recv MSGQ.msg_zero qp w) as [[rc msg] w1].
  destruct non_blocking; cbn [negb].
  - split; [reflexivity|]. destruct (0 <? rc); eauto.
  - destruct Hmode as [Hnb|Ht]; [discriminate|].
    destruct (receive_loop_with_timeout fuel (MSGQ.timeout this) qp rc msg w1 Ht)
      as [Heq [r Hr]].
    rewrite Heq, Hr. split; [reflexivity|].
    destruct r as [[rc' msg'] w2]. destruct (0 <? rc'); eauto.
Qed.

Lemma receive_loop_retries k :
  forall fuel qp rc msg (w : W),
    (forall j, (j < k)%nat ->
       fst (fst (Nat.iter j (MSGQ.retry msgq_msg_recv msgq_poll qp) (rc, msg, w))) = 0) ->
    fst (fst (Nat.iter k (MSGQ.retry msgq_msg_recv msgq_poll qp) (rc, msg, w))) <> 0 ->
    (k <= fuel)%nat ->
    MSGQ.receive_loop msgq_msg_recv msgq_poll fuel (-1) qp rc msg w
    = Some (Nat.iter k (MSGQ.retry msgq_msg_recv msgq_poll qp) (rc, msg, w)).
Proof.
  induction k as [|k IH]; intros fuel qp rc msg w Hzero Hnz Hfuel.
  - simpl in Hnz. apply receive_loop_nonzero. exact Hnz.
  - destruct fuel as [|fuel]; [lia|].
    pose proof (Hzero 0%nat ltac:(lia)) as H0. simpl in H0. subst rc.
    cbn [MSGQ.receive_loop]. change (0 =? 0) with true.
    change (-1 =? -1) with true. cbn [negb].
    rewrite !Nat.iter_succ_r in Hnz.
    assert (Hz' : forall j, (j < k)%nat ->
              fst (fst (Nat.iter j (MSGQ.retry msgq_msg_recv msgq_poll qp)
                          (MSGQ.retry msgq_msg_recv msgq_poll qp (0, msg, w)))) = 0).
    { intros j Hj. rewrite <- Nat.iter_succ_r. apply Hzero. lia. }
    rewrite Nat.iter_succ_r.
    unfold MSGQ.retry at 2 in Hnz. unfold MSGQ.retry at 2 in Hz'.
    unfold MSGQ.retry at 2.
    destruct (msgq_poll [qp] 100 w) as [[n revs] w1].
    destruct (msgq_msg_recv msg qp w1) as [[rc' msg'] w2].
    destruct ((0 <? n) && (0 <? rc')) eqn:Hbrk.
    + apply andb_true_iff in Hbrk as [_ Hrc]. apply Z.ltb_lt in Hrc.
      rewrite <- (receive_loop_nonzero msgq_poll fuel (-1) qp rc' msg' w2) by lia.
      apply IH; [exact Hz'|exact Hnz|lia].
    + apply IH; [exact Hz'|exact Hnz|lia].
Qed.

(** A blocking [receive] on a socket without timeout polls for 100 ms and
    receives again for as long as [msgq_msg_recv] returns 0.  If the first
    receive and the [k - 1] that follow return 0 and the next one returns
    [rc <> 0], the call returns after these [k] turns, with any fuel of at
    least [k]: null when [rc < 0], and when [rc > 0] a message holding the
    first [msg.size] bytes of [msg.data]. *)
Theorem receive_blocks_until_nonzero k fuel this qp (w : W) rc msg w' :
  MSGQ.q this = Some qp ->
  MSGQ.timeout this = -1 ->
  (forall j, (j < k)%nat ->
     fst (fst (Nat.iter j (MSGQ.retry msgq_msg_recv msgq_poll qp)
                 (msgq_msg_recv MSGQ.msg_zero qp w))) = 0) ->
  Nat.iter k (MSGQ.retry msgq_msg_recv msgq_poll qp)
    (msgq_msg_recv MSGQ.msg_zero qp w) = (rc, msg, w') ->
  rc <> 0 ->
  (k <= fuel)%nat ->
  (rc < 0 ->
   MSGQ.receive msgq_msg_recv msgq_poll fuel this false w = Some (Returns None w'))
  /\ (forall buf,
        0 < rc -> MSGQ.msg_data msg = Some buf ->
        0 < MSGQ.msg_size msg <= Z.of_nat (length buf) ->
        MSGQ.receive msgq_msg_recv msgq_poll fuel this false w
        = Some (Returns
                  (Some {| MSGQ.data := take (Z.to_nat (MSGQ.msg_size msg)) buf |})
                  w')).
Proof.
  intros Hq Ht Hzero Hk Hrc Hfuel.
  assert (Hloop : MSGQ.receive msgq_msg_recv msgq_poll fuel this false w
                  = if 0 <? rc
                    then Some (Exn.bind
                                 (MSGQ.takeOwnership MSGQ.MSGQMessage_new
                                    (MSGQ.msg_data msg) (MSGQ.msg_size msg))
                                 (fun message => Exn.ret (Some message)) w')
                    else Some (Returns None w')).
  { unfold MSGQ.receive. rewrite Hq, Ht.
    destruct (msgq_msg_recv MSGQ.msg_zero qp w) as [[rc0 msg0] w0] eqn:E0.
    cbn [negb].
    rewrite (receive_loop_retries k fuel qp rc0 msg0 w0 Hzero); [| |exact Hfuel].
    - rewrite Hk. reflexivity.
    - rewrite Hk. exact Hrc. }
  split.
  - intros Hneg. rewrite Hloop.
    destruct (Z.ltb_spec 0 rc); [lia|reflexivity].
  - intros buf Hpos Hdata [Hs1 Hs2]. rewrite Hloop.
    destruct (Z.ltb_spec 0 rc); [|lia].
    unfold Exn.bind, MSGQ.takeOwnership. rewrite Hdata.
    destruct (Z.ltb_spec 0 (MSGQ.msg_size msg)); [|lia].
    rewrite bool_decide_eq_true_2 by eauto. cbn [negb andb].
    destruct (Z.leb_spec (MSGQ.msg_size msg) (Z.of_nat (length buf))); [|lia].
    reflexivity.
Qed.

Lemma registered_lengths (this : MSGQ.MSGQPoller Qp Ptr) :
  MSGQ.registered getRawSocket this ->
  length (MSGQ.polls this) = length (MSGQ.sockets this)
  /\ (length (MSGQ.sockets this) <= 128)%nat.
Proof.
  induction 1 as [|this socket w this' w' Hreg [IH1 IH2] Hcall].
  - cbn. lia.
  - unfold MSGQ.registerSocket in Hcall.
    destruct socket as [s|]; [|discriminate].
    destruct (Z.leb_spec MSGQ.MAX_POLLERS (Z.of_nat (length (MSGQ.polls this))))
      as [Hfull|Hroom]; [discriminate|].
    unfold Exn.bind, Exn.get in Hcall.
    destruct (getRawSocket s w); [|discriminate].
    injection Hcall as <- <-. cbn [MSGQ.polls MSGQ.sockets].
    rewrite !length_app. cbn [length]. unfold MSGQ.MAX_POLLERS in Hroom. lia.
Qed.

(** A poller built by [registerSocket] calls never holds more than
    [MAX_POLLERS] = 128 sockets, and has one poll item per socket.  Once it
    holds 128, every further registration of a non-null socket throws
    [runtime_error] without asking the socket for its queue and without
    changing anything. *)
Theorem registerSocket_capacity (this : MSGQ.MSGQPoller Qp Ptr) :
  MSGQ.registered getRawSocket this ->
  (length (MSGQ.sockets this) <= 128)%nat
  /\ length (MSGQ.polls this) = length (MSGQ.sockets this)
  /\ (length (MSGQ.sockets this) = 128%nat ->
      forall s w,
        MSGQ.registerSocket getRawSocket this (Some s) w
        = Raises (runtime_error "Maximum number of pollers (128) exceeded") w).
Proof.
  intros Hreg. destruct (registered_lengths this Hreg) as [Hlen Hmax].
  split; [exact Hmax|]. split; [exact Hlen|].
  intros Hfull s w. unfold MSGQ.registerSocket.
  rewrite Hlen, Hfull. reflexivity.
Qed.

Lemma set_revents_length (polls : list (MSGQ.msgq_pollitem_t Qp)) revs :
  length (MSGQ.set_revents polls revs) = length polls.
Proof.
  revert revs. induction polls as [|item polls IH]; intros [|r revs];
    cbn [MSGQ.set_revents length]; try reflexivity.
  rewrite IH. reflexivity.
Qed.

Lemma collect_ready_sublist (polls : list (MSGQ.msgq_pollitem_t Qp))
      (sockets : list (option Ptr)) :
  forall i, (length polls + i <= length sockets)%nat ->
    exists ready, MSGQ.collect_ready polls sockets i = Some ready
                  /\ sublist ready (drop i sockets).
Proof.
  induction polls as [|item polls IH]; intros i Hlen.
  - exists []. split; [reflexivity|]. apply sublist_nil_l.
  - cbn [length] in Hlen. cbn [MSGQ.collect_ready].
    destruct (IH (S i) ltac:(lia)) as [ready [Hready Hsub]].
    destruct (lookup_lt_is_Some_2 sockets i ltac:(lia)) as [s Hs].
    rewrite (drop_S _ _ _ Hs).
    destruct (negb (MSGQ.revents item =? 0)).
    + rewrite Hs, Hready. exists (s :: ready). split; [reflexivity|].
      apply sublist_skip. exact Hsub.
    + exists ready. split; [exact Hready|]. apply sublist_cons. exact Hsub.
Qed.

(** [poll] on a poller built by [registerSocket] calls never indexes past
    the end of [sockets]: it returns registered sockets only, in the order
    of their registration and each at most once, or throws when [msgq_poll]
    fails; either way the registered sockets stay as they were. *)
Theorem poll_returns_registered (this : MSGQ.MSGQPoller Qp Ptr) timeout (w : W) :
  MSGQ.registered getRawSocket this ->
  match MSGQ.poll msgq_poll strerror_errno timeout (this, w) with
  | Returns ready (this', _) =>
      sublist ready (MSGQ.sockets this)
      /\ MSGQ.sockets this' = MSGQ.sockets this
  | Raises e (this', _) =>
      MSGQ.sockets this' = MSGQ.sockets this
  | Undef => False
  end.
Proof.
  intros Hreg. destruct (registered_lengths this Hreg) as [Hlen _].
  unfold MSGQ.poll. cbn [fst snd].
  case_bool_decide as Hempty.
  - split; [apply sublist_nil_l|reflexivity].
  - destruct (msgq_poll (MSGQ.item_q <$> MSGQ.polls this) timeout w)
      as [[rc revs] w1].
    destruct (rc <? 0); [reflexivity|].
    cbn [MSGQ.polls MSGQ.sockets].
    destruct (collect_ready_sublist (MSGQ.set_revents (MSGQ.polls this) revs)
                (MSGQ.sockets this) 0) as [ready [Hready Hsub]].
    { rewrite set_revents_length. lia. }
    rewrite Hready. split; [exact Hsub|reflexivity].
Qed.

End MSGQProperties.

(** ** The factories (ipc_modern.cc) *)

Section FactoryProperties.

Context {W Ctx Sub Pub Plr Ptr : Type}.
Variable apple : bool.
Variable create_zmq_subsocket create_msgq_subsocket : Exn.X W (option Sub).
Variable create_fake_zmq_subsocket create_fake_msgq_subsocket : Exn.X W (option Sub).
Variable create_zmq_pubsocket create_msgq_pubsocket : Exn.X W (option Pub).
Variable create_zmq_poller create_msgq_poller create_fake_poller : Exn.X W (option Plr).
Variable SubSocket_connect :
  Sub -> Ctx -> string -> string -> bool -> bool -> Exn.X W (Z * Sub).
Variable PubSocket_connect : Pub -> Ctx -> string -> bool -> Exn.X W (Z * Pub).
Variable Poller_registerSocket : Plr -> option Ptr -> Exn.X W Plr.
Variable strerror_errno : W -> string.

Local Abbreviation SubSocket_create_connect :=
  (Factory.SubSocket_create_connect apple create_zmq_subsocket create_msgq_subsocket
     create_fake_zmq_subsocket create_fake_msgq_subsocket SubSocket_connect
     strerror_errno).
Local Abbreviation PubSocket_create_connect :=
  (Factory.PubSocket_create_connect apple create_zmq_pubsocket create_msgq_pubsocket
     PubSocket_connect strerror_errno).
Local Abbreviation PubSocket_create_port :=
  (Factory.PubSocket_create_port apple create_zmq_pubsocket create_msgq_pubsocket
     PubSocket_connect strerror_errno).
Local Abbreviation Poller_create_sockets :=
  (Factory.Poller_create_sockets apple create_zmq_poller create_msgq_poller
     create_fake_poller Poller_registerSocket).

(** The handler of [SubSocket::create(context, ...)]. *)
Lemma connect_handler_modes {A} (body : Exn.X (Factory.State (W := W)) (option A))
      (check_endpoint : bool) s :
  let r := Exn.try_catch body
             (fun e =>
                if check_endpoint then Exn.raise e
                else
                  _ <~ Factory.write_cerr
                         ("WARNING: Failed to connect SubSocket: " +:+ what e) ;;
                  Exn.ret None) s in
  (forall a s', body s <> Returns a s' \/ is_Some a) ->
  (check_endpoint = false -> forall (e : exception) s', r <> Raises e s')
  /\ (check_endpoint = false ->
      (forall object s', body s <> Raises (not_std_exception object) s') ->
      forall t s', r <> Raises t s')
  /\ (check_endpoint = true -> forall s', r <> Returns None s')
  /\ (forall s', r = Returns None s' ->
      exists e, last (cerr (fst s'))
                = Some ("WARNING: Failed to connect SubSocket: " +:+ what e)%string).
Proof.
  cbn zeta. intros Hbody. unfold Exn.try_catch.
  destruct (body s) as [a s1|[e|object] s1|] eqn:E.
  - destruct (Hbody a s1) as [Hne|[x ->]]; [congruence|].
    repeat split; intros; discriminate.
  - destruct check_endpoint.
    + unfold Exn.raise. repeat split; intros; discriminate.
    + unfold Exn.bind, Factory.write_cerr, Exn.modify, Exn.ret.
      split; [intros; discriminate|]. split; [intros; discriminate|].
      split; [intros; discriminate|].
      intros s' H. injection H as <-. exists e.
      cbn [fst cerr Ipc.write_cerr]. apply last_snoc.
  - split; [intros; discriminate|].
    split; [intros _ Hstd; destruct (Hstd object s1 eq_refl)|].
    split; intros; discriminate.
  - repeat split; intros; discriminate.
Qed.

Lemma on_snd_std_only {S T A} (m : Exn.X T A) :
  Exn.throws_std_only m -> Exn.throws_std_only (Exn.on_snd (S := S) m).
Proof.
  intros Hm s object s' H. unfold Exn.on_snd in H.
  destruct (m (snd s)) as [a t|[e|o] t|] eqn:E; try discriminate.
  apply (Hm _ _ _ E).
Qed.

(** [SubSocket::create()] throws what is not derived from [std::exception]
    only if one of the four factories does. *)
Lemma SubSocket_create_std_only :
  Exn.throws_std_only create_zmq_subsocket ->
  Exn.throws_std_only create_msgq_subsocket ->
  Exn.throws_std_only create_fake_zmq_subsocket ->
  Exn.throws_std_only create_fake_msgq_subsocket ->
  Exn.throws_std_only
    (Factory.SubSocket_create apple create_zmq_subsocket create_msgq_subsocket
       create_fake_zmq_subsocket create_fake_msgq_subsocket).
Proof.
  intros H1 H2 H3 H4 s object s' H.
  unfold Factory.SubSocket_create, Factory.rethrow_as_runtime_error,
    Exn.try_catch in H.
  unfold Exn.bind at 1 in H. unfold Factory.determine_backend_type at 1 in H.
  destruct (fst (Ipc.determine_backend_type apple (fst s)));
    match type of H with
    | context [Exn.on_snd ?m ?t] =>
        destruct (Exn.on_snd m t) as [a t1|[e|o] t1|] eqn:E
    end;
    try discriminate;
    eapply on_snd_std_only in E; eauto.
Qed.


Lemma same_but_exception_refl {S A} (r : outcome S A) :
  Exn.same_but_exception r r.
Proof.
  destruct r; cbn; auto.
Qed.

Lemma same_but_exception_bind {S A B} (m : Exn.X S A) (k k' : A -> Exn.X S B) s :
  (forall a s1, Exn.same_but_exception (k a s1) (k' a s1)) ->
  Exn.same_but_exception (Exn.bind m k s) (Exn.bind m k' s).
Proof.
  intros H. unfold Exn.bind. destruct (m s) as [a s1|e s1|].
  - apply H.
  - reflexivity.
  - exact I.
Qed.

Lemma same_but_exception_rethrow {S A} (body body' : Exn.X S A) s :
  Exn.same_but_exception (body s) (body' s) ->
  Exn.same_but_exception (Exn.try_catch body (fun e => Exn.raise e) s)
                         (Exn.try_catch body' (fun e => Exn.raise e) s).
Proof.
  unfold Exn.try_catch, Exn.raise.
  destruct (body s) as [a t|[e|object] t|],
           (body' s) as [a' t'|[e'|object'] t'|]; cbn; auto.
Qed.


Lemma first_null_spec (sockets : list (option Ptr)) :
  forall i k,
    sockets !! i = Some None ->
    (forall j, (j < i)%nat -> exists p, sockets !! j = Some (Some p)) ->
    Factory.first_null sockets k = Some (k + i)%nat.
Proof.
  induction sockets as [|x sockets IH]; intros i k Hi Hbefore.
  - discriminate.
  - destruct i as [|i].
    + cbn in Hi. injection Hi as ->. cbn. f_equal. lia.
    + destruct (Hbefore 0%nat ltac:(lia)) as [p Hp]. cbn in Hp.
      injection Hp as ->. cbn [Factory.first_null].
      rewrite (IH i (S k)).
      * f_equal. lia.
      * exact Hi.
      * intros j Hj. apply (Hbefore (S j)). lia.
Qed.

(** [Poller::create(sockets)] on a list that holds a null pointer throws
    [invalid_argument] naming the index of the first null, before it
    selects a backend or creates a poller: the process and the backends are
    left as they were. *)
Theorem Poller_create_sockets_null_index
        (sockets : list (option Ptr)) (i : nat) (s : Process * W) :
  sockets !! i = Some None ->
  (forall j, (j < i)%nat -> exists p, sockets !! j = Some (Some p)) ->
  Poller_create_sockets sockets s
  = Raises (invalid_argument ("Socket at index " +:+ pretty i +:+ " is null")) s.
Proof.
  intros Hi Hbefore. unfold Factory.Poller_create_sockets.
  rewrite bool_decide_eq_false_2.
  - rewrite (first_null_spec sockets i 0 Hi Hbefore). reflexivity.
  - intros ->. discriminate.
Qed.

End FactoryProperties.

Lemma first_null_none {Ptr} (sockets : list (option Ptr)) k :
  Forall is_Some sockets -> Factory.first_null sockets k = None.
Proof.
  intros H. revert k. induction H as [|x sockets [p ->] _ IH]; intros k.
  - reflexivity.
  - cbn. apply IH.
Qed.

Lemma register_all_fake {Ptr W} (sockets : list (option Ptr)) :
  Forall is_Some sockets ->
  forall (poller : FakePoller.t Ptr) (w : W),
    Factory.register_all FakePoller.registerSocket poller sockets w
    = Returns {| FakePoller.sockets := FakePoller.sockets poller ++ sockets |} w.
Proof.
  induction 1 as [|x sockets [p ->] _ IH]; intros poller w.
  - cbn. unfold Exn.ret. rewrite app_nil_r. destruct poller. reflexivity.
  - cbn [Factory.register_all]. unfold Exn.bind at 1.
    cbn [FakePoller.registerSocket]. unfold Exn.ret at 1.
    rewrite IH. cbn [FakePoller.sockets]. rewrite <- app_assoc. reflexivity.
Qed.

(** With CEREAL_FAKE set and [detail::create_fake_poller] returning a new
    [FakePoller], [Poller::create(sockets)] on a non-empty list without null
    pointers returns a poller whose [poll] returns exactly [sockets], in
    order, for every timeout; nothing is written to [std::cerr] and the
    other poller factories are not called. *)
Theorem Poller_create_sockets_fake {W Ptr}
        (apple : bool)
        (create_zmq_poller create_msgq_poller create_fake_poller
           : Exn.X W (option (FakePoller.t Ptr)))
        (sockets : list (option Ptr)) (timeout : Z) (s : Process * W) :
  (forall w, create_fake_poller w = Returns (Some FakePoller.new) w) ->
  is_Some (environ (fst s) !! "CEREAL_FAKE"%string) ->
  sockets <> [] ->
  Forall is_Some sockets ->
  exists poller,
    Factory.Poller_create_sockets apple create_zmq_poller create_msgq_poller
      create_fake_poller FakePoller.registerSocket sockets s
    = Returns (Some poller) s
    /\ FakePoller.poll poller timeout (snd s) = Returns sockets (snd s).
Proof.
  intros Hfake Henv Hne Hall.
  exists {| FakePoller.sockets := sockets |}. split; [|reflexivity].
  unfold Factory.Poller_create_sockets.
  rewrite bool_decide_eq_false_2 by exact Hne.
  rewrite (first_null_none sockets 0 Hall).
  unfold Factory.rethrow_as_runtime_error, Exn.try_catch, Exn.bind at 1.
  unfold Factory.Poller_create, Factory.rethrow_as_runtime_error, Exn.try_catch.
  unfold Exn.bind at 1. unfold Factory.messaging_use_fake at 1.
  unfold Ipc.messaging_use_fake, Ipc.getenv.
  rewrite bool_decide_eq_true_2 by exact Henv.
  unfold Exn.on_snd at 1. rewrite Hfake.
  unfold Exn.bind, Exn.on_snd. cbn [fst snd].
  rewrite (register_all_fake sockets Hall). unfold Exn.ret.
  destruct s. reflexivity.
Qed.

(** ** The MSGQ classes and the factories on the example backends *)

Lemma receive_ignores_poll_result_witness :
  MSGQ.receive MSGQExample.msgq_msg_recv MSGQExample.poll_quiet 5
    (MSGQExample.sub (-1)) false 0
  = MSGQ.receive MSGQExample.msgq_msg_recv MSGQExample.poll_ready 5
      (MSGQExample.sub (-1)) false 0.
Proof.
  apply (receive_ignores_poll_result MSGQExample.msgq_msg_recv
           MSGQExample.poll_quiet MSGQExample.poll_ready).
  intros qs t w. reflexivity.
Defined.

Lemma receive_returns_without_retry_witness :
  MSGQ.receive MSGQExample.msgq_msg_recv MSGQExample.poll_quiet 9
    (MSGQExample.sub 50) false 0
  = MSGQ.receive MSGQExample.msgq_msg_recv MSGQExample.poll_quiet 1
      (MSGQExample.sub 50) false 0
  /\ is_Some (MSGQ.receive MSGQExample.msgq_msg_recv MSGQExample.poll_quiet 1
                (MSGQExample.sub 50) false 0).
Proof.
  apply (receive_returns_without_retry MSGQExample.msgq_msg_recv
           MSGQExample.poll_quiet 8 (MSGQExample.sub 50) false 0).
  right. cbn. lia.
Defined.

Lemma receive_blocks_until_nonzero_witness :
  MSGQ.receive MSGQExample.msgq_msg_recv MSGQExample.poll_quiet 2
    (MSGQExample.sub (-1)) false 0
  = Some (Returns (Some {| MSGQ.data := [x41] |}) 3).
Proof.
  apply (proj2 (receive_blocks_until_nonzero MSGQExample.msgq_msg_recv
                  MSGQExample.poll_quiet 2 2 (MSGQExample.sub (-1)) 7 0 1
                  {| MSGQ.msg_size := 1; MSGQ.msg_data := Some [x41] |} 3
                  eq_refl eq_refl
                  (fun j Hj =>
                     match j as j0 return
                       (j0 < 2)%nat ->
                       fst (fst (Nat.iter j0
                                   (MSGQ.retry MSGQExample.msgq_msg_recv
                                      MSGQExample.poll_quiet 7)
                                   (MSGQExample.msgq_msg_recv MSGQ.msg_zero 7 0))) = 0
                     with
                     | O => fun _ => eq_refl
                     | S O => fun _ => eq_refl
                     | S (S _) => fun H => ltac:(lia)
                     end Hj)
                  eq_refl ltac:(lia) ltac:(lia)) [x41]).
  - lia.
  - reflexivity.
  - cbn. lia.
Defined.

Lemma registered_poller_of (n : nat) :
  (n <= 128)%nat ->
  MSGQ.registered MSGQExample.getRawSocket (MSGQExample.poller_of n).
Proof.
  induction n as [|n IH]; intros Hn.
  - apply MSGQ.registered_new.
  - apply (MSGQ.registered_socket MSGQExample.getRawSocket
             (MSGQExample.poller_of n) (Some (Z.of_nat n)) 0 _ 0 (IH ltac:(lia))).
    unfold MSGQ.registerSocket, MSGQExample.poller_of. cbn [MSGQ.polls MSGQ.sockets].
    rewrite length_fmap, length_seq.
    destruct (Z.leb_spec MSGQ.MAX_POLLERS (Z.of_nat n)) as [Hfull|_].
    + unfold MSGQ.MAX_POLLERS in Hfull. lia.
    + unfold Exn.bind, Exn.get, MSGQExample.getRawSocket, Exn.ret.
      rewrite !seq_S, !fmap_app. reflexivity.
Qed.

Lemma registerSocket_capacity_witness :
  MSGQ.registerSocket MSGQExample.getRawSocket (MSGQExample.poller_of 128)
    (Some 128) 0
  = Raises (runtime_error "Maximum number of pollers (128) exceeded") 0.
Proof.
  exact (proj2 (proj2 (registerSocket_capacity MSGQExample.getRawSocket
                         (MSGQExample.poller_of 128)
                         (registered_poller_of 128 (le_n 128))))
           (@eq_refl nat 128%nat
              <: length (MSGQ.sockets (MSGQExample.poller_of 128)) = 128%nat)
           128 0).
Defined.

Lemma poll_returns_registered_witness :
  match MSGQ.poll MSGQExample.poll_tail MSGQExample.strerror_errno 10
          (MSGQExample.poller_of 3, 0) with
  | Returns ready (this', _) =>
      sublist ready (MSGQ.sockets (MSGQExample.poller_of 3))
      /\ MSGQ.sockets this' = MSGQ.sockets (MSGQExample.poller_of 3)
  | Raises e (this', _) =>
      MSGQ.sockets this' = MSGQ.sockets (MSGQExample.poller_of 3)
  | Undef => False
  end.
Proof.
  apply (poll_returns_registered MSGQExample.getRawSocket
           MSGQExample.strerror_errno MSGQExample.poll_tail
           (MSGQExample.poller_of 3) 10 0
           (registered_poller_of 3 ltac:(lia))).
Defined.


(** An object that is not derived from [std::exception], thrown by a
    factory of the backend, leaves [SubSocket::create(context, ...)] also
    when [check_endpoint] is false. *)
Lemma SubSocket_create_connect_passes_other_objects :
  Factory.SubSocket_create_connect false
    (FactoryExample.create_socket 1) FactoryExample.create_throwing
    (FactoryExample.create_socket 3) (FactoryExample.create_socket 4)
    FactoryExample.SubSocket_connect FactoryExample.strerror_errno
    (Some tt) "camera" "127.0.0.1" false false
    (FactoryExample.process ∅, tt)
  = Raises (not_std_exception "int") (FactoryExample.process ∅, tt).
Proof.
  vm_refl.
Qed.


Lemma Poller_create_sockets_null_index_witness :
  Factory.Poller_create_sockets false
    FactoryExample.create_poller FactoryExample.create_poller
    FactoryExample.create_poller FakePoller.registerSocket
    [Some 11; None; Some 13; None] (FactoryExample.process ∅, tt)
  = Raises (invalid_argument "Socket at index 1 is null")
      (FactoryExample.process ∅, tt).
Proof.
  apply (Poller_create_sockets_null_index false
           FactoryExample.create_poller FactoryExample.create_poller
           FactoryExample.create_poller FakePoller.registerSocket
           [Some 11; None; Some 13; None] 1 (FactoryExample.process ∅, tt)).
  - reflexivity.
  - intros j Hj. destruct j as [|j]; [exists 11; reflexivity|lia].
Defined.

Lemma Poller_create_sockets_fake_witness :
  exists poller,
    Factory.Poller_create_sockets false
      FactoryExample.create_poller FactoryExample.create_poller
      FactoryExample.create_poller FakePoller.registerSocket
      [Some 11; Some 12]
      (FactoryExample.process {[ "CEREAL_FAKE"%string := "1"%string ]}, tt)
    = Returns (Some poller)
        (FactoryExample.process {[ "CEREAL_FAKE"%string := "1"%string ]}, tt)
    /\ FakePoller.poll poller 100 tt = Returns [Some 11; Some 12] tt.
Proof.
  apply (Poller_create_sockets_fake false
           FactoryExample.create_poller FactoryExample.create_poller
           FactoryExample.create_poller [Some 11; Some 12] 100
           (FactoryExample.process {[ "CEREAL_FAKE"%string := "1"%string ]}, tt)).
  - intros w. reflexivity.
  - cbn [fst FactoryExample.process environ]. rewrite lookup_singleton_eq. eauto.
  - discriminate.
  - repeat constructor; eauto.
Defined.

(** ** [SocketEventHandle]: construction, sharing, destruction (event_modern.h) *)

Section HandleProperties.

Variable strerror_errno : string.
Variable eventfd_pick : Fds -> Z.
Variable p : Process.
Variables endpoint identifier : string.

Local Abbreviation path :=
  (SocketEventHandle.event_state_path (Ipc.getenv "OPENPILOT_PREFIX" p)
     endpoint identifier).
Local Abbreviation new :=
  (SocketEventHandle.new os_ok None strerror_errno eventfd_pick p endpoint identifier).

(** The names the system calls receive: that of the file and that of its
    directory. *)
Local Abbreviation file := (CString.c_str path).
Local Abbreviation dir :=
  (CString.c_str
     (SocketEventHandle.event_state_dir (Ipc.getenv "OPENPILOT_PREFIX" p) identifier)).

(** The state the file of the endpoint holds before it is opened: that of
    the existing file, or zero bytes. *)
Local Abbreviation state_before s :=
  (match SocketEventHandle.names s !! file with
   | Some mem => default SocketEventHandle.zero_EventState
                         (SocketEventHandle.objects s !! mem)
   | None => SocketEventHandle.zero_EventState
   end).

Lemma map_event_state_ok (s : SocketEventHandle.World) :
  SocketEventHandle.World_wf s ->
  exists mem s1,
    SocketEventHandle.map_event_state os_ok None strerror_errno p endpoint identifier s
    = Returns (mem, path) s1
    /\ SocketEventHandle.names s1 = <[file := mem]> (SocketEventHandle.names s)
    /\ SocketEventHandle.directories s1 = {[ dir ]} ∪ SocketEventHandle.directories s
    /\ SocketEventHandle.objects s1 !! mem = Some (state_before s)
    /\ SocketEventHandle.descriptors s1 = SocketEventHandle.descriptors s
    /\ SocketEventHandle.World_wf s1
    /\ (is_Some (SocketEventHandle.names s !! file) ->
        dir ∈ SocketEventHandle.directories s -> s1 = s).
Proof.
  intros Hwf. unfold SocketEventHandle.map_event_state.
  cbn [os_ok open_fails ftruncate_fails mmap_fails].
  unfold Exn.bind at 1. unfold SocketEventHandle.create_directories, Exn.modify.
  unfold Exn.bind, SocketEventHandle.open_creat.
  cbn [SocketEventHandle.names SocketEventHandle.objects
       SocketEventHandle.descriptors SocketEventHandle.directories].
  fold path.
  destruct (SocketEventHandle.names s !! file) as [mem|] eqn:Hn.
  - eexists mem, _. unfold Exn.ret. split; [reflexivity|].
    cbn [SocketEventHandle.names SocketEventHandle.objects
         SocketEventHandle.descriptors SocketEventHandle.directories].
    destruct (Hwf _ _ Hn) as [es Hes].
    split; [rewrite insert_id by exact Hn; reflexivity|].
    split; [reflexivity|].
    split; [rewrite Hes; reflexivity|].
    split; [reflexivity|].
    split.
    + intros path' mem' H'. apply (Hwf _ _ H').
    + intros _ Hdir. destruct s as [n d o f].
      cbn [SocketEventHandle.names SocketEventHandle.objects
           SocketEventHandle.descriptors SocketEventHandle.directories] in *.
      f_equal. apply subseteq_union_1_L. apply singleton_subseteq_l. exact Hdir.
  - eexists _, _. unfold Exn.ret. split; [reflexivity|].
    cbn [SocketEventHandle.names SocketEventHandle.objects
         SocketEventHandle.descriptors SocketEventHandle.directories].
    split; [reflexivity|]. split; [reflexivity|].
    split; [rewrite lookup_app_r by lia; rewrite Nat.sub_diag; reflexivity|].
    split; [reflexivity|].
    split.
    + intros path' mem' H'. cbn [SocketEventHandle.names SocketEventHandle.objects] in *.
      destruct (decide (path' = file)) as [->|Hne].
      * rewrite lookup_insert_eq in H'. injection H' as <-.
        rewrite lookup_app_r by lia. rewrite Nat.sub_diag. eauto.
      * rewrite lookup_insert_ne in H' by congruence.
        destruct (Hwf _ _ H') as [es Hes]. exists es.
        apply lookup_app_l_Some. exact Hes.
    + intros [x Hx]. discriminate.
Qed.

Lemma eventfd_fresh (s : SocketEventHandle.World) :
  0 <= eventfd_pick (SocketEventHandle.descriptors s) ->
  SocketEventHandle.eventfd eventfd_pick s
  = Returns (eventfd_pick (SocketEventHandle.descriptors s))
      (SocketEventHandle.set_descriptors
         (insert (eventfd_pick (SocketEventHandle.descriptors s)) 0) s).
Proof.
  intros H. unfold SocketEventHandle.eventfd.
  destruct (Z.ltb_spec (eventfd_pick (SocketEventHandle.descriptors s)) 0); [lia|].
  reflexivity.
Qed.

(** The state reached by a constructor with [override] that got the
    descriptors [fd0] and [fd1], from the state [s1] in which the file is
    mapped at [mem]. *)
Lemma new_override_Returns (s : SocketEventHandle.World) :
  SocketEventHandle.World_wf s ->
  let fd0 := eventfd_pick (SocketEventHandle.descriptors s) in
  let fd1 := eventfd_pick (<[fd0 := 0]> (SocketEventHandle.descriptors s)) in
  0 <= fd0 -> 0 <= fd1 ->
  exists mem s',
    new true s = Returns {| SocketEventHandle.shm_path_ := path;
                            SocketEventHandle.state_ := Some mem |} s'
    /\ SocketEventHandle.names s' = <[file := mem]> (SocketEventHandle.names s)
    /\ SocketEventHandle.directories s'
       = {[ dir ]} ∪ SocketEventHandle.directories s
    /\ SocketEventHandle.objects s' !! mem
       = Some {| fds_called := fd0; fds_ready := fd1;
                 enabled := enabled (state_before s) |}
    /\ SocketEventHandle.descriptors s'
       = <[fd1 := 0]> (<[fd0 := 0]> (SocketEventHandle.descriptors s))
    /\ SocketEventHandle.World_wf s'.
Proof.
  intros Hwf fd0 fd1 H0 H1.
  destruct (map_event_state_ok s Hwf) as (mem & s1 & Hmap & Hn & Hdir & Ho & Hd & Hwf1 & _).
  unfold SocketEventHandle.new. unfold Exn.bind at 1. rewrite Hmap.
  unfold Exn.bind at 1. unfold Exn.bind at 1.
  rewrite eventfd_fresh by (rewrite Hd; exact H0).
  rewrite Hd. fold fd0.
  unfold Exn.bind at 1.
  rewrite eventfd_fresh
    by (cbn [SocketEventHandle.set_descriptors SocketEventHandle.descriptors];
        rewrite Hd; exact H1).
  cbn [SocketEventHandle.set_descriptors SocketEventHandle.descriptors
       SocketEventHandle.names SocketEventHandle.objects].
  rewrite Hd. fold fd0. fold fd1.
  destruct (Z.leb_spec 0 fd0); [|lia]. destruct (Z.leb_spec 0 fd1); [|lia].
  cbn [negb orb fst snd].
  unfold Exn.bind, SocketEventHandle.load, SocketEventHandle.store.
  unfold SocketEventHandle.set_descriptors.
  cbn [SocketEventHandle.objects]. rewrite Ho.
  cbn [SocketEventHandle.names SocketEventHandle.objects
       SocketEventHandle.descriptors].
  rewrite Ho, Hd.
  unfold Exn.ret. eexists _, _. split; [reflexivity|].
  cbn [SocketEventHandle.names SocketEventHandle.objects
       SocketEventHandle.descriptors SocketEventHandle.directories].
  split; [exact Hn|]. split; [exact Hdir|]. split.
  { rewrite list_lookup_insert_eq; [reflexivity|].
    apply lookup_lt_Some in Ho. exact Ho. }
  split; [reflexivity|].
  intros path' mem' H'. cbn [SocketEventHandle.names SocketEventHandle.objects] in *.
  destruct (Hwf1 _ _ H') as [es Hes].
  apply lookup_lt_is_Some. rewrite length_insert.
  apply lookup_lt_Some in Hes. exact Hes.
Qed.

(** A handle constructed with [override], when the operating system
    refuses nothing and [eventfd] gives two unused descriptors: the
    constructor returns; [recv_called] and [recv_ready] are these two
    descriptors, which differ, are open and are not signaled; the other
    descriptors are untouched; and [is_enabled] is the flag the file held
    before (false for a new file). *)
Theorem new_override_fresh_events (s : SocketEventHandle.World) :
  SocketEventHandle.World_wf s ->
  let fd0 := eventfd_pick (SocketEventHandle.descriptors s) in
  let fd1 := eventfd_pick (<[fd0 := 0]> (SocketEventHandle.descriptors s)) in
  0 <= fd0 -> 0 <= fd1 ->
  SocketEventHandle.descriptors s !! fd0 = None ->
  (<[fd0 := 0]> (SocketEventHandle.descriptors s)) !! fd1 = None ->
  exists this s',
    new true s = Returns this s'
    /\ SocketEventHandle.recv_called this s' = Returns fd0 s'
    /\ SocketEventHandle.recv_ready this s' = Returns fd1 s'
    /\ fd0 <> fd1
    /\ SocketEventHandle.descriptors s'
       = <[fd1 := 0]> (<[fd0 := 0]> (SocketEventHandle.descriptors s))
    /\ signaled (SocketEventHandle.descriptors s') fd0 = false
    /\ signaled (SocketEventHandle.descriptors s') fd1 = false
    /\ SocketEventHandle.is_enabled this s' = Returns (enabled (state_before s)) s'.
Proof.
  intros Hwf fd0 fd1 H0 H1 Hf0 Hf1.
  destruct (new_override_Returns s Hwf H0 H1) as (mem & s' & Hnew & Hn & Hdir' & Ho & Hd & Hwf').
  fold fd0 fd1 in Ho, Hd.
  assert (Hne : fd0 <> fd1).
  { intros Heq. rewrite <- Heq in Hf1. rewrite lookup_insert_eq in Hf1. discriminate. }
  exists {| SocketEventHandle.shm_path_ := path; SocketEventHandle.state_ := Some mem |}, s'.
  split; [exact Hnew|].
  unfold SocketEventHandle.recv_called, SocketEventHandle.recv_ready,
    SocketEventHandle.is_enabled.
  cbn [SocketEventHandle.state_]. unfold Exn.bind, SocketEventHandle.load.
  rewrite Ho. cbn [EventState_fds fds_called fds_ready enabled].
  destruct (Z.ltb_spec fd0 0); [lia|]. destruct (Z.ltb_spec fd1 0); [lia|].
  unfold Exn.ret. repeat split; auto.
  - unfold signaled. rewrite Hd. rewrite lookup_insert_ne by congruence.
    rewrite lookup_insert_eq. reflexivity.
  - unfold signaled. rewrite Hd. rewrite lookup_insert_eq. reflexivity.
Qed.

Lemma path_not_empty : path <> ""%string.
Proof.
  unfold SocketEventHandle.event_state_path, SocketEventHandle.event_state_dir.
  intros H. cbv [String.append] in H. discriminate H.
Qed.

Lemma c_str_append_l (a b : string) :
  CString.c_str (a +:+ b) = (a +:+ b)%string -> CString.c_str a = a.
Proof.
  induction a as [|x a IH]; intros H; [reflexivity|].
  change (String x a +:+ b)%string with (String x (a +:+ b)) in H.
  cbn [CString.c_str] in *.
  destruct (Ascii.eqb x Ascii.zero); [discriminate|].
  injection H as H. rewrite (IH H). reflexivity.
Qed.


(** When one of the two [eventfd] calls of the constructor fails, the
    constructor throws and the descriptor the other call opened is closed
    again: the open descriptors are what they were. *)
Theorem new_eventfd_failure (s : SocketEventHandle.World) :
  SocketEventHandle.World_wf s ->
  let w := SocketEventHandle.descriptors s in
  let fd0 := eventfd_pick w in
  let fd1 := eventfd_pick (if fd0 <? 0 then w else <[fd0 := 0]> w) in
  fd0 < 0 \/ fd1 < 0 ->
  (0 <= fd0 -> w !! fd0 = None) ->
  (0 <= fd1 -> w !! fd1 = None) ->
  exists s',
    new true s = Raises (runtime_error "Failed to create eventfds") s'
    /\ SocketEventHandle.descriptors s' = SocketEventHandle.descriptors s.
Proof.
  intros Hwf w fd0 fd1 Hfail Hf0 Hf1.
  destruct (map_event_state_ok s Hwf) as (mem & s1 & Hmap & Hn & Hdir & Ho & Hd & Hwf1 & _).
  unfold SocketEventHandle.new. unfold Exn.bind at 1. rewrite Hmap.
  unfold Exn.bind at 1. unfold Exn.bind at 1.
  unfold SocketEventHandle.eventfd at 1. rewrite Hd. fold w. fold fd0.
  subst fd1. destruct (Z.ltb_spec fd0 0) as [Hneg0|Hpos0].
  - unfold Exn.bind at 1. unfold SocketEventHandle.eventfd. rewrite Hd. fold w.
    set (fd1 := eventfd_pick w) in *.
    destruct (Z.leb_spec 0 fd0); [lia|]. cbn [negb orb].
    destruct (Z.ltb_spec fd1 0) as [Hneg1|Hpos1].
    + unfold Exn.bind, SocketEventHandle.close_if_valid. cbn.
      destruct (Z.leb_spec 0 fd0); [lia|].
      unfold Exn.ret, Exn.raise. eexists. split; [reflexivity|exact Hd].
    + unfold Exn.bind, SocketEventHandle.close_if_valid.
      destruct (Z.leb_spec 0 fd1); [|lia]. destruct (Z.leb_spec 0 fd0); [lia|].
      unfold SocketEventHandle.close, Exn.modify, Exn.ret, Exn.raise.
      eexists. split; [reflexivity|].
      cbn [SocketEventHandle.set_descriptors SocketEventHandle.descriptors].
      rewrite Hd. fold w. apply delete_insert_id. apply Hf1. exact Hpos1.
  - unfold Exn.bind at 1. unfold SocketEventHandle.eventfd.
    cbn [SocketEventHandle.set_descriptors SocketEventHandle.descriptors].
    rewrite Hd. fold w.
    set (fd1 := eventfd_pick (<[fd0 := 0]> w)) in *.
    destruct Hfail as [Hfail|Hfail]; [lia|].
    destruct (Z.ltb_spec fd1 0); [|lia].
    destruct (Z.leb_spec 0 fd0); [|lia]. cbn [negb orb].
    change (0 <=? -1) with false. cbn [negb].
    unfold Exn.bind, SocketEventHandle.close_if_valid.
    change (0 <=? -1) with false.
    destruct (Z.leb_spec 0 fd0); [|lia].
    unfold SocketEventHandle.close, Exn.modify, Exn.ret, Exn.raise.
    eexists. split; [reflexivity|].
    cbn [SocketEventHandle.set_descriptors SocketEventHandle.descriptors].
    rewrite Hd. fold w. apply delete_insert_id. apply Hf0. exact Hpos0.
Qed.

Lemma new_override_Raises (s : SocketEventHandle.World) :
  SocketEventHandle.World_wf s ->
  let w := SocketEventHandle.descriptors s in
  let fd0 := eventfd_pick w in
  let fd1 := eventfd_pick (if fd0 <? 0 then w else <[fd0 := 0]> w) in
  fd0 < 0 \/ fd1 < 0 ->
  exists e s', new true s = Raises e s'.
Proof.
  intros Hwf w fd0 fd1 Hfail.
  destruct (map_event_state_ok s Hwf) as (mem & s1 & Hmap & Hn & Hdir & Ho & Hd & Hwf1 & _).
  unfold SocketEventHandle.new. unfold Exn.bind at 1. rewrite Hmap.
  unfold Exn.bind at 1. unfold Exn.bind at 1.
  unfold SocketEventHandle.eventfd at 1. rewrite Hd. fold w. fold fd0.
  subst fd1. destruct (Z.ltb_spec fd0 0) as [Hneg0|Hpos0].
  - unfold Exn.bind at 1. unfold SocketEventHandle.eventfd. rewrite Hd. fold w.
    set (fd1 := eventfd_pick w) in *.
    change (0 <=? -1) with false. cbn [negb orb].
    destruct (Z.ltb_spec fd1 0) as [Hneg1|Hpos1].
    + unfold Exn.bind, SocketEventHandle.close_if_valid.
      change (0 <=? -1) with false.
      unfold Exn.ret, Exn.raise. eauto.
    + unfold Exn.bind, SocketEventHandle.close_if_valid.
      change (0 <=? -1) with false.
      destruct (Z.leb_spec 0 fd1); [|lia].
      unfold SocketEventHandle.close, Exn.modify, Exn.ret, Exn.raise. eauto.
  - unfold Exn.bind at 1. unfold SocketEventHandle.eventfd.
    cbn [SocketEventHandle.set_descriptors SocketEventHandle.descriptors].
    rewrite Hd. fold w.
    set (fd1 := eventfd_pick (<[fd0 := 0]> w)) in *.
    destruct Hfail as [Hfail|Hfail]; [lia|].
    destruct (Z.ltb_spec fd1 0); [|lia].
    destruct (Z.leb_spec 0 fd0); [|lia]. cbn [negb orb].
    change (0 <=? -1) with false. cbn [negb].
    unfold Exn.bind, SocketEventHandle.close_if_valid.
    change (0 <=? -1) with false.
    destruct (Z.leb_spec 0 fd0); [|lia].
    unfold SocketEventHandle.close, Exn.modify, Exn.ret, Exn.raise. eauto.
Qed.

Lemma new_Returns_inv override (s : SocketEventHandle.World) this s' :
  SocketEventHandle.World_wf s ->
  new override s = Returns this s' ->
  exists mem,
    this = {| SocketEventHandle.shm_path_ := path;
              SocketEventHandle.state_ := Some mem |}
    /\ SocketEventHandle.names s' !! file = Some mem
    /\ dir ∈ SocketEventHandle.directories s'
    /\ is_Some (SocketEventHandle.objects s' !! mem)
    /\ SocketEventHandle.World_wf s'.
Proof.
  intros Hwf Hnew. destruct override.
  - set (w := SocketEventHandle.descriptors s).
    set (fd0 := eventfd_pick w).
    destruct (Z.ltb_spec fd0 0) as [Hneg0|Hpos0].
    { destruct (new_override_Raises s Hwf) as (e & s2 & Hr); [left; exact Hneg0|].
      rewrite Hr in Hnew. discriminate. }
    set (fd1 := eventfd_pick (<[fd0 := 0]> w)).
    destruct (Z.ltb_spec fd1 0) as [Hneg1|Hpos1].
    { destruct (new_override_Raises s Hwf) as (e & s2 & Hr).
      - right. fold w fd0. destruct (Z.ltb_spec fd0 0); [lia|]. exact Hneg1.
      - rewrite Hr in Hnew. discriminate. }
    destruct (new_override_Returns s Hwf Hpos0 Hpos1)
      as (mem & s2 & Hr & Hn & Hdir2 & Ho & Hd & Hwf2).
    rewrite Hr in Hnew. injection Hnew as <- <-.
    exists mem. split; [reflexivity|]. split.
    + rewrite Hn. apply lookup_insert_eq.
    + split; [rewrite Hdir2; apply elem_of_union_l, elem_of_singleton_2; reflexivity|].
      split; [eauto|exact Hwf2].
  - destruct (map_event_state_ok s Hwf)
      as (mem & s1 & Hmap & Hn & Hdir & Ho & Hd & Hwf1 & _).
    unfold SocketEventHandle.new in Hnew. unfold Exn.bind at 1 in Hnew.
    rewrite Hmap in Hnew. unfold Exn.bind, Exn.ret in Hnew. cbn [fst snd] in Hnew.
    injection Hnew as <- <-.
    exists mem. split; [reflexivity|]. split.
    + rewrite Hn. apply lookup_insert_eq.
    + split; [rewrite Hdir; apply elem_of_union_l, elem_of_singleton_2; reflexivity|].
      split; [eauto|exact Hwf1].
Qed.

(** A second handle on the same endpoint, opened without [override]
    after a first one was constructed, has the same members as the first:
    it maps the same object, creates no descriptor and changes nothing.  So
    what [set_enabled] writes through one handle, [is_enabled] reads through
    the other, and both give the same two events. *)
Theorem second_handle_shares_state override (s : SocketEventHandle.World) this s' :
  SocketEventHandle.World_wf s ->
  new override s = Returns this s' ->
  new false s' = Returns this s'
  /\ forall b, exists s2,
       SocketEventHandle.set_enabled this b s' = Returns tt s2
       /\ SocketEventHandle.is_enabled this s2 = Returns b s2
       /\ new false s2 = Returns this s2
       /\ SocketEventHandle.descriptors s2 = SocketEventHandle.descriptors s'
       /\ (forall fd, SocketEventHandle.recv_called this s' = Returns fd s' ->
                      SocketEventHandle.recv_called this s2 = Returns fd s2)
       /\ (forall fd, SocketEventHandle.recv_ready this s' = Returns fd s' ->
                      SocketEventHandle.recv_ready this s2 = Returns fd s2).
Proof.
  intros Hwf Hnew.
  destruct (new_Returns_inv override s this s' Hwf Hnew)
    as (mem & -> & Hname & Hdirs & [es Hes] & Hwf').
  assert (Hagain : forall t, SocketEventHandle.World_wf t ->
            SocketEventHandle.names t !! file = Some mem ->
            dir ∈ SocketEventHandle.directories t ->
            new false t = Returns {| SocketEventHandle.shm_path_ := path;
                                     SocketEventHandle.state_ := Some mem |} t).
  { intros t Hwft Ht Hdt.
    destruct (map_event_state_ok t Hwft) as (mem' & t1 & Hmap & Hn & _ & _ & _ & _ & Hsame).
    rewrite (Hsame ltac:(eauto) Hdt) in *.
    assert (mem' = mem) as ->.
    { rewrite Hn in Ht. rewrite lookup_insert_eq in Ht. congruence. }
    unfold SocketEventHandle.new. unfold Exn.bind at 1. rewrite Hmap. reflexivity. }
  split; [apply Hagain; assumption|].
  intros b.
  unfold SocketEventHandle.set_enabled, SocketEventHandle.is_enabled,
    SocketEventHandle.recv_called, SocketEventHandle.recv_ready.
  cbn [SocketEventHandle.state_].
  unfold Exn.bind at 1. unfold SocketEventHandle.load at 1. rewrite Hes.
  unfold SocketEventHandle.store. rewrite Hes.
  eexists. split; [reflexivity|].
  unfold Exn.bind, SocketEventHandle.load.
  cbn [SocketEventHandle.objects SocketEventHandle.descriptors].
  rewrite Hes. rewrite list_lookup_insert_eq by (apply lookup_lt_Some in Hes; exact Hes).
  cbn [enabled EventState_fds fds_called fds_ready].
  split; [reflexivity|]. split.
  { apply Hagain.
    - intros path' mem' H'. cbn [SocketEventHandle.names SocketEventHandle.objects] in *.
      destruct (Hwf' _ _ H') as [x Hx]. apply lookup_lt_is_Some.
      rewrite length_insert. apply lookup_lt_Some in Hx. exact Hx.
    - exact Hname.
    - exact Hdirs. }
  split; [reflexivity|].
  split; intros fd; destruct (_ <? 0); unfold Exn.raise, Exn.ret; intros H;
    try discriminate; injection H as <-; reflexivity.
Qed.

(** A handle opened without [override] on an endpoint that has no file
    yet creates no event descriptor, and its two events are those of the
    zero bytes of the new file: [recv_called] and [recv_ready] both return
    the event on descriptor 0 and do not throw; [is_enabled] is false. *)
Theorem new_without_override (s : SocketEventHandle.World) :
  SocketEventHandle.World_wf s ->
  SocketEventHandle.names s !! file = None ->
  exists this s',
    new false s = Returns this s'
    /\ SocketEventHandle.descriptors s' = SocketEventHandle.descriptors s
    /\ SocketEventHandle.recv_called this s' = Returns 0 s'
    /\ SocketEventHandle.recv_ready this s' = Returns 0 s'
    /\ SocketEventHandle.is_enabled this s' = Returns false s'.
Proof.
  intros Hwf Hnone.
  destruct (map_event_state_ok s Hwf) as (mem & s1 & Hmap & Hn & Hdir & Ho & Hd & Hwf1 & _).
  rewrite Hnone in Ho.
  eexists _, s1. split.
  { unfold SocketEventHandle.new. unfold Exn.bind at 1. rewrite Hmap. reflexivity. }
  split; [exact Hd|].
  unfold SocketEventHandle.recv_called, SocketEventHandle.recv_ready,
    SocketEventHandle.is_enabled.
  cbn [fst snd SocketEventHandle.state_].
  unfold Exn.bind, SocketEventHandle.load. rewrite Ho.
  repeat split.
Qed.

End HandleProperties.

Section HandleAndFakeSocket.

Context {U : Type}.
Variable TSubSocket_connect : string -> string -> bool -> bool -> M U Z.
Variable strerror_errno : string.
Variable eventfd_pick : Fds -> Z.
Variable p : Process.
Variables endpoint identifier : string.

(** The driver side and the subscriber side of the fake gate fit: after a
    handle is constructed with [override] (the operating system refusing
    nothing, [eventfd] giving unused descriptors) and its flag is set, the
    mapped [EventState] is enabled and holds two distinct descriptors that
    are open and not signaled; a [FakeSubSocket] whose [connect] returns on
    that mapped state then runs every [receive] through the gate on exactly
    these two events. *)
Theorem handle_enables_gate (s : SocketEventHandle.World) :
  SocketEventHandle.World_wf s ->
  let fd0 := eventfd_pick (SocketEventHandle.descriptors s) in
  let fd1 := eventfd_pick (<[fd0 := 0]> (SocketEventHandle.descriptors s)) in
  0 <= fd0 -> 0 <= fd1 ->
  SocketEventHandle.descriptors s !! fd0 = None ->
  (<[fd0 := 0]> (SocketEventHandle.descriptors s)) !! fd1 = None ->
  exists this s1 s2 mem es,
    SocketEventHandle.new os_ok None strerror_errno eventfd_pick p endpoint
      identifier true s = Returns this s1
    /\ SocketEventHandle.set_enabled this true s1 = Returns tt s2
    /\ SocketEventHandle.state_ this = Some mem
    /\ SocketEventHandle.objects s2 !! mem = Some es
    /\ enabled es = true
    /\ fds_called es = fd0 /\ fds_ready es = fd1 /\ fd0 <> fd1
    /\ SocketEventHandle.descriptors s2 !! fd0 = Some 0
    /\ SocketEventHandle.descriptors s2 !! fd1 = Some 0
    /\ signaled (SocketEventHandle.descriptors s2) fd0 = false
    /\ signaled (SocketEventHandle.descriptors s2) fd1 = false
    /\ forall context address conflate check_endpoint (sock0 : @FakeSubSocket U) r sock,
         connect TSubSocket_connect context endpoint address conflate check_endpoint
                 (SocketEventHandle.objects s2 !! mem) sock0 = Ok r sock ->
         forall non_blocking,
           receive sock non_blocking
           = [CallSet fd0; CallWait fd1; CallClear fd1; CallBaseReceive non_blocking].
Proof.
  intros Hwf fd0 fd1 H0 H1 Hf0 Hf1.
  destruct (new_override_Returns strerror_errno eventfd_pick p endpoint identifier
              s Hwf H0 H1) as (mem & s1 & Hnew & Hn & Hdir1 & Ho & Hd & Hwf1).
  fold fd0 fd1 in Ho, Hd.
  assert (Hne : fd0 <> fd1).
  { intros Heq. rewrite <- Heq in Hf1. rewrite lookup_insert_eq in Hf1. discriminate. }
  eexists _, s1, _, mem, {| fds_called := fd0; fds_ready := fd1; enabled := true |}.
  split; [exact Hnew|].
  unfold SocketEventHandle.set_enabled. cbn [SocketEventHandle.state_].
  unfold Exn.bind, SocketEventHandle.load, SocketEventHandle.store. rewrite Ho.
  rewrite Ho. cbn [fds_called fds_ready enabled].
  split; [reflexivity|]. split; [reflexivity|].
  cbn [SocketEventHandle.objects SocketEventHandle.descriptors].
  assert (Hes : <[mem := {| fds_called := fd0; fds_ready := fd1; enabled := true |}]>
                  (SocketEventHandle.objects s1) !! mem
                = Some {| fds_called := fd0; fds_ready := fd1; enabled := true |}).
  { apply list_lookup_insert_eq. apply lookup_lt_Some in Ho. exact Ho. }
  rewrite Hes.
  split; [reflexivity|]. split; [reflexivity|].
  split; [reflexivity|]. split; [reflexivity|]. split; [exact Hne|].
  split.
  { rewrite Hd. rewrite lookup_insert_ne by congruence. apply lookup_insert_eq. }
  split.
  { rewrite Hd. apply lookup_insert_eq. }
  split.
  { unfold signaled. rewrite Hd. rewrite lookup_insert_ne by congruence.
    rewrite lookup_insert_eq. reflexivity. }
  split.
  { unfold signaled. rewrite Hd. rewrite lookup_insert_eq. reflexivity. }
  intros context address conflate check_endpoint sock0 r sock Hconn non_blocking.
  apply connect_Ok in Hconn as (es' & Hmem & Hst & Hc & Hr & _ & _).
  injection Hmem as <-.
  apply (receive_enabled sock _ non_blocking Hst eq_refl Hc Hr).
Qed.

End HandleAndFakeSocket.

(** *** The handle of the endpoint "camera" *)

Lemma world0_wf : SocketEventHandle.World_wf HandleExample.world0.
Proof.
  intros path mem H. cbn in H. rewrite lookup_empty in H. discriminate.
Qed.

Lemma new_override_fresh_events_witness :
  exists this s',
    SocketEventHandle.new os_ok None "" HandleExample.eventfd_pick HandleExample.p0
      "camera" "" true HandleExample.world0 = Returns this s'
    /\ SocketEventHandle.recv_called this s' = Returns 3 s'
    /\ SocketEventHandle.recv_ready this s' = Returns 4 s'
    /\ 3 <> 4
    /\ SocketEventHandle.descriptors s' = <[4 := 0]> (<[3 := 0]> ∅)
    /\ signaled (SocketEventHandle.descriptors s') 3 = false
    /\ signaled (SocketEventHandle.descriptors s') 4 = false
    /\ SocketEventHandle.is_enabled this s' = Returns false s'.
Proof.
  apply (new_override_fresh_events "" HandleExample.eventfd_pick HandleExample.p0
           "camera" "" HandleExample.world0 world0_wf).
  - vm_compute. discriminate.
  - vm_compute. discriminate.
  - reflexivity.
  - reflexivity.
Defined.


Lemma new_eventfd_failure_witness :
  exists s',
    SocketEventHandle.new os_ok None "" HandleExample.eventfd_one HandleExample.p0
      "camera" "" true HandleExample.world0
    = Raises (runtime_error "Failed to create eventfds") s'
    /\ SocketEventHandle.descriptors s'
       = SocketEventHandle.descriptors HandleExample.world0.
Proof.
  apply (new_eventfd_failure "" HandleExample.eventfd_one HandleExample.p0
           "camera" "" HandleExample.world0 world0_wf).
  - right. vm_compute. reflexivity.
  - intros _. reflexivity.
  - intros _. reflexivity.
Defined.

Lemma camera_constructed :
  SocketEventHandle.new os_ok None "" HandleExample.eventfd_pick HandleExample.p0
    "camera" "" true HandleExample.world0
  = Returns HandleExample.camera HandleExample.world1.
Proof.
  vm_refl.
Qed.

Lemma second_handle_shares_state_witness :
  SocketEventHandle.new os_ok None "" HandleExample.eventfd_pick HandleExample.p0
    "camera" "" false HandleExample.world1
  = Returns HandleExample.camera HandleExample.world1.
Proof.
  apply (second_handle_shares_state "" HandleExample.eventfd_pick HandleExample.p0
           "camera" "" true HandleExample.world0 HandleExample.camera
           HandleExample.world1 world0_wf camera_constructed).
Defined.

Lemma new_without_override_witness :
  exists this s',
    SocketEventHandle.new os_ok None "" HandleExample.eventfd_pick HandleExample.p0
      "camera" "" false HandleExample.world0 = Returns this s'
    /\ SocketEventHandle.descriptors s'
       = SocketEventHandle.descriptors HandleExample.world0
    /\ SocketEventHandle.recv_called this s' = Returns 0 s'
    /\ SocketEventHandle.recv_ready this s' = Returns 0 s'
    /\ SocketEventHandle.is_enabled this s' = Returns false s'.
Proof.
  apply (new_without_override "" HandleExample.eventfd_pick HandleExample.p0
           "camera" "" HandleExample.world0 world0_wf).
  reflexivity.
Defined.

Lemma handle_enables_gate_witness :
  exists this s1 s2 mem es,
    SocketEventHandle.new os_ok None "" HandleExample.eventfd_pick HandleExample.p0
      "camera" "" true HandleExample.world0 = Returns this s1
    /\ SocketEventHandle.set_enabled this true s1 = Returns tt s2
    /\ SocketEventHandle.state_ this = Some mem
    /\ SocketEventHandle.objects s2 !! mem = Some es
    /\ enabled es = true
    /\ fds_called es = 3 /\ fds_ready es = 4 /\ 3 <> 4
    /\ SocketEventHandle.descriptors s2 !! 3 = Some 0
    /\ SocketEventHandle.descriptors s2 !! 4 = Some 0
    /\ signaled (SocketEventHandle.descriptors s2) 3 = false
    /\ signaled (SocketEventHandle.descriptors s2) 4 = false
    /\ forall context address conflate check_endpoint
              (sock0 : @FakeSubSocket unit) r sock,
         connect GateExample.base_connect context "camera" address conflate
                 check_endpoint (SocketEventHandle.objects s2 !! mem) sock0
         = Ok r sock ->
         forall non_blocking,
           receive sock non_blocking
           = [CallSet 3; CallWait 4; CallClear 4; CallBaseReceive non_blocking].
Proof.
  apply (handle_enables_gate GateExample.base_connect "" HandleExample.eventfd_pick
           HandleExample.p0 "camera" "" HandleExample.world0 world0_wf).
  - vm_compute. discriminate.
  - vm_compute. discriminate.
  - reflexivity.
  - reflexivity.
Defined.
